(** * Sonos / Fusion pairing plugin: registry, validator, router, statistics

    A shallow embedding of the pairing registry (class [DeviceManager]),
    of the two device controllers' command paths ([FusionController],
    [SonosController]) and of the event handlers of the plugin entry point
    (index.js), with the properties of the design document checked against
    them.

    Modelling conventions.
    - A JavaScript [Map] keeps its entries in insertion order and the code
      depends on it ([Array.from(map.values()).find], export order, stable
      ordering of ties): the registry is an association list with the
      [Map] operations written out.
    - Strings are [string]; [toLowerCase] lower-cases the letters A to Z,
      which is ECMAScript's mapping on ASCII text (device refs, input
      selectors and transport states are ASCII tokens).
    - Numbers that the code handles as integers (volumes, millisecond time
      stamps) are [Z]; the one computed fraction, [(volume / 100) * 40], is
      evaluated over [Q] and, next to it, over binary64 floats.
    - A method that mutates the registry, emits events, writes to the log and
      may throw is a computation in the monad [M].
    - What arrives from outside (plugin options, request bodies, imported
      records) is JSON: where the code's behaviour depends on the kind of a
      value (a record that is [null], an input selector that is not a
      string, a flag that is not a boolean) the model keeps the value as
      [Json]. Names and device refs are strings where they are present. *)

From Stdlib Require Import ZArith QArith Qround Ascii String Sorting Permutation Lia.
From Stdlib Require Import PrimFloat FloatOps SpecFloat Uint63.
From stdpp Require Import base option list strings gmap sorting.
From stdpp Require Import pretty.

Local Open Scope string_scope.
Local Open Scope Z_scope.

(** ** JavaScript primitives *)

Module JS.

(** [String.prototype.toLowerCase], on ASCII text. *)
Definition lowerChar (c : ascii) : ascii :=
  let n := nat_of_ascii c in
  if (Nat.leb 65 n && Nat.leb n 90)%bool then ascii_of_nat (n + 32) else c.

Fixpoint toLowerCase (s : string) : string :=
  match s with
  | EmptyString => EmptyString
  | String c r => String (lowerChar c) (toLowerCase r)
  end.

(** A JSON value as far as the code tells values apart: [null], a
    boolean, a number (only whether it is zero matters; integers stand for
    all numbers), a string, an object or array. *)
Inductive Json :=
  | jnull
  | jbool (b : bool)
  | jnumber (z : Z)
  | jstring (s : string)
  | jobject.

(** A value in a condition: [if (v)], [!v], [a && v]. *)
Definition truthy (v : Json) : bool :=
  match v with
  | jnull => false
  | jbool b => b
  | jnumber z => negb (z =? 0)
  | jstring s => negb (String.eqb s "")
  | jobject => true
  end.

(** [Array.prototype.includes] on an array of strings. *)
Definition includes (l : list string) (s : string) : bool :=
  existsb (String.eqb s) l.

(** [Math.round] on an exact rational: the nearest integer, a tie going
    towards plus infinity. *)
Definition Math_round (q : Q) : Z := Qfloor (q + (1 # 2))%Q.

(** [Math.round] on a binary64 value, from its sign, mantissa and exponent
    (not-a-number and the infinities, which [Math.round] returns unchanged,
    have no integer to give and are mapped to [None]). *)
Definition Math_round_float (x : float) : option Z :=
  match Prim2SF x with
  | S754_zero _ => Some 0
  | S754_finite s m e =>
      let n := if s then Z.neg m else Z.pos m in
      if 0 <=? e then Some (n * 2 ^ e)
      else Some ((2 * n + 2 ^ (- e)) / 2 ^ (- e + 1))
  | S754_infinity _ => None
  | S754_nan => None
  end.

(** A small integer as a binary64 number. *)
Definition number_of_Z (z : Z) : float :=
  if 0 <=? z then PrimFloat.of_uint63 (Uint63.of_Z z)
  else PrimFloat.opp (PrimFloat.of_uint63 (Uint63.of_Z (- z))).

(** *** [Map] with string keys, in insertion order *)

Section OrderedMap.
Context {V : Type}.

Definition Map := list (string * V).

Definition Map_empty : Map := [].

Fixpoint Map_get (k : string) (m : Map) : option V :=
  match m with
  | [] => None
  | (k', v) :: r => if String.eqb k k' then Some v else Map_get k r
  end.

(** [set] on a key that is present replaces the value where it stands;
    a new key goes to the end. *)
Fixpoint Map_set (k : string) (v : V) (m : Map) : Map :=
  match m with
  | [] => [(k, v)]
  | (k', v') :: r =>
      if String.eqb k k' then (k, v) :: r else (k', v') :: Map_set k v r
  end.

Fixpoint Map_delete (k : string) (m : Map) : Map :=
  match m with
  | [] => []
  | (k', v') :: r =>
      if String.eqb k k' then r else (k', v') :: Map_delete k r
  end.

Definition Map_values (m : Map) : list V := map snd m.
Definition Map_keys (m : Map) : list string := map fst m.
Definition Map_size (m : Map) : nat := length m.

(** A [Map] holds a key once. *)
Definition Map_wf (m : Map) : Prop := NoDup (Map_keys m).
End OrderedMap.

Arguments Map : clear implicits.

End JS.

(** ** The pairing registry (class [DeviceManager]) *)

Module DeviceManager.
Import JS.

(** [pair.lastActivity]: [{timestamp, type, data}]; [data] is opaque. *)
Record Activity := {
  timestamp : Z;
  type : string;
  data : string
}.

(** A stored pair, with the fields [addDevicePair] gives it. The two flags
    are booleans when [addDevicePair] sets them; [Object.assign] can put any
    JSON value there, and the code reads them in conditions. *)
Record DevicePair := {
  name : string;
  sonosDevice : string;
  fusionDevice : string;
  fusionInput : string;
  volumeSync : Json;
  enabled : Json;
  lastActivity : option Activity;
  status : string
}.

(** The fields of a pair configuration as it arrives (plugin options,
    request body, imported record): any field may be missing ([None]). The
    name and the two device refs are strings where present; the input
    selector and the two flags are any JSON value. *)
Record RawConfig := {
  raw_name : option string;
  raw_sonosDevice : option string;
  raw_fusionDevice : option string;
  raw_fusionInput : option Json;
  raw_volumeSync : option Json;
  raw_enabled : option Json
}.

(** What arrives in the place of a pair configuration: [null],
    [undefined], or an object with its fields. (A number, a string or an
    array in that place reads like an object without any of the fields.) *)
Inductive Config :=
  | nullConfig
  | undefinedConfig
  | objectConfig (fields : RawConfig).

Definition fieldsOf (config : Config) : option RawConfig :=
  match config with
  | objectConfig fields => Some fields
  | _ => None
  end.

(** A pair configuration with its four required fields present and its
    input selector a string: what [addDevicePair] reads. The two flags stay
    optional. *)
Record PairConfig := {
  cfg_name : string;
  cfg_sonosDevice : string;
  cfg_fusionDevice : string;
  cfg_fusionInput : string;
  cfg_volumeSync : option Json;
  cfg_enabled : option Json
}.

(** The object handed to [updateDevicePair] and merged by [Object.assign]:
    the fields it carries overwrite the pair's, the others stay. Nothing
    checks what it carries: a flag may come as any JSON value. (The name,
    the device refs, the input selector and the status are taken to come as
    strings.) *)
Record PairUpdates := {
  upd_name : option string;
  upd_sonosDevice : option string;
  upd_fusionDevice : option string;
  upd_fusionInput : option string;
  upd_volumeSync : option Json;
  upd_enabled : option Json;
  upd_lastActivity : option (option Activity);
  upd_status : option string
}.

Definition Registry := Map DevicePair.

(** *** Effects: registry state, emitted events, error log, exceptions *)

Inductive Event :=
  | devicePairReady (pair : DevicePair)
  | devicePairRemoved (pair : DevicePair).

(** What a method sends out, in program order: [this.emit] and
    [this.app.error]. ([this.app.debug] lines are diagnostic and are left
    out of the model.) *)
Inductive Output :=
  | Emit (e : Event)
  | Error (msg : string).

Inductive Completion (A : Type) :=
  | Normal (a : A)
  | Throw (message : string).
Arguments Normal {A} a.
Arguments Throw {A} message.

Record Run (A : Type) := mkRun {
  result : Completion A;
  registry : Registry;
  trace : list Output
}.
Arguments mkRun {A} result registry trace.
Arguments result {A} r.
Arguments registry {A} r.
Arguments trace {A} r.

Definition M (A : Type) : Type := Registry -> Run A.

Definition ret {A} (a : A) : M A := fun s => mkRun (Normal a) s [].

Definition bind {A B} (m : M A) (f : A -> M B) : M B := fun s =>
  let r := m s in
  match result r with
  | Normal a =>
      let r' := f a (registry r) in
      mkRun (result r') (registry r') (app (trace r) (trace r'))
  | Throw e => mkRun (Throw e) (registry r) (trace r)
  end.

Definition getPairs : M Registry := fun s => mkRun (Normal s) s [].
Definition setPairs (s' : Registry) : M unit := fun _ => mkRun (Normal tt) s' [].
Definition emit (e : Event) : M unit := fun s => mkRun (Normal tt) s [Emit e].
Definition app_error (msg : string) : M unit := fun s => mkRun (Normal tt) s [Error msg].
Definition throw {A} (message : string) : M A := fun s => mkRun (Throw message) s [].

Declare Scope dm_scope.
Delimit Scope dm_scope with dm.
Notation "x <- c1 ;; c2" := (bind c1 (fun x => c2))
  (at level 100, c1 at next level, right associativity) : dm_scope.
Notation "c1 ;; c2" := (bind c1 (fun _ => c2))
  (at level 100, right associativity) : dm_scope.
Local Open Scope dm_scope.

(** [array.forEach(f)] with an effectful callback. *)
Fixpoint forEach {A} (l : list A) (f : A -> M unit) : M unit :=
  match l with
  | [] => ret tt
  | x :: r => f x ;; forEach r f
  end.

(** The events among the outputs. *)
Definition events (t : list Output) : list Event :=
  omap (fun o => match o with Emit e => Some e | Error _ => None end) t.

Definition errors (t : list Output) : list string :=
  omap (fun o => match o with Error m => Some m | Emit _ => None end) t.

(** *** validatePairConfig *)

(** [!config[field]]: the field is missing or holds a falsy value. *)
Definition falsy (v : option Json) : bool :=
  match v with
  | None => true
  | Some value => negb (truthy value)
  end.

Definition required : list (string * (RawConfig -> option Json)) :=
  [ ("name", fun config => jstring <$> raw_name config);
    ("sonosDevice", fun config => jstring <$> raw_sonosDevice config);
    ("fusionDevice", fun config => jstring <$> raw_fusionDevice config);
    ("fusionInput", raw_fusionInput) ].

Fixpoint firstMissing (fields : list (string * (RawConfig -> option Json)))
    (config : RawConfig) : option string :=
  match fields with
  | [] => None
  | (field, get) :: r =>
      if falsy (get config) then Some field else firstMissing r config
  end.

Definition validInputs : list string :=
  ["aux1"; "aux2"; "aux3"; "usb"; "bluetooth"; "am"; "fm"].

(** Reading [config[field]] of [null] or [undefined] throws a [TypeError],
    and so does calling [toLowerCase] on an input selector that is truthy
    and not a string; the messages are those of Node's engine. *)
Definition validatePairConfig (config : Config) : M bool :=
  match config with
  | nullConfig => throw "Cannot read properties of null (reading 'name')"
  | undefinedConfig => throw "Cannot read properties of undefined (reading 'name')"
  | objectConfig fields =>
      match firstMissing required fields with
      | Some field =>
          app_error ("Missing required field '" ++ field ++ "' in device pair config") ;;
          ret false
      | None =>
          match raw_fusionInput fields with
          | Some (jstring input) =>
              if includes validInputs (toLowerCase input) then ret true
              else (app_error ("Invalid fusion input: " ++ input) ;; ret false)
          | Some _ => throw "config.fusionInput.toLowerCase is not a function"
          | None => throw "Cannot read properties of undefined (reading 'toLowerCase')"
          end
      end
  end.

(** The same object read as a [PairConfig], once its required fields are
    known to be there and its input selector to be a string. *)
Definition asPairConfig (config : RawConfig) : option PairConfig :=
  match raw_name config, raw_sonosDevice config,
        raw_fusionDevice config, raw_fusionInput config with
  | Some n, Some s, Some f, Some (jstring i) =>
      Some {| cfg_name := n; cfg_sonosDevice := s; cfg_fusionDevice := f;
              cfg_fusionInput := i; cfg_volumeSync := raw_volumeSync config;
              cfg_enabled := raw_enabled config |}
  | _, _, _, _ => None
  end.

(** [${config.name}] in a template: a missing field prints as [undefined]. *)
Definition show (v : option string) : string := default "undefined" v.

(** *** addDevicePair, removeDevicePair, updateDevicePair *)

(** [flag !== false]: only the boolean [false] is turned down. *)
Definition notFalse (flag : option Json) : bool :=
  match flag with
  | Some (jbool false) => false
  | _ => true
  end.

Definition newPair (config : PairConfig) : DevicePair :=
  {| name := cfg_name config;
     sonosDevice := cfg_sonosDevice config;
     fusionDevice := cfg_fusionDevice config;
     fusionInput := toLowerCase (cfg_fusionInput config);
     volumeSync := jbool (notFalse (cfg_volumeSync config));
     enabled := jbool (notFalse (cfg_enabled config));
     lastActivity := None;
     status := "ready" |}.

Definition addDevicePair (config : PairConfig) : M unit :=
  let pair := newPair config in
  pairs <- getPairs ;;
  setPairs (Map_set (cfg_name config) pair pairs) ;;
  if truthy (enabled pair) then emit (devicePairReady pair) else ret tt.

Definition removeDevicePair (name : string) : M unit :=
  pairs <- getPairs ;;
  match Map_get name pairs with
  | Some p =>
      setPairs (Map_delete name pairs) ;;
      emit (devicePairRemoved p)
  | None => ret tt
  end.

(** [Object.assign(pair, updates)]. *)
Definition Object_assign (pair : DevicePair) (updates : PairUpdates) : DevicePair :=
  {| name := default (name pair) (upd_name updates);
     sonosDevice := default (sonosDevice pair) (upd_sonosDevice updates);
     fusionDevice := default (fusionDevice pair) (upd_fusionDevice updates);
     fusionInput := default (fusionInput pair) (upd_fusionInput updates);
     volumeSync := default (volumeSync pair) (upd_volumeSync updates);
     enabled := default (enabled pair) (upd_enabled updates);
     lastActivity := default (lastActivity pair) (upd_lastActivity updates);
     status := default (status pair) (upd_status updates) |}.

(** The pair object is mutated where it is stored: same key, same place. *)
Definition updateDevicePair (name : string) (updates : PairUpdates) : M unit :=
  pairs <- getPairs ;;
  match Map_get name pairs with
  | None => app_error ("Device pair not found: " ++ name)
  | Some p =>
      let oldEnabled := enabled p in
      let pair' := Object_assign p updates in
      setPairs (Map_set name pair' pairs) ;;
      if negb (truthy oldEnabled) && truthy (enabled pair')
      then emit (devicePairReady pair')
      else if truthy oldEnabled && negb (truthy (enabled pair'))
      then emit (devicePairRemoved pair')
      else ret tt
  end.

(** *** Lookups *)

Definition getPairByName (name : string) (pairs : Registry) : option DevicePair :=
  Map_get name pairs.

Definition getPairBySonosDevice (deviceId : string) (pairs : Registry) : option DevicePair :=
  List.find (fun pair => String.eqb (sonosDevice pair) deviceId && truthy (enabled pair))
            (Map_values pairs).

Definition getPairByFusionDevice (deviceId : string) (pairs : Registry) : option DevicePair :=
  List.find (fun pair => String.eqb (fusionDevice pair) deviceId && truthy (enabled pair))
            (Map_values pairs).

Definition getAllPairs (pairs : Registry) : list DevicePair := Map_values pairs.

Definition getEnabledPairs (pairs : Registry) : list DevicePair :=
  List.filter (fun pair => truthy (enabled pair)) (Map_values pairs).

Definition getPairsByInput (input : string) (pairs : Registry) : list DevicePair :=
  List.filter (fun pair => String.eqb (fusionInput pair) input && truthy (enabled pair))
              (Map_values pairs).

(** *** Activity and status *)

Definition withLastActivity (pair : DevicePair) (a : option Activity) : DevicePair :=
  {| name := name pair; sonosDevice := sonosDevice pair;
     fusionDevice := fusionDevice pair; fusionInput := fusionInput pair;
     volumeSync := volumeSync pair; enabled := enabled pair;
     lastActivity := a; status := status pair |}.

Definition withStatus (pair : DevicePair) (s : string) : DevicePair :=
  {| name := name pair; sonosDevice := sonosDevice pair;
     fusionDevice := fusionDevice pair; fusionInput := fusionInput pair;
     volumeSync := volumeSync pair; enabled := enabled pair;
     lastActivity := lastActivity pair; status := s |}.

(** [now] is the reading of [Date.now()]. *)
Definition updatePairActivity (now : Z) (pairName : string)
    (activityType activityData : string) : M unit :=
  pairs <- getPairs ;;
  match Map_get pairName pairs with
  | Some p =>
      setPairs (Map_set pairName
        (withLastActivity p
           (Some {| timestamp := now; type := activityType; data := activityData |}))
        pairs)
  | None => ret tt
  end.

Definition updatePairStatus (pairName : string) (s : string) : M unit :=
  pairs <- getPairs ;;
  match Map_get pairName pairs with
  | Some p => setPairs (Map_set pairName (withStatus p s) pairs)
  | None => ret tt
  end.

(** *** validateDeviceAssociation *)

Record Validation := {
  valid : bool;
  conflicts : list string
}.

Definition sonosConflict (sonosDevice : string) (existing : DevicePair) : string :=
  "Sonos device " ++ sonosDevice ++ " is already paired with " ++ name existing.

Definition fusionConflict (fusionDevice : string) (existing : DevicePair) : string :=
  "Fusion device " ++ fusionDevice ++ " is already paired with " ++ name existing.

Definition validateDeviceAssociation (sonosDevice fusionDevice : string)
    (pairs : Registry) : Validation :=
  let existingSonosPair := getPairBySonosDevice sonosDevice pairs in
  let existingFusionPair := getPairByFusionDevice fusionDevice pairs in
  let conflicts :=
    app
      match existingSonosPair with
      | Some p => [sonosConflict sonosDevice p]
      | None => []
      end
      match existingFusionPair with
      | Some p => [fusionConflict fusionDevice p]
      | None => []
      end in
  {| valid := Nat.eqb (length conflicts) 0; conflicts := conflicts |}.

(** *** getDeviceStatistics *)

Record ActivityEntry := {
  pairName : string;
  entryTimestamp : Z;
  entryType : string
}.

Record Statistics := {
  totalPairs : nat;
  enabledPairs : nat;
  activePairs : nat;
  recentActivity : list ActivityEntry
}.

(** lodash's [_.orderBy(entries, [key], ['desc'])]: a stable sort, larger
    keys first, entries with equal keys staying in their order. Written as
    an insertion sort that puts an entry before the first one whose key is
    not larger. *)
Section OrderBy.
Context {A : Type} (key : A -> Z).

Fixpoint insertDesc (x : A) (l : list A) : list A :=
  match l with
  | [] => [x]
  | y :: r => if key y <=? key x then x :: y :: r else y :: insertDesc x r
  end.

Fixpoint orderByDesc (l : list A) : list A :=
  match l with
  | [] => []
  | x :: r => insertDesc x (orderByDesc r)
  end.
End OrderBy.

(** One round of the [pairs.forEach] loop body on the running statistics. *)
Definition statsStep (now : Z) (stats : Statistics) (pair : DevicePair) : Statistics :=
  let active :=
    match lastActivity pair with
    | Some a => if now - timestamp a <? 300000 then S (activePairs stats)
                else activePairs stats
    | None => activePairs stats
    end in
  let recent :=
    match lastActivity pair with
    | Some a => app (recentActivity stats)
                [{| pairName := name pair; entryTimestamp := timestamp a;
                    entryType := type a |}]
    | None => recentActivity stats
    end in
  {| totalPairs := totalPairs stats; enabledPairs := enabledPairs stats;
     activePairs := active; recentActivity := recent |}.

(** [now] is the reading of [Date.now()]: the loop reads the clock for each
    pair that has a [lastActivity], and the call being synchronous the
    model takes these readings to be one and the same. The result is the
    [stats] object; [_.orderBy(...).slice(0, 10)] is the last step. *)
Definition getDeviceStatistics (now : Z) (pairs : Registry) : Statistics :=
  let stats0 :=
    {| totalPairs := Map_size pairs;
       enabledPairs := length (getEnabledPairs pairs);
       activePairs := 0%nat;
       recentActivity := [] |} in
  let stats := fold_left (statsStep now) (Map_values pairs) stats0 in
  {| totalPairs := totalPairs stats; enabledPairs := enabledPairs stats;
     activePairs := activePairs stats;
     recentActivity := take 10 (orderByDesc entryTimestamp (recentActivity stats)) |}.

(** *** exportConfiguration, importConfiguration, loadDevicePairs *)

(** The exported plain record: these six fields and no others, the two
    flags as they are stored. *)
Record ExportedPair := {
  exp_name : string;
  exp_sonosDevice : string;
  exp_fusionDevice : string;
  exp_fusionInput : string;
  exp_volumeSync : Json;
  exp_enabled : Json
}.

Definition exportPair (pair : DevicePair) : ExportedPair :=
  {| exp_name := name pair;
     exp_sonosDevice := sonosDevice pair;
     exp_fusionDevice := fusionDevice pair;
     exp_fusionInput := fusionInput pair;
     exp_volumeSync := volumeSync pair;
     exp_enabled := enabled pair |}.

(** The array under [devicePairs] in the object that is returned. *)
Definition exportConfiguration (pairs : Registry) : list ExportedPair :=
  map exportPair (Map_values pairs).

(** An exported record read back as an incoming configuration. *)
Definition asRawConfig (e : ExportedPair) : Config :=
  objectConfig
    {| raw_name := Some (exp_name e);
       raw_sonosDevice := Some (exp_sonosDevice e);
       raw_fusionDevice := Some (exp_fusionDevice e);
       raw_fusionInput := Some (jstring (exp_fusionInput e));
       raw_volumeSync := Some (exp_volumeSync e);
       raw_enabled := Some (exp_enabled e) |}.

(** The body shared by the two loops over incoming configurations. A
    configuration that passes [validatePairConfig] is an object that has
    its four required fields, so the [None] branch below is never taken;
    one for which it answers [false] is not [null] or [undefined] (for
    those it throws), so [pairConfig.name] can be read. *)
Definition addIfValid (complaint : string) (pairConfig : Config) : M unit :=
  ok <- validatePairConfig pairConfig ;;
  if ok then
    match fieldsOf pairConfig ≫= asPairConfig with
    | Some config => addDevicePair config
    | None => ret tt
    end
  else app_error (complaint ++ show (fieldsOf pairConfig ≫= raw_name)).

(** [devicePairs] is [None] when [config.devicePairs] is missing or is not
    an array. *)
Definition importConfiguration (devicePairs : option (list Config)) : M unit :=
  match devicePairs with
  | None => throw "Invalid configuration format"
  | Some records =>
      setPairs Map_empty ;;
      forEach records (addIfValid "Skipping invalid device pair: ")
  end.

Definition loadDevicePairs (optionsDevicePairs : list Config) : M unit :=
  forEach optionsDevicePairs (addIfValid "Invalid device pair configuration: ").

End DeviceManager.

(** ** The amplifier controller (class [FusionController]), command path *)

Module FusionController.
Import JS.

(** A tracked amplifier, as far as a command needs it. *)
Record Device := {
  host : string;
  port : Z
}.

(** [sendCommand(device, command, params)]: one HTTP POST to
    [http://host:port/api/fusion/command] with [params] as its body. *)
Record Command := {
  target : Device;
  command : string;
  params : list (string * Z)
}.

Definition sendCommand (device : Device) (command : string)
    (params : list (string * Z)) : Command :=
  {| target := device; command := command; params := params |}.

(** [Math.round((volume / 100) * 40)], in exact arithmetic. *)
Definition fusionVolume (volume : Z) : Z :=
  Math_round ((inject_Z volume / 100) * 40)%Q.

(** The same expression evaluated as JavaScript does, on binary64 numbers. *)
Definition fusionVolume_binary64 (volume : Z) : option Z :=
  Math_round_float
    (PrimFloat.mul (PrimFloat.div (number_of_Z volume) (number_of_Z 100))
                   (number_of_Z 40)).

(** [setVolume(deviceId, volume)] up to the request it sends: nothing for a
    device that is not tracked, one [setVolume] command otherwise. (What
    the method does once the response is back is outside the model.) *)
Definition setVolume (devices : gmap string Device) (deviceId : string)
    (volume : Z) : list Command :=
  match devices !! deviceId with
  | None => []
  | Some device => [sendCommand device "setVolume" [("volume", fusionVolume volume)]]
  end.

End FusionController.

(** ** The source controller (class [SonosController]) *)

Module SonosController.
Import JS.

(** [device.SetVolume(volume)] on the client object of a tracked device. *)
Inductive Command :=
  | SetVolume (deviceId : string) (volume : Z).

Definition setVolume (devices : gset string) (deviceId : string)
    (volume : Z) : list Command :=
  if decide (deviceId ∈ devices) then [SetVolume deviceId volume] else [].

(** [normalizePlaybackState(state)]; [state] is [None] when the transport
    information carries no state ([state?.toLowerCase()] is then
    [undefined] and the [switch] takes its default). *)
Definition normalizePlaybackState (state : option string) : string :=
  match state with
  | None => "unknown"
  | Some s =>
      let l := toLowerCase s in
      if String.eqb l "playing" then "playing"
      else if String.eqb l "paused_playback" then "paused"
      else if String.eqb l "paused" then "paused"
      else if String.eqb l "stopped" then "stopped"
      else if String.eqb l "transitioning" then "transitioning"
      else "unknown"
  end.

(** The controller written against the node-sonos client
    (src/unnamed/part_002) switches on the state as it is. *)
Module NodeSonos.
Definition normalizePlaybackState (state : option string) : string :=
  match state with
  | None => "unknown"
  | Some s =>
      if String.eqb s "playing" then "playing"
      else if String.eqb s "paused" then "paused"
      else if String.eqb s "stopped" then "stopped"
      else if String.eqb s "transitioning" then "transitioning"
      else "unknown"
  end.
End NodeSonos.

End SonosController.

(** ** The event handlers of the plugin (index.js) *)

Module Plugin.
Import JS DeviceManager.

Record Track := {
  title : string;
  artist : string;
  album : string;
  duration : Z
}.

(** The value published under a status path. [Fraction n d] is the number
    [n / d]. *)
Inductive StatusValue :=
  | Text (s : string)
  | Fraction (n d : Z)
  | TrackInfo (t : Track).

(** What a handler asks of its collaborators, in program order. The time
    stamps that [app.handleMessage] receives with a status are left out. *)
Inductive Call :=
  | sonos_addDevice (deviceId : string)
  | fusion_addDevice (deviceId : string)
  | sonos_removeDevice (deviceId : string)
  | fusion_removeDevice (deviceId : string)
  | fusion_switchInput (deviceId inputSource : string)
  | fusion_setVolume (deviceId : string) (volume : Z)
  | sonos_setVolume (deviceId : string) (volume : Z)
  | sonos_adjustVolume (deviceId : string) (volumeChange : Z)
  | app_handleMessage (path : string) (value : StatusValue)
  | nmea_updatePlaybackState (pairName state : string)
  | nmea_updateVolume (pairName : string) (volume : Z)
  | nmea_updateTrack (pairName : string) (track : Track).

(** The plugin's variables that the handlers read: the registry held by
    [deviceManager], and whether [nmea2000Handler] is set. *)
Record State := {
  deviceManager : Registry;
  nmea2000Handler : bool
}.

Definition statusPath (pairName field : string) : string :=
  "entertainment.audio." ++ pairName ++ "." ++ field.

Definition whenNmea (st : State) (c : Call) : list Call :=
  if nmea2000Handler st then [c] else [].

Definition handleDevicePairReady (st : State) (pair : DevicePair)
    : State * list Call :=
  (st, [ sonos_addDevice (sonosDevice pair);
         fusion_addDevice (fusionDevice pair);
         app_handleMessage (statusPath (name pair) "status") (Text "ready") ]).

Definition handleDevicePairRemoved (st : State) (pair : DevicePair)
    : State * list Call :=
  (st, [ sonos_removeDevice (sonosDevice pair);
         fusion_removeDevice (fusionDevice pair) ]).

Definition handlePlaybackStateChanged (st : State) (device state : string)
    : State * list Call :=
  match getPairBySonosDevice device (deviceManager st) with
  | None => (st, [])
  | Some p =>
      (st,
       app
         (if String.eqb state "playing"
          then [fusion_switchInput (fusionDevice p) (fusionInput p)] else [])
         (app_handleMessage (statusPath (name p) "playbackState") (Text state)
          :: whenNmea st (nmea_updatePlaybackState (name p) state)))
  end.

Definition handleVolumeChanged (st : State) (device : string) (volume : Z)
    : State * list Call :=
  match getPairBySonosDevice device (deviceManager st) with
  | None => (st, [])
  | Some p =>
      if negb (truthy (volumeSync p)) then (st, [])
      else
        (st,
         fusion_setVolume (fusionDevice p) volume
         :: app_handleMessage (statusPath (name p) "volume") (Fraction volume 100)
         :: whenNmea st (nmea_updateVolume (name p) volume))
  end.

Definition handleTrackChanged (st : State) (device : string) (track : Track)
    : State * list Call :=
  match getPairBySonosDevice device (deviceManager st) with
  | None => (st, [])
  | Some p =>
      (st,
       app_handleMessage (statusPath (name p) "currentTrack") (TrackInfo track)
       :: whenNmea st (nmea_updateTrack (name p) track))
  end.

Definition handleFusionVolumeChanged (st : State) (device : string) (volume : Z)
    : State * list Call :=
  match getPairByFusionDevice device (deviceManager st) with
  | None => (st, [])
  | Some p =>
      if negb (truthy (volumeSync p)) then (st, [])
      else (st, [sonos_setVolume (sonosDevice p) volume])
  end.

Definition handleNMEAVolumeControl (st : State) (pairName : string)
    (volumeChange : Z) : State * list Call :=
  match getPairByName pairName (deviceManager st) with
  | None => (st, [])
  | Some p => (st, [sonos_adjustVolume (sonosDevice p) volumeChange])
  end.

(** The commands that reach the devices when the calls of a handler run
    through the two controllers. *)
Definition ampCommands (fusionDevices : gmap string FusionController.Device)
    (calls : list Call) : list FusionController.Command :=
  flat_map (fun c => match c with
                     | fusion_setVolume d v => FusionController.setVolume fusionDevices d v
                     | _ => []
                     end) calls.

Definition sourceCommands (sonosDevices : gset string)
    (calls : list Call) : list SonosController.Command :=
  flat_map (fun c => match c with
                     | sonos_setVolume d v => SonosController.setVolume sonosDevices d v
                     | _ => []
                     end) calls.

End Plugin.

(** ** Starting and stopping the registry ([DeviceManager.start], [stop]) *)

Module Lifecycle.
Import JS DeviceManager.
Local Open Scope dm_scope.

(** [start()]: [isStarted] comes in and goes out; [optionsDevicePairs] is
    [this.options.devicePairs || []]. ([isStarted] is set before the pairs
    are loaded, so it is [true] also when loading throws.) *)
Definition start (optionsDevicePairs : list Config) (isStarted : bool) : M bool :=
  if isStarted then ret true
  else (loadDevicePairs optionsDevicePairs ;; ret true).

(** [stop()]: the registry is cleared; nothing is emitted for the pairs
    that go. *)
Definition stop (isStarted : bool) : M bool :=
  if negb isStarted then ret false
  else (setPairs Map_empty ;; ret false).

End Lifecycle.

(** ** The REST routes on the registry (plugin entry point with routes,
    src/unnamed/part_002) *)

Module Routes.
Import JS DeviceManager.
Local Open Scope dm_scope.

(** The JSON bodies the routes answer with. *)
Inductive Body :=
  | Message (message : string)
  | Failure (error : string)
  | Conflict (error : string) (conflicts : list string)
  | Pairs (pairs : list DevicePair)
  | Configuration (devicePairs : list ExportedPair).

Record Response := {
  statusCode : Z;
  body : Body
}.

(** [POST /pairs], inside its [try]. A configuration that passes
    [validatePairConfig] is an object that has its required fields, so the
    [None] branch is never taken. *)
Definition createPair (pairConfig : Config) : M Response :=
  ok <- validatePairConfig pairConfig ;;
  if negb ok then
    ret {| statusCode := 400; body := Failure "Invalid pair configuration" |}
  else
    match fieldsOf pairConfig ≫= asPairConfig with
    | None => ret {| statusCode := 400; body := Failure "Invalid pair configuration" |}
    | Some config =>
        pairs <- getPairs ;;
        let validation :=
          validateDeviceAssociation (cfg_sonosDevice config)
                                    (cfg_fusionDevice config) pairs in
        if negb (valid validation) then
          ret {| statusCode := 409;
                 body := Conflict "Device association conflict"
                                  (conflicts validation) |}
        else
          (addDevicePair config ;;
           ret {| statusCode := 201;
                  body := Message "Device pair created successfully" |})
    end.

(** [PATCH /pairs/:pairName], inside its [try]. *)
Definition patchPair (pairName : string) (updates : PairUpdates) : M Response :=
  pairs <- getPairs ;;
  match getPairByName pairName pairs with
  | None => ret {| statusCode := 404; body := Failure "Device pair not found" |}
  | Some _ =>
      updateDevicePair pairName updates ;;
      ret {| statusCode := 200;
             body := Message "Device pair updated successfully" |}
  end.

(** [DELETE /pairs/:pairName], inside its [try]. *)
Definition deletePair (pairName : string) : M Response :=
  pairs <- getPairs ;;
  match getPairByName pairName pairs with
  | None => ret {| statusCode := 404; body := Failure "Device pair not found" |}
  | Some _ =>
      removeDevicePair pairName ;;
      ret {| statusCode := 200;
             body := Message "Device pair deleted successfully" |}
  end.

(** [GET /pairs] and [GET /export]. *)
Definition listPairs : M Response :=
  pairs <- getPairs ;;
  ret {| statusCode := 200; body := Pairs (getAllPairs pairs) |}.

Definition exportRoute : M Response :=
  pairs <- getPairs ;;
  ret {| statusCode := 200; body := Configuration (exportConfiguration pairs) |}.

(** [POST /import], inside its [try]. *)
Definition importRoute (devicePairs : option (list Config)) : M Response :=
  importConfiguration devicePairs ;;
  ret {| statusCode := 200;
         body := Message "Configuration imported successfully" |}.

(** A route as the router runs it: [deviceManager] is [None] while the
    plugin is not started (answer 503); an exception in the handler is
    caught and answered with [failed] and its message; what the handler did
    to the registry before throwing stays. *)
Definition serve (failed : Z) (handler : M Response)
    (deviceManager : option Registry)
    : Response * option Registry * list Output :=
  match deviceManager with
  | None => ({| statusCode := 503; body := Failure "Plugin not started" |}, None, [])
  | Some pairs =>
      let run := handler pairs in
      match result run with
      | Normal response => (response, Some (registry run), trace run)
      | Throw message =>
          ({| statusCode := failed; body := Failure message |},
           Some (registry run), trace run)
      end
  end.

Definition postPairs (pairConfig : Config) := serve 500 (createPair pairConfig).
Definition patchPairs (pairName : string) (updates : PairUpdates) :=
  serve 500 (patchPair pairName updates).
Definition deletePairs (pairName : string) := serve 500 (deletePair pairName).
Definition getExport := serve 500 exportRoute.
Definition postImport (devicePairs : option (list Config)) :=
  serve 400 (importRoute devicePairs).

End Routes.


(** ** More JavaScript primitives *)

Module JSLib.

(** A value as far as the code tells values apart: [undefined], [null], a
    number that is an integer, a string. *)
Inductive Value :=
  | undefined
  | null
  | number (z : Z)
  | text (s : string).

(** [a === b] on such values. *)
Definition strictEq (a b : Value) : bool :=
  match a, b with
  | undefined, undefined => true
  | null, null => true
  | number x, number y => x =? y
  | text x, text y => String.eqb x y
  | _, _ => false
  end.

(** [`${n}`] for an integer [n]. *)
Definition numberToString (n : Z) : string := pretty n.

(** [s.split(sep)] for a separator of one character: never empty, the
    pieces between the separators in order. *)
Fixpoint split (sep : ascii) (s : string) : list string :=
  match s with
  | EmptyString => [EmptyString]
  | String c rest =>
      if Ascii.eqb c sep then EmptyString :: split sep rest
      else match split sep rest with
           | piece :: pieces => String c piece :: pieces
           | [] => [String c EmptyString]
           end
  end.

(** [array.indexOf(x)] on strings; [-1] when absent. *)
Fixpoint indexOf (x : string) (l : list string) : Z :=
  match l with
  | [] => -1
  | y :: r => if String.eqb y x then 0
              else let i := indexOf x r in if i <? 0 then -1 else i + 1
  end.

(** [array[i]]. *)
Definition at_ (l : list string) (i : Z) : option string :=
  if i <? 0 then None else nth_error l (Z.to_nat i).

(** *** [parseInt(string)], no radix given

    Leading white space is skipped, a sign is read, [0x] or [0X] selects
    base 16 (otherwise base 10), and the longest run of digits is the
    value; [None] stands for [NaN]. The value is the exact integer of the
    numeral, which is JavaScript's number as long as it stays below
    [2^53]. *)
Definition isWhiteSpace (c : ascii) : bool :=
  let n := nat_of_ascii c in
  (Nat.eqb n 32 || (Nat.leb 9 n && Nat.leb n 13))%bool.

Fixpoint trimStart (s : string) : string :=
  match s with
  | EmptyString => EmptyString
  | String c rest => if isWhiteSpace c then trimStart rest else s
  end.

Definition digitValue (radix : Z) (c : ascii) : option Z :=
  let n := Z.of_nat (nat_of_ascii c) in
  let v := if (48 <=? n) && (n <=? 57) then Some (n - 48)
           else if (97 <=? n) && (n <=? 122) then Some (n - 87)
           else if (65 <=? n) && (n <=? 90) then Some (n - 55)
           else None in
  match v with
  | Some d => if d <? radix then Some d else None
  | None => None
  end.

(** The value of the longest run of digits at the head of [s], continuing
    from [acc] ([None] while no digit has been read). *)
Fixpoint digitsPrefix (radix : Z) (s : string) (acc : option Z) : option Z :=
  match s with
  | EmptyString => acc
  | String c rest =>
      match digitValue radix c with
      | Some d => digitsPrefix radix rest (Some (default 0 acc * radix + d))
      | None => acc
      end
  end.

Definition parseInt (s : string) : option Z :=
  let s1 := trimStart s in
  let signed :=
    match s1 with
    | String c rest =>
        if Ascii.eqb c "-" then (-1, rest)
        else if Ascii.eqb c "+" then (1, rest)
        else (1, s1)
    | EmptyString => (1, s1)
    end in
  let based :=
    match snd signed with
    | String c (String x rest) =>
        if Ascii.eqb c "0" && (Ascii.eqb x "x" || Ascii.eqb x "X")
        then (16, rest) else (10, snd signed)
    | other => (10, other)
    end in
  match digitsPrefix (fst based) (snd based) None with
  | Some v => Some (fst signed * v)
  | None => None
  end.

(** [parseInt(x) || 0]. *)
Definition parseIntOr0 (s : string) : Z := default 0 (parseInt s).


End JSLib.

(** ** The amplifier controller: device table, discovery, input switching,
    polling ([FusionController], src/lib/fusionController.js) *)

Module FusionDevices.
Import JS JSLib.

(** An entry of [this.devices]. *)
Record Tracked := {
  id : string;
  name : option string;
  host : string;
  port : Z;
  lastSeen : Z;
  currentInput : Value;
  currentVolume : Value
}.

(** A service announced by discovery, with the fields the device table
    takes from it. *)
Record Service := {
  svc_name : option string;
  svc_host : string;
  svc_port : Z
}.

Definition has (deviceId : string) (devices : Map Tracked) : bool :=
  match Map_get deviceId devices with
  | Some _ => true
  | None => false
  end.

Definition getDeviceId (service : Service) : string :=
  svc_host service ++ ":" ++ numberToString (svc_port service).

Definition findDeviceById (deviceId : string) (devices : Map Tracked)
    : option Tracked :=
  Map_get deviceId devices.

(** [now] is the reading of [Date.now()]. *)
Definition handleDeviceDiscovered (now : Z) (service : Service)
    (devices : Map Tracked) : Map Tracked :=
  let deviceId := getDeviceId service in
  if negb (has deviceId devices) then
    Map_set deviceId
      {| id := deviceId; name := svc_name service; host := svc_host service;
         port := svc_port service; lastSeen := now;
         currentInput := null; currentVolume := null |}
      devices
  else devices.

Definition handleDeviceUnavailable (service : Service) (devices : Map Tracked)
    : Map Tracked :=
  let deviceId := getDeviceId service in
  if has deviceId devices then Map_delete deviceId devices else devices.

Definition addDevice (now : Z) (deviceId : string) (devices : Map Tracked)
    : Map Tracked :=
  if has deviceId devices then devices
  else
    match findDeviceById deviceId devices with
    | Some deviceInfo =>
        Map_set deviceId
          {| id := id deviceInfo; name := name deviceInfo; host := host deviceInfo;
             port := port deviceInfo; lastSeen := now;
             currentInput := null; currentVolume := null |}
          devices
    | None => devices
    end.

Definition removeDevice (deviceId : string) (devices : Map Tracked) : Map Tracked :=
  if has deviceId devices then Map_delete deviceId devices else devices.

(** The part of an entry that a command needs. *)
Definition endpoint (device : Tracked) : FusionController.Device :=
  {| FusionController.host := host device; FusionController.port := port device |}.

(** The table as the command path of [setVolume] reads it. *)
Definition commandTable (devices : Map Tracked) : gmap string FusionController.Device :=
  list_to_map (map (fun kd => (fst kd, endpoint (snd kd))) devices).

(** *** switchInput *)

Definition inputMap : Map Z :=
  [ ("aux1", 1); ("aux2", 2); ("aux3", 3); ("usb", 4);
    ("bluetooth", 5); ("am", 6); ("fm", 7) ].

(** [inputMap[key]] for a key in lower case: the number of an own key; for
    [constructor] and [__proto__], which every object literal inherits, a
    function or an object; otherwise [undefined]. (The other inherited
    names, [toString], [valueOf], [hasOwnProperty] and the like, have a
    capital letter and are not met by a lower-cased key.) *)
Inductive InputNumber :=
  | ownNumber (n : Z)
  | inheritedValue (key : string)
  | noInput.

Definition inputMapLookup (key : string) : InputNumber :=
  match Map_get key inputMap with
  | Some n => ownNumber n
  | None =>
      if String.eqb key "constructor" || String.eqb key "__proto__"
      then inheritedValue key
      else noInput
  end.

(** What [switchInput] does up to the request it sends. *)
Inductive SwitchOutcome :=
  | NotTracked
  | InvalidInput (error : string)
  | Sent (command : FusionController.Command)
  | SentNonNumeric (target : FusionController.Device) (key : string).

Definition switchInput (devices : Map Tracked) (deviceId inputSource : string)
    : SwitchOutcome :=
  match Map_get deviceId devices with
  | None => NotTracked
  | Some device =>
      match inputMapLookup (toLowerCase inputSource) with
      | noInput => InvalidInput ("Invalid input source: " ++ inputSource)
      | ownNumber inputNumber =>
          if inputNumber =? 0
          then InvalidInput ("Invalid input source: " ++ inputSource)
          else Sent (FusionController.sendCommand (endpoint device) "setInput"
                       [("input", inputNumber)])
      | inheritedValue key => SentNonNumeric (endpoint device) key
      end
  end.

(** The entry once the device has confirmed a command. *)
Definition inputSwitched (device : Tracked) (inputSource : string) : Tracked :=
  {| id := id device; name := name device; host := host device; port := port device;
     lastSeen := lastSeen device; currentInput := text inputSource;
     currentVolume := currentVolume device |}.

Definition volumeSet (device : Tracked) (volume : Z) : Tracked :=
  {| id := id device; name := name device; host := host device; port := port device;
     lastSeen := lastSeen device; currentInput := currentInput device;
     currentVolume := number volume |}.

(** *** Polling *)

(** What [getStatus] hands to the poller: the device's [currentInput] and
    [volume] ([power] and [source] are not read by the poller). *)
Record Status := {
  input : Value;
  volume : Value
}.

Inductive PollEvent :=
  | volumeChanged (deviceId : string) (volume : Value)
  | inputChanged (deviceId : string) (input : Value).

(** One round of the polling loop for one device; [status] is [None] when
    [getStatus] answered [null]. *)
Definition pollDevice (deviceId : string) (device : Tracked)
    (status : option Status) : Tracked * list PollEvent :=
  match status with
  | None => (device, [])
  | Some status =>
      let volumeDiffers := negb (strictEq (volume status) (currentVolume device)) in
      let inputDiffers := negb (strictEq (input status) (currentInput device)) in
      ({| id := id device; name := name device; host := host device;
          port := port device; lastSeen := lastSeen device;
          currentInput := if inputDiffers then input status else currentInput device;
          currentVolume := if volumeDiffers then volume status
                           else currentVolume device |},
       app (if volumeDiffers then [volumeChanged deviceId (volume status)] else [])
           (if inputDiffers then [inputChanged deviceId (input status)] else []))
  end.

End FusionDevices.


(** ** The source controller: volume adjustment, durations, polling
    ([SonosController], src/lib/sonosController.js) *)

Module SonosDevices.
Import JS JSLib.

(** [adjustVolume(deviceId, volumeChange)]; [currentVolume] is the answer
    of [device.GetVolume()], [None] when the request fails. *)
Definition adjustVolume (devices : gset string) (deviceId : string)
    (volumeChange : Z) (currentVolume : option Z) : list SonosController.Command :=
  if decide (deviceId ∈ devices) then
    match currentVolume with
    | None => []
    | Some current =>
        let newVolume := Z.max 0 (Z.min 100 (current + volumeChange)) in
        [SonosController.SetVolume deviceId newVolume]
    end
  else [].

(** [parseDuration(duration)]; [duration] is [None] for a value that is not
    a string. Sums are exact integers, JavaScript's numbers while below
    [2^53]. *)
Definition parseDuration (duration : option string) : Z :=
  match duration with
  | None => 0
  | Some EmptyString => 0
  | Some duration =>
      match split ":" duration with
      | [h; m; s] => parseIntOr0 h * 3600 + parseIntOr0 m * 60 + parseIntOr0 s
      | [m; s] => parseIntOr0 m * 60 + parseIntOr0 s
      | _ => parseIntOr0 duration
      end
  end.

(** What the device answers to the three requests of a poll. *)
Record TrackMetaData := {
  Title : option string;
  Artist : option string;
  Album : option string
}.

Record PositionInfo := {
  metaData : option TrackMetaData;
  TrackDuration : option string
}.

Inductive Event :=
  | playbackStateChanged (deviceId state : string)
  | volumeChanged (deviceId : string) (volume : Z)
  | trackChanged (deviceId : string) (track : Plugin.Track).

(** [x || 'Unknown'] on a string that may be missing. *)
Definition orUnknown (x : option string) : string :=
  match x with
  | Some EmptyString => "Unknown"
  | Some s => s
  | None => "Unknown"
  end.

(** [pollDeviceState]: [transportState] is [None] when [GetTransportInfo]
    fails, an inner [None] when its answer has no state; [volume] is [None]
    when [GetVolume] fails; [positionInfo] is [None] when [GetPositionInfo]
    fails or answers nothing. A failure of one of the first two is caught
    and nothing is emitted. *)
Definition pollDeviceState (deviceId : string)
    (transportState : option (option string)) (volume : option Z)
    (positionInfo : option PositionInfo) : list Event :=
  match transportState, volume with
  | Some state, Some volume =>
      app [ playbackStateChanged deviceId (SonosController.normalizePlaybackState state);
            volumeChanged deviceId volume ]
          match positionInfo with
          | Some info =>
              match metaData info with
              | Some meta =>
                  [trackChanged deviceId
                     {| Plugin.title := orUnknown (Title meta);
                        Plugin.artist := orUnknown (Artist meta);
                        Plugin.album := orUnknown (Album meta);
                        Plugin.duration := parseDuration (TrackDuration info) |}]
              | None => []
              end
          | None => []
          end
  | _, _ => []
  end.

End SonosDevices.


(** ** The bus handler ([NMEA2000Handler], src/unnamed/part_001) *)

Module NMEA2000Handler.
Import JS JSLib.

(** An entry of [this.pairStates]. *)
Record PairState := {
  playbackState : string;
  volume : Z;
  currentTrack : option Plugin.Track;
  lastUpdate : Z
}.

Record Handler := {
  enabled : bool;
  isStarted : bool;
  deviceInstance : Z;
  pairStates : Map PairState
}.

(** A value put on the bus: a string, the number [n / d], or the time of
    day of a clock reading. *)
Inductive BusValue :=
  | busText (s : string)
  | busNumber (n d : Z)
  | busTime (ms : Z).

(** The message given to [app.handleMessage]: its source and its values in
    the order they are written (the time stamps are left out). *)
Record Message := {
  source : string;
  values : list (string * BusValue)
}.

(** [new NMEA2000Handler(app, options)]: [enabled] is
    [options.enabled !== false], [deviceInstance] is
    [options.deviceInstance || 0]. *)
Definition create (optionsEnabled : option bool) (optionsInstance : option Z) : Handler :=
  {| enabled := match optionsEnabled with Some false => false | _ => true end;
     isStarted := false;
     deviceInstance := default 0 optionsInstance;
     pairStates := Map_empty |}.

Definition start (h : Handler) : Handler :=
  if isStarted h || negb (enabled h) then h
  else {| enabled := enabled h; isStarted := true;
          deviceInstance := deviceInstance h; pairStates := pairStates h |}.

Definition stop (h : Handler) : Handler :=
  if negb (isStarted h) then h
  else {| enabled := enabled h; isStarted := false;
          deviceInstance := deviceInstance h; pairStates := Map_empty |}.

Definition sourceName (h : Handler) : string :=
  "sonos-fusion-plugin." ++ numberToString (deviceInstance h).

Definition path (pairName field : string) : string :=
  "entertainment.audio." ++ pairName ++ "." ++ field.

(** [getPairState]: the entry of the pair, made on first use. *)
Definition defaultState (now : Z) : PairState :=
  {| playbackState := "stopped"; volume := 0; currentTrack := None;
     lastUpdate := now |}.

Definition getPairState (now : Z) (pairName : string) (states : Map PairState)
    : Map PairState * PairState :=
  match Map_get pairName states with
  | Some state => (states, state)
  | None => (Map_set pairName (defaultState now) states, defaultState now)
  end.

Definition sendPGN129540 (h : Handler) (pairName : string) (state : PairState)
    : list Message :=
  [{| source := sourceName h;
      values := [ (path pairName "playbackState", busText (playbackState state));
                  (path pairName "volume", busNumber (volume state) 100) ] |}].

Definition sendPGN129041 (h : Handler) (pairName : string) (state : PairState)
    : list Message :=
  match currentTrack state with
  | None => []
  | Some track =>
      [{| source := sourceName h;
          values :=
            [ (path pairName "currentTrack.title", busText (Plugin.title track));
              (path pairName "currentTrack.artist", busText (Plugin.artist track));
              (path pairName "currentTrack.album", busText (Plugin.album track));
              (path pairName "currentTrack.duration",
               busNumber (Plugin.duration track) 1) ] |}]
  end.

Definition withStates (h : Handler) (states : Map PairState) : Handler :=
  {| enabled := enabled h; isStarted := isStarted h;
     deviceInstance := deviceInstance h; pairStates := states |}.

(** The three [update...] methods; [now] is the reading of [Date.now()]. *)
Definition updatePlaybackState (now : Z) (pairName state : string) (h : Handler)
    : Handler * list Message :=
  if negb (enabled h) || negb (isStarted h) then (h, [])
  else
    let (states, pairState) := getPairState now pairName (pairStates h) in
    let pairState' :=
      {| playbackState := state; volume := volume pairState;
         currentTrack := currentTrack pairState; lastUpdate := now |} in
    (withStates h (Map_set pairName pairState' states),
     app (sendPGN129540 h pairName pairState') (sendPGN129041 h pairName pairState')).

Definition updateVolume (now : Z) (pairName : string) (newVolume : Z) (h : Handler)
    : Handler * list Message :=
  if negb (enabled h) || negb (isStarted h) then (h, [])
  else
    let (states, pairState) := getPairState now pairName (pairStates h) in
    let pairState' :=
      {| playbackState := playbackState pairState; volume := newVolume;
         currentTrack := currentTrack pairState; lastUpdate := now |} in
    (withStates h (Map_set pairName pairState' states),
     sendPGN129540 h pairName pairState').

Definition updateTrack (now : Z) (pairName : string) (track : Plugin.Track)
    (h : Handler) : Handler * list Message :=
  if negb (enabled h) || negb (isStarted h) then (h, [])
  else
    let (states, pairState) := getPairState now pairName (pairStates h) in
    let pairState' :=
      {| playbackState := playbackState pairState; volume := volume pairState;
         currentTrack := Some track; lastUpdate := now |} in
    (withStates h (Map_set pairName pairState' states),
     sendPGN129041 h pairName pairState').

(** One tick of the heartbeat timer. *)
Definition sendHeartbeat (now : Z) (h : Handler) (pairName : string) : Message :=
  {| source := sourceName h;
     values := [ (path pairName "status", busText "online");
                 (path pairName "lastSeen", busTime now) ] |}.

Definition heartbeat (now : Z) (h : Handler) : list Message :=
  if negb (enabled h) || negb (isStarted h) then []
  else
    flat_map (fun entry =>
                if now - lastUpdate (snd entry) <? 30000
                then [sendHeartbeat now h (fst entry)] else [])
             (pairStates h).

(** *** Controls arriving from the bus *)

(** The value of a control: [null], an object with its [change] field
    ([undefined] when it has none), a number, a string, or something
    else. *)
Inductive ControlData :=
  | dataNull
  | dataObject (change : Value)
  | dataNumber (z : Z)
  | dataString (s : string)
  | dataOther.

Inductive ControlEvent :=
  | volumeControl (pairName : string) (change : Value)
  | volumeSet (pairName : string) (volume : Z)
  | playbackControl (pairName command : string)
  | sourceControl (pairName source : string).

(** What a control handler emits, or the [TypeError] of reading a field of
    [null]. *)
Inductive Outcome :=
  | Emitted (events : list ControlEvent)
  | TypeError.

Definition handleNMEAVolumeControl (pairName : string) (volumeData : ControlData)
    : Outcome :=
  match volumeData with
  | dataNull => TypeError
  | dataObject change =>
      if strictEq change undefined then Emitted []
      else Emitted [volumeControl pairName change]
  | dataNumber z => Emitted [volumeSet pairName z]
  | _ => Emitted []
  end.

Definition handleNMEAPlaybackControl (pairName : string) (playbackData : ControlData)
    : Outcome :=
  match playbackData with
  | dataString s => Emitted [playbackControl pairName s]
  | _ => Emitted []
  end.

Definition handleNMEASourceControl (pairName : string) (sourceData : ControlData)
    : Outcome :=
  match sourceData with
  | dataString s => Emitted [sourceControl pairName s]
  | _ => Emitted []
  end.

Definition handleNMEAControl (controlPath : string) (value : ControlData) : Outcome :=
  let pathParts := split "." controlPath in
  let pairNameIndex := indexOf "audio" pathParts + 1 in
  if Z.of_nat (length pathParts) <=? pairNameIndex then Emitted []
  else
    match at_ pathParts pairNameIndex,
          at_ pathParts (Z.of_nat (length pathParts) - 1) with
    | Some pairName, Some controlType =>
        if String.eqb controlType "volume" then handleNMEAVolumeControl pairName value
        else if String.eqb controlType "playback"
             then handleNMEAPlaybackControl pairName value
        else if String.eqb controlType "source"
             then handleNMEASourceControl pairName value
        else Emitted []
    | _, _ => Emitted []
    end.

End NMEA2000Handler.


(** ** How the plugin's calls reach the amplifier table *)

Module Wiring.
Import JS DeviceManager.

(** The effect on [fusionController.devices] of the calls of a handler;
    [now] is the reading of [Date.now()]. *)
Definition onAmplifierTable (now : Z) (calls : list Plugin.Call)
    (devices : Map FusionDevices.Tracked) : Map FusionDevices.Tracked :=
  fold_left
    (fun table call =>
       match call with
       | Plugin.fusion_addDevice deviceId => FusionDevices.addDevice now deviceId table
       | Plugin.fusion_removeDevice deviceId => FusionDevices.removeDevice deviceId table
       | _ => table
       end)
    calls devices.

(** The listeners of the registry's two events. *)
Definition dispatch (st : Plugin.State) (e : Event) : list Plugin.Call :=
  match e with
  | devicePairReady p => snd (Plugin.handleDevicePairReady st p)
  | devicePairRemoved p => snd (Plugin.handleDevicePairRemoved st p)
  end.

(** The listeners of the source controller's three events. *)
Definition onSourceEvent (st : Plugin.State) (e : SonosDevices.Event)
    : list Plugin.Call :=
  match e with
  | SonosDevices.playbackStateChanged device state =>
      snd (Plugin.handlePlaybackStateChanged st device state)
  | SonosDevices.volumeChanged device volume =>
      snd (Plugin.handleVolumeChanged st device volume)
  | SonosDevices.trackChanged device track =>
      snd (Plugin.handleTrackChanged st device track)
  end.

(** The commands that [adjustVolume] calls give; [currentVolume] is what
    the source answers when asked for its volume. *)
Definition adjustCommands (sonosDevices : gset string) (currentVolume : option Z)
    (calls : list Plugin.Call) : list SonosController.Command :=
  flat_map (fun c => match c with
                     | Plugin.sonos_adjustVolume d change =>
                         SonosDevices.adjustVolume sonosDevices d change currentVolume
                     | _ => []
                     end) calls.


(** The listener of the bus handler's [volumeControl] event, the only one
    of its events the plugin listens to. [None] for a change that is not an
    integer, which is outside what the handlers are modelled on. *)
Definition onControlEvent (st : Plugin.State) (e : NMEA2000Handler.ControlEvent)
    : option (list Plugin.Call) :=
  match e with
  | NMEA2000Handler.volumeControl pairName (JSLib.number change) =>
      Some (snd (Plugin.handleNMEAVolumeControl st pairName change))
  | NMEA2000Handler.volumeControl _ _ => None
  | _ => Some []
  end.


End Wiring.


(** * Statements and proofs *)

Import JS DeviceManager.

(** ** Predicates used in the statements *)

(** Every entry is stored under the name its pair carries. *)
Definition keysMatch (pairs : Registry) : Prop :=
  Forall (fun kp => fst kp = name (snd kp)) pairs.

(** A stored pair that [validatePairConfig] would accept again unchanged:
    non-empty name and device refs, and an input selector that is one of
    the seven identifiers as written (lower case). *)
Definition storable (pair : DevicePair) : bool :=
  negb (String.eqb (name pair) "")
  && negb (String.eqb (sonosDevice pair) "")
  && negb (String.eqb (fusionDevice pair) "")
  && includes validInputs (fusionInput pair).

(** A pair whose two flags hold [true] or [false], as [addDevicePair]
    leaves them. *)
Definition isBoolean (v : Json) : bool :=
  match v with
  | jbool _ => true
  | _ => false
  end.

Definition booleanFlags (pair : DevicePair) : bool :=
  isBoolean (volumeSync pair) && isBoolean (enabled pair).

(** A pair as a fresh import stores it: configuration kept, run-time
    fields reset. *)
Definition reimported (pair : DevicePair) : DevicePair :=
  withStatus (withLastActivity pair None) "ready".

(** What the round trip asks of a registry. *)
Definition roundTrips (pairs : Registry) : Prop :=
  Map_wf pairs /\ keysMatch pairs /\
  Forall (fun p => storable p = true) (Map_values pairs) /\
  Forall (fun p => booleanFlags p = true) (Map_values pairs).

(** Larger keys first. *)
Definition descending {A : Type} (key : A -> Z) (a b : A) : Prop :=
  key b <= key a.




(** The activity entry a pair contributes to the statistics, if any. *)
Definition activityEntry (pair : DevicePair) : option ActivityEntry :=
  match lastActivity pair with
  | Some a => Some {| pairName := name pair; entryTimestamp := timestamp a;
                      entryType := type a |}
  | None => None
  end.

(** A pair whose last activity is less than 300000 ms old at [now]. *)
Definition recentlyActive (now : Z) (pair : DevicePair) : bool :=
  match lastActivity pair with
  | Some a => now - timestamp a <? 300000
  | None => false
  end.

(** The normalization table of the design document. *)
Definition normalizationTable : Map string :=
  [ ("playing", "playing");
    ("paused", "paused");
    ("paused_playback", "paused");
    ("stopped", "stopped");
    ("transitioning", "transitioning") ].

(** The conversion the design document asks of the amplifier-to-source
    direction: [round(u / 40 * 100)]. This is the document's formula, written
    here to compare the code with; the handler applies no conversion. *)
Definition percentOfNative (u : Z) : Z :=
  Math_round ((inject_Z u / 40) * 100)%Q.

(** An update that carries no field. *)
Definition noUpdates : PairUpdates :=
  {| upd_name := None; upd_sonosDevice := None; upd_fusionDevice := None;
     upd_fusionInput := None; upd_volumeSync := None; upd_enabled := None;
     upd_lastActivity := None; upd_status := None |}.

(** A sample installation: one source, one amplifier, paired as [salon]. *)
Definition salonConfig : PairConfig :=
  {| cfg_name := "salon"; cfg_sonosDevice := "192.168.1.20:1400";
     cfg_fusionDevice := "192.168.1.30:80"; cfg_fusionInput := "AUX1";
     cfg_volumeSync := None; cfg_enabled := None |}.

(** The same pair as a record of the plugin options, its flags given. *)
Definition salonRecord : RawConfig :=
  {| raw_name := Some "salon"; raw_sonosDevice := Some "192.168.1.20:1400";
     raw_fusionDevice := Some "192.168.1.30:80";
     raw_fusionInput := Some (jstring "AUX1");
     raw_volumeSync := Some jnull; raw_enabled := Some (jbool false) |}.

Definition salonRegistry : Registry :=
  registry (addDevicePair salonConfig Map_empty).

Definition salonPlugin : Plugin.State :=
  {| Plugin.deviceManager := salonRegistry; Plugin.nmea2000Handler := true |}.

(** A second installation, whose pair has volume synchronisation off. *)
Definition deckConfig : PairConfig :=
  {| cfg_name := "deck"; cfg_sonosDevice := "192.168.1.21:1400";
     cfg_fusionDevice := "192.168.1.31:80"; cfg_fusionInput := "usb";
     cfg_volumeSync := Some (jbool false); cfg_enabled := None |}.

Definition deckPlugin : Plugin.State :=
  {| Plugin.deviceManager := registry (addDevicePair deckConfig Map_empty);
     Plugin.nmea2000Handler := true |}.

Definition salonAmp : FusionController.Device :=
  {| FusionController.host := "192.168.1.30"; FusionController.port := 80 |}.

Definition trackedAmps : gmap string FusionController.Device :=
  {[ "192.168.1.30:80" := salonAmp ]}.

Definition trackedSources : gset string := {[ "192.168.1.20:1400" ]}.

(** A configuration with its four required fields non-empty and an input
    selector that is a string and, letter case apart, one of the seven
    identifiers. *)
Definition accepts (raw : RawConfig) : bool :=
  match raw_name raw, raw_sonosDevice raw,
        raw_fusionDevice raw, raw_fusionInput raw with
  | Some n, Some s, Some f, Some (jstring i) =>
      negb (String.eqb n "") && negb (String.eqb s "")
      && negb (String.eqb f "") && negb (String.eqb i "")
      && includes validInputs (toLowerCase i)
  | _, _, _, _ => false
  end.

(** A truthy value that is not a string. *)
Definition truthyNonString (v : Json) : bool :=
  match v with
  | jstring _ => false
  | other => truthy other
  end.

(** What validation cannot read: [null] or [undefined] in the place of the
    configuration, or, with name and device refs non-empty, an input
    selector that is truthy and not a string. *)
Definition malformed (config : Config) : bool :=
  match config with
  | nullConfig | undefinedConfig => true
  | objectConfig raw =>
      match raw_name raw, raw_sonosDevice raw,
            raw_fusionDevice raw, raw_fusionInput raw with
      | Some n, Some s, Some f, Some i =>
          negb (String.eqb n "") && negb (String.eqb s "")
          && negb (String.eqb f "") && truthyNonString i
      | _, _, _, _ => false
      end
  end.

(** A configuration that validation accepts. *)
Definition accepted (config : Config) : bool :=
  match config with
  | objectConfig raw => accepts raw
  | _ => false
  end.

(** The records of a list up to the first one that validation cannot
    read. *)
Fixpoint readable (records : list Config) : list Config :=
  match records with
  | [] => []
  | config :: rest => if malformed config then [] else config :: readable rest
  end.

(** The configuration an accepted record stands for. *)
Definition validConfig (config : Config) : option PairConfig :=
  match config with
  | objectConfig raw => if accepts raw then asPairConfig raw else None
  | _ => None
  end.

(** What a list of configurations leaves in a registry when each one is
    stored under its name in turn. *)
Definition storeAll (configs : list PairConfig) (pairs : Registry) : Registry :=
  fold_left (fun m c => Map_set (cfg_name c) (newPair c) m) configs pairs.

(** The [devicePairReady] event of a configuration, if its pair is enabled. *)
Definition readyEvent (config : PairConfig) : option Event :=
  if truthy (enabled (newPair config))
  then Some (devicePairReady (newPair config)) else None.

(** No source and no amplifier is referenced by two enabled pairs. *)
Definition exclusive (pairs : Registry) : Prop :=
  NoDup (map sonosDevice (getEnabledPairs pairs)) /\
  NoDup (map fusionDevice (getEnabledPairs pairs)).


(** The names every object literal inherits that are written without a
    capital letter, and so can be met by a lower-cased key. *)
Definition inheritedName (key : string) : bool :=
  String.eqb key "constructor" || String.eqb key "__proto__".

(** A sample amplifier as discovery reports it, and the table it gives. *)
Definition salonService : FusionDevices.Service :=
  {| FusionDevices.svc_name := Some "Fusion MS-RA770";
     FusionDevices.svc_host := "192.168.1.30"; FusionDevices.svc_port := 80 |}.

Definition discoveredAmps : Map FusionDevices.Tracked :=
  FusionDevices.handleDeviceDiscovered 0 salonService Map_empty.


(** A decimal numeral: one or more of the characters 0 to 9; and its
    value. *)
Definition isDigit (c : ascii) : bool :=
  (Nat.leb 48 (nat_of_ascii c) && Nat.leb (nat_of_ascii c) 57)%bool.

Fixpoint allDigits (s : string) : bool :=
  match s with
  | EmptyString => true
  | String c rest => isDigit c && allDigits rest
  end.

Definition isNumeral (s : string) : bool :=
  negb (String.eqb s "") && allDigits s.

Fixpoint decimalFrom (acc : Z) (s : string) : Z :=
  match s with
  | EmptyString => acc
  | String c rest => decimalFrom (acc * 10 + (Z.of_nat (nat_of_ascii c) - 48)) rest
  end.

Definition decimal (s : string) : Z := decimalFrom 0 s.


(** A string in which the character [sep] does not occur. *)
Fixpoint freeOf (sep : ascii) (s : string) : bool :=
  match s with
  | EmptyString => true
  | String c rest => negb (Ascii.eqb c sep) && freeOf sep rest
  end.

(** A started, enabled bus handler that has seen no pair yet. *)
Definition runningBus : NMEA2000Handler.Handler :=
  NMEA2000Handler.start (NMEA2000Handler.create None None).


(** ** Facts about the ordered map *)

Section MapFacts.
Context {V : Type}.
Implicit Types (m : Map V) (k : string) (v : V).

Lemma Map_get_set_eq k v m : Map_get k (Map_set k v m) = Some v.
Proof.
  induction m as [|[k' v'] r IH]; simpl.
  - now rewrite String.eqb_refl.
  - destruct (String.eqb k k') eqn:E; simpl; rewrite ?E, ?String.eqb_refl; auto.
Qed.

Lemma Map_get_set_ne k k' v m :
  k <> k' -> Map_get k' (Map_set k v m) = Map_get k' m.
Proof.
  intros Hne. induction m as [|[k0 v0] r IH]; simpl.
  - destruct (String.eqb_spec k' k); congruence.
  - destruct (String.eqb_spec k k0) as [->|Hk]; simpl.
    + destruct (String.eqb_spec k' k0); congruence.
    + destruct (String.eqb_spec k' k0); auto.
Qed.

Lemma Map_set_keys_present k v m :
  is_Some (Map_get k m) -> Map_keys (Map_set k v m) = Map_keys m.
Proof.
  induction m as [|[k' v'] r IH]; simpl; intros [x Hx]; [discriminate|].
  destruct (String.eqb_spec k k') as [->|Hk]; simpl; [reflexivity|].
  f_equal. apply IH. eauto.
Qed.

Lemma Map_set_size_present k v m :
  is_Some (Map_get k m) -> Map_size (Map_set k v m) = Map_size m.
Proof.
  intros H. unfold Map_size.
  rewrite <- (length_map fst (Map_set k v m)), <- (length_map fst m).
  f_equal. now apply Map_set_keys_present.
Qed.

Lemma Map_set_absent k v m :
  Map_get k m = None -> Map_set k v m = app m [(k, v)].
Proof.
  induction m as [|[k' v'] r IH]; simpl; intros H; [reflexivity|].
  destruct (String.eqb k k'); [discriminate|]. now rewrite IH.
Qed.

Lemma Map_get_None_keys k m : Map_get k m = None <-> ~ In k (Map_keys m).
Proof.
  induction m as [|[k' v'] r IH]; simpl; [tauto|].
  destruct (String.eqb_spec k k') as [->|Hk].
  - split; [discriminate|]. intros H. exfalso. apply H. now left.
  - rewrite IH. split; [intros H [E|E]; congruence|tauto].
Qed.

Lemma Map_get_In k v m : Map_get k m = Some v -> In (k, v) m.
Proof.
  induction m as [|[k' v'] r IH]; simpl; [discriminate|].
  destruct (String.eqb_spec k k') as [->|Hk]; intros H.
  - left. congruence.
  - right. auto.
Qed.

Lemma Map_delete_absent k m : Map_get k m = None -> Map_delete k m = m.
Proof.
  induction m as [|[k' v'] r IH]; simpl; intros H; [reflexivity|].
  destruct (String.eqb k k'); [discriminate|]. now rewrite IH.
Qed.

Lemma Map_set_wf k v m : Map_wf m -> Map_wf (Map_set k v m).
Proof.
  unfold Map_wf. destruct (Map_get k m) eqn:E.
  - rewrite Map_set_keys_present; eauto.
  - rewrite Map_set_absent by assumption. unfold Map_keys.
    rewrite map_app. simpl. intros H.
    apply NoDup_app. split; [assumption|]. split.
    + intros x Hx [->|[]]%list_elem_of_In. apply Map_get_None_keys in E.
      apply E. now apply list_elem_of_In.
    + apply NoDup_singleton.
Qed.
End MapFacts.

(** ** Playback-state normalization *)

Ltac eqb_cases :=
  repeat match goal with
         | |- context [String.eqb ?a ?b] => destruct (String.eqb_spec a b)
         end.

Ltac branches :=
  repeat match goal with
         | |- context [if ?b then _ else _] => destruct b
         end.

(** C2, as amended: [normalizePlaybackState] looks up the lower-cased state
    in the fixed table ([playing], [paused], [paused_playback], [stopped],
    [transitioning]) and answers [unknown] for a state whose lower-case form
    is not in the table, and for a missing state. *)
Theorem normalizePlaybackState_table (state : option string) :
  SonosController.normalizePlaybackState state =
  match state with
  | Some s => default "unknown" (Map_get (toLowerCase s) normalizationTable)
  | None => "unknown"
  end.
Proof.
  destruct state as [s|]; [|reflexivity].
  unfold SonosController.normalizePlaybackState, normalizationTable. simpl.
  generalize (toLowerCase s). intros l.
  eqb_cases; subst; try reflexivity; discriminate.
Qed.

(** C2 as stated fails: an upper-case transport state is none of the five
    table keys, yet it is not sent to [unknown]. *)
Lemma normalizePlaybackState_upper_case :
  Map_get "PLAYING" normalizationTable = None /\
  SonosController.normalizePlaybackState (Some "PLAYING") = "playing" /\
  SonosController.normalizePlaybackState (Some "PLAYING") <> "unknown".
Proof. repeat split. discriminate. Qed.

(** On a state that is already in lower case the table applies as it is. *)
Lemma normalizePlaybackState_lower_case (s : string) :
  toLowerCase s = s ->
  SonosController.normalizePlaybackState (Some s) =
  default "unknown" (Map_get s normalizationTable).
Proof.
  intros H. unfold SonosController.normalizePlaybackState, normalizationTable.
  rewrite H. simpl. eqb_cases; subst; try reflexivity; discriminate.
Qed.

(** The node-sonos variant knows neither [paused_playback] nor upper case. *)
Lemma NodeSonos_normalizePlaybackState_examples :
  SonosController.NodeSonos.normalizePlaybackState (Some "paused_playback") = "unknown" /\
  SonosController.NodeSonos.normalizePlaybackState (Some "PLAYING") = "unknown" /\
  SonosController.NodeSonos.normalizePlaybackState (Some "paused") = "paused".
Proof. repeat split. Qed.

(** ** remove and update on a name that is not stored *)

(** C4, as amended: on a name that is not in the registry,
    [removeDevicePair] does nothing (registry unchanged, nothing emitted,
    nothing logged, normal return) and [updateDevicePair] returns normally
    too, leaving the registry unchanged and emitting nothing; it reports
    [Device pair not found: name] on the error log. *)
Theorem absent_name_remove_update (pairs : Registry) (n : string) (u : PairUpdates) :
  Map_get n pairs = None ->
  removeDevicePair n pairs = mkRun (Normal tt) pairs [] /\
  updateDevicePair n u pairs =
    mkRun (Normal tt) pairs [Error ("Device pair not found: " ++ n)].
Proof.
  intros H. unfold removeDevicePair, updateDevicePair, bind, getPairs. simpl.
  rewrite H. split; reflexivity.
Qed.

Lemma absent_name_remove_update_witness :
  removeDevicePair "deck" salonRegistry = mkRun (Normal tt) salonRegistry [] /\
  updateDevicePair "deck" noUpdates salonRegistry =
    mkRun (Normal tt) salonRegistry [Error "Device pair not found: deck"].
Proof. apply (absent_name_remove_update salonRegistry "deck" noUpdates). reflexivity. Defined.

(** C4 as stated fails: the update of an unknown name does not end in an
    exception. *)
Lemma update_unknown_name_returns :
  Map_get "deck" salonRegistry = None /\
  result (updateDevicePair "deck" noUpdates salonRegistry) = Normal tt /\
  forall message,
    result (updateDevicePair "deck" noUpdates salonRegistry) <> Throw message.
Proof. repeat split. intros message. discriminate. Qed.

(** [updateDevicePair] never throws, whatever the name. *)
Lemma updateDevicePair_returns (pairs : Registry) (n : string) (u : PairUpdates) :
  result (updateDevicePair n u pairs) = Normal tt.
Proof.
  unfold updateDevicePair, bind, getPairs. simpl.
  destruct (Map_get n pairs) as [p|]; simpl; [|reflexivity].
  branches; reflexivity.
Qed.

(** ** Updating a stored pair *)

Lemma updateDevicePair_registry (pairs : Registry) (n : string) (u : PairUpdates)
    (p : DevicePair) :
  Map_get n pairs = Some p ->
  registry (updateDevicePair n u pairs) = Map_set n (Object_assign p u) pairs.
Proof.
  intros H. unfold updateDevicePair, bind, getPairs. simpl. rewrite H. simpl.
  branches; reflexivity.
Qed.

Lemma updateDevicePair_events (pairs : Registry) (n : string) (u : PairUpdates)
    (p : DevicePair) :
  Map_get n pairs = Some p ->
  events (trace (updateDevicePair n u pairs)) =
    let p' := Object_assign p u in
    if negb (truthy (enabled p)) && truthy (enabled p') then [devicePairReady p']
    else if truthy (enabled p) && negb (truthy (enabled p')) then [devicePairRemoved p']
    else [].
Proof.
  intros H. unfold updateDevicePair, bind, getPairs. simpl. rewrite H. simpl.
  branches; reflexivity.
Qed.

(** C7: for a stored pair [p] that the update turns into [p'], the update
    emits exactly one [devicePairReady] (and nothing else) when [enabled]
    goes from false to true, exactly one [devicePairRemoved] (and nothing
    else) when it goes from true to false, and no event when [enabled] is
    unchanged. ([enabled] is read as the code reads it, as a condition: an
    update may store a value that is not a boolean.) *)
Theorem update_enabled_transitions (pairs : Registry) (n : string)
    (u : PairUpdates) (p : DevicePair) :
  Map_get n pairs = Some p ->
  exists p',
    Map_get n (registry (updateDevicePair n u pairs)) = Some p' /\
    p' = Object_assign p u /\
    (truthy (enabled p) = false -> truthy (enabled p') = true ->
       events (trace (updateDevicePair n u pairs)) = [devicePairReady p']) /\
    (truthy (enabled p) = true -> truthy (enabled p') = false ->
       events (trace (updateDevicePair n u pairs)) = [devicePairRemoved p']) /\
    (truthy (enabled p') = truthy (enabled p) ->
       events (trace (updateDevicePair n u pairs)) = []).
Proof.
  intros H. exists (Object_assign p u).
  rewrite (updateDevicePair_registry _ _ _ _ H), Map_get_set_eq.
  rewrite (updateDevicePair_events _ _ _ _ H). cbv zeta.
  repeat split.
  - intros -> ->. reflexivity.
  - intros -> ->. reflexivity.
  - intros ->. destruct (truthy (enabled p)); reflexivity.
Qed.

Lemma update_enabled_transitions_witness :
  exists p',
    Map_get "salon" (registry (updateDevicePair "salon" noUpdates salonRegistry)) = Some p' /\
    p' = Object_assign (newPair salonConfig) noUpdates /\
    (truthy (enabled (newPair salonConfig)) = false -> truthy (enabled p') = true ->
       events (trace (updateDevicePair "salon" noUpdates salonRegistry)) = [devicePairReady p']) /\
    (truthy (enabled (newPair salonConfig)) = true -> truthy (enabled p') = false ->
       events (trace (updateDevicePair "salon" noUpdates salonRegistry)) = [devicePairRemoved p']) /\
    (truthy (enabled p') = truthy (enabled (newPair salonConfig)) ->
       events (trace (updateDevicePair "salon" noUpdates salonRegistry)) = []).
Proof.
  apply (update_enabled_transitions salonRegistry "salon" noUpdates (newPair salonConfig)).
  reflexivity.
Defined.

(** Disabling and enabling again, on the sample registry. *)
Example disable_then_enable :
  let off := {| upd_name := None; upd_sonosDevice := None; upd_fusionDevice := None;
                upd_fusionInput := None; upd_volumeSync := None;
                upd_enabled := Some (jbool false); upd_lastActivity := None;
                upd_status := None |} in
  let on := {| upd_name := None; upd_sonosDevice := None; upd_fusionDevice := None;
               upd_fusionInput := None; upd_volumeSync := None;
               upd_enabled := Some (jbool true); upd_lastActivity := None;
               upd_status := None |} in
  let r1 := updateDevicePair "salon" off salonRegistry in
  let r2 := updateDevicePair "salon" on (registry r1) in
  events (trace r1) = [devicePairRemoved (Object_assign (newPair salonConfig) off)] /\
  events (trace r2) = [devicePairReady (newPair salonConfig)].
Proof. split; reflexivity. Qed.

(** ** Adding under a name that is taken *)

Lemma addDevicePair_run (pairs : Registry) (config : PairConfig) :
  addDevicePair config pairs =
    mkRun (Normal tt) (Map_set (cfg_name config) (newPair config) pairs)
          (if truthy (enabled (newPair config))
           then [Emit (devicePairReady (newPair config))] else []).
Proof.
  unfold addDevicePair, bind, getPairs, setPairs. simpl.
  destruct (notFalse (cfg_enabled config)); reflexivity.
Qed.

(** C10: adding a configuration whose name is already a key returns
    normally, logs no error and emits no [devicePairRemoved]; the new pair
    takes the place of the old one under the same key, the keys and the
    size of the registry are unchanged, and the events are exactly one
    [devicePairReady] for the new pair when it is enabled, none otherwise. *)
Theorem add_existing_name_replaces (pairs : Registry) (config : PairConfig)
    (old : DevicePair) :
  Map_get (cfg_name config) pairs = Some old ->
  let run := addDevicePair config pairs in
  result run = Normal tt /\
  errors (trace run) = [] /\
  (forall p, ~ In (devicePairRemoved p) (events (trace run))) /\
  Map_get (cfg_name config) (registry run) = Some (newPair config) /\
  Map_keys (registry run) = Map_keys pairs /\
  Map_size (registry run) = Map_size pairs /\
  events (trace run) =
    if truthy (enabled (newPair config)) then [devicePairReady (newPair config)] else [].
Proof.
  intros H run. subst run. rewrite addDevicePair_run. simpl.
  assert (Hs : is_Some (Map_get (cfg_name config) pairs)) by eauto.
  repeat split.
  - destruct (notFalse (cfg_enabled config)); reflexivity.
  - intros p. destruct (notFalse (cfg_enabled config)); simpl; [|tauto].
    intros [E|[]]. discriminate.
  - apply Map_get_set_eq.
  - now apply Map_set_keys_present.
  - now apply Map_set_size_present.
  - destruct (notFalse (cfg_enabled config)); reflexivity.
Qed.

Lemma add_existing_name_replaces_witness :
  let run := addDevicePair salonConfig salonRegistry in
  result run = Normal tt /\
  errors (trace run) = [] /\
  (forall p, ~ In (devicePairRemoved p) (events (trace run))) /\
  Map_get "salon" (registry run) = Some (newPair salonConfig) /\
  Map_keys (registry run) = Map_keys salonRegistry /\
  Map_size (registry run) = Map_size salonRegistry /\
  events (trace run) =
    if truthy (enabled (newPair salonConfig)) then [devicePairReady (newPair salonConfig)] else [].
Proof.
  apply (add_existing_name_replaces salonRegistry salonConfig (newPair salonConfig)).
  reflexivity.
Defined.

(** Other entries are untouched by the replacement. *)
Lemma add_existing_name_other (pairs : Registry) (config : PairConfig) (k : string) :
  k <> cfg_name config ->
  Map_get k (registry (addDevicePair config pairs)) = Map_get k pairs.
Proof.
  intros H. rewrite addDevicePair_run. simpl. apply Map_get_set_ne. congruence.
Qed.

(** ** The name of a pair and its key *)

Lemma keysMatch_set (pairs : Registry) (k : string) (p : DevicePair) :
  k = name p -> keysMatch pairs -> keysMatch (Map_set k p pairs).
Proof.
  intros Hk. unfold keysMatch. induction pairs as [|[k' p'] r IH]; simpl; intros H.
  - constructor; [assumption|constructor].
  - inversion H; subst. destruct (String.eqb k' (name p)) eqn:E.
    + destruct (String.eqb (name p) k'); constructor; auto.
    + destruct (String.eqb (name p) k'); constructor; auto.
Qed.

Lemma keysMatch_delete (pairs : Registry) (k : string) :
  keysMatch pairs -> keysMatch (Map_delete k pairs).
Proof.
  unfold keysMatch. induction pairs as [|[k' p'] r IH]; simpl; intros H.
  - constructor.
  - inversion H; subst. destruct (String.eqb k k'); [assumption|].
    constructor; auto.
Qed.

Lemma keysMatch_get (pairs : Registry) (k : string) (p : DevicePair) :
  keysMatch pairs -> Map_get k pairs = Some p -> name p = k.
Proof.
  intros HK H. apply Map_get_In in H. unfold keysMatch in HK.
  rewrite List.Forall_forall in HK. specialize (HK _ H). simpl in HK. congruence.
Qed.

(** C6, as amended: an update whose fields carry no [name], or carry the
    name the pair already has, leaves the pair's name as it was, keeps the
    keys of the registry and keeps every entry stored under its pair's name;
    [addDevicePair] stores the new pair under the name it gives it, so it
    keeps that invariant too. *)
Theorem name_kept_by_update (pairs : Registry) (n : string) (u : PairUpdates)
    (p : DevicePair) :
  Map_get n pairs = Some p ->
  (forall n', upd_name u = Some n' -> n' = name p) ->
  let pairs' := registry (updateDevicePair n u pairs) in
  (exists p', Map_get n pairs' = Some p' /\ name p' = name p) /\
  Map_keys pairs' = Map_keys pairs /\
  (keysMatch pairs -> keysMatch pairs') /\
  (forall config,
     keysMatch pairs ->
     keysMatch (registry (addDevicePair config pairs)) /\
     (name <$> Map_get (cfg_name config) (registry (addDevicePair config pairs)))
       = Some (cfg_name config)).
Proof.
  intros H Hu pairs'. subst pairs'.
  rewrite (updateDevicePair_registry _ _ _ _ H).
  assert (Hn : name (Object_assign p u) = name p).
  { simpl. destruct (upd_name u) as [n'|] eqn:E; simpl; auto. }
  repeat split.
  - exists (Object_assign p u). split; [apply Map_get_set_eq|exact Hn].
  - apply Map_set_keys_present. eauto.
  - intros HK. apply keysMatch_set; [|assumption].
    rewrite Hn. symmetry. eapply keysMatch_get; eauto.
  - rewrite addDevicePair_run. simpl. now apply keysMatch_set.
  - rewrite addDevicePair_run. simpl. now rewrite Map_get_set_eq.
Qed.

Lemma name_kept_by_update_witness :
  let pairs' := registry (updateDevicePair "salon" noUpdates salonRegistry) in
  (exists p', Map_get "salon" pairs' = Some p' /\ name p' = name (newPair salonConfig)) /\
  Map_keys pairs' = Map_keys salonRegistry /\
  (keysMatch salonRegistry -> keysMatch pairs') /\
  (forall config,
     keysMatch salonRegistry ->
     keysMatch (registry (addDevicePair config salonRegistry)) /\
     (name <$> Map_get (cfg_name config) (registry (addDevicePair config salonRegistry)))
       = Some (cfg_name config)).
Proof.
  apply (name_kept_by_update salonRegistry "salon" noUpdates (newPair salonConfig)).
  - reflexivity.
  - intros n'. discriminate.
Defined.

(** C6 as stated fails: an update that carries a [name] renames the stored
    pair while its key stays, so key and name part. *)
Lemma update_can_rename :
  let rename := {| upd_name := Some "deck"; upd_sonosDevice := None;
                   upd_fusionDevice := None; upd_fusionInput := None;
                   upd_volumeSync := None; upd_enabled := None;
                   upd_lastActivity := None; upd_status := None |} in
  let pairs' := registry (updateDevicePair "salon" rename salonRegistry) in
  (name <$> Map_get "salon" salonRegistry) = Some "salon" /\
  (name <$> Map_get "salon" pairs') = Some "deck" /\
  keysMatch salonRegistry /\
  ~ keysMatch pairs'.
Proof.
  repeat split.
  - repeat constructor.
  - intros H. inversion H as [|x l Hx Hl]; subst. simpl in Hx. discriminate.
Qed.

(** The other mutators keep every entry under its pair's name. *)
Lemma keysMatch_other_mutators (pairs : Registry) :
  keysMatch pairs ->
  (forall n, keysMatch (registry (removeDevicePair n pairs))) /\
  (forall now n t d, keysMatch (registry (updatePairActivity now n t d pairs))) /\
  (forall n s, keysMatch (registry (updatePairStatus n s pairs))).
Proof.
  intros HK. repeat split.
  - intros n. unfold removeDevicePair, bind, getPairs. simpl.
    destruct (Map_get n pairs); simpl; auto using keysMatch_delete.
  - intros now n t d. unfold updatePairActivity, bind, getPairs. simpl.
    destruct (Map_get n pairs) as [p|] eqn:E; simpl; auto.
    apply keysMatch_set; auto. simpl. symmetry. eapply keysMatch_get; eauto.
  - intros n s. unfold updatePairStatus, bind, getPairs. simpl.
    destruct (Map_get n pairs) as [p|] eqn:E; simpl; auto.
    apply keysMatch_set; auto. simpl. symmetry. eapply keysMatch_get; eauto.
Qed.

(** ** Association conflicts *)

Section FindEnabled.
Variable g : DevicePair -> bool.





End FindEnabled.



(** A disabled pair on the same devices produces no conflict. *)
Example disabled_pair_no_conflict :
  let off := {| upd_name := None; upd_sonosDevice := None; upd_fusionDevice := None;
                upd_fusionInput := None; upd_volumeSync := None;
                upd_enabled := Some (jbool false); upd_lastActivity := None;
                upd_status := None |} in
  validateDeviceAssociation "192.168.1.20:1400" "192.168.1.30:80"
    (registry (updateDevicePair "salon" off salonRegistry))
  = {| valid := true; conflicts := [] |}.
Proof. reflexivity. Qed.

(** ** The source playback-state handler and the volume gate *)

Import Plugin.

(** C3, on the code: for a playback-state event whose device ref resolves
    to a pair (which is then enabled), the handler publishes the state under
    the pair's status path, forwards it to the bus handler when there is
    one, and switches the amplifier input when the state is [playing], all
    of it whatever the pair's [volumeSync]; the track handler is not gated
    either, and only the two volume handlers look at [volumeSync]: they do
    nothing when it is off. So far the claim holds. But the handler hands
    back the plugin's state with the registry as it was: the activity that
    the claim asks for is not recorded, [lastActivity] stays what it was. *)
Theorem playback_state_not_gated (st : Plugin.State) (device : string)
    (p : DevicePair) :
  getPairBySonosDevice device (deviceManager st) = Some p ->
  truthy (enabled p) = true /\
  (forall state,
     handlePlaybackStateChanged st device state =
       (st,
        app (if String.eqb state "playing"
             then [fusion_switchInput (fusionDevice p) (fusionInput p)] else [])
            (app_handleMessage (statusPath (name p) "playbackState") (Text state)
             :: (if nmea2000Handler st
                 then [nmea_updatePlaybackState (name p) state] else [])))) /\
  (forall track,
     In (app_handleMessage (statusPath (name p) "currentTrack") (TrackInfo track))
        (snd (handleTrackChanged st device track))) /\
  (forall volume,
     handleVolumeChanged st device volume =
       (st, if truthy (volumeSync p)
            then fusion_setVolume (fusionDevice p) volume
                 :: app_handleMessage (statusPath (name p) "volume") (Fraction volume 100)
                 :: (if nmea2000Handler st
                     then [nmea_updateVolume (name p) volume] else [])
            else [])) /\
  (forall ampRef q volume,
     getPairByFusionDevice ampRef (deviceManager st) = Some q ->
     handleFusionVolumeChanged st ampRef volume =
       (st, if truthy (volumeSync q) then [sonos_setVolume (sonosDevice q) volume] else [])).
Proof.
  intros H. repeat split.
  - unfold getPairBySonosDevice in H. apply List.find_some in H.
    destruct H as [_ H]. apply andb_true_iff in H. tauto.
  - intros state. unfold handlePlaybackStateChanged. now rewrite H.
  - intros track. unfold handleTrackChanged. rewrite H. simpl. now left.
  - intros volume. unfold handleVolumeChanged. rewrite H.
    destruct (truthy (volumeSync p)); reflexivity.
  - intros ampRef q volume Hq. unfold handleFusionVolumeChanged. rewrite Hq.
    destruct (truthy (volumeSync q)); reflexivity.
Qed.

Lemma playback_state_not_gated_witness :
  truthy (enabled (newPair deckConfig)) = true /\
  (forall state,
     handlePlaybackStateChanged deckPlugin "192.168.1.21:1400" state =
       (deckPlugin,
        app (if String.eqb state "playing"
             then [fusion_switchInput "192.168.1.31:80" "usb"] else [])
            (app_handleMessage (statusPath "deck" "playbackState") (Text state)
             :: [nmea_updatePlaybackState "deck" state]))) /\
  (forall track,
     In (app_handleMessage (statusPath "deck" "currentTrack") (TrackInfo track))
        (snd (handleTrackChanged deckPlugin "192.168.1.21:1400" track))) /\
  (forall volume,
     handleVolumeChanged deckPlugin "192.168.1.21:1400" volume = (deckPlugin, [])) /\
  (forall ampRef q volume,
     getPairByFusionDevice ampRef (deviceManager deckPlugin) = Some q ->
     handleFusionVolumeChanged deckPlugin ampRef volume =
       (deckPlugin,
        if truthy (volumeSync q) then [sonos_setVolume (sonosDevice q) volume] else [])).
Proof.
  apply (playback_state_not_gated deckPlugin "192.168.1.21:1400" (newPair deckConfig)).
  reflexivity.
Defined.

(** C3 fails on the code: after a playback-state event on the source of an
    enabled pair, be its [volumeSync] on or off, the status has been
    published and the pair still has no [lastActivity]. *)
Lemma playback_state_records_no_activity :
  let st' := fst (handlePlaybackStateChanged salonPlugin "192.168.1.20:1400" "playing") in
  let quiet := fst (handlePlaybackStateChanged deckPlugin "192.168.1.21:1400" "playing") in
  (enabled <$> getPairBySonosDevice "192.168.1.20:1400" salonRegistry) = Some (jbool true) /\
  In (app_handleMessage (statusPath "salon" "playbackState") (Text "playing"))
     (snd (handlePlaybackStateChanged salonPlugin "192.168.1.20:1400" "playing")) /\
  (lastActivity <$> getPairByName "salon" (deviceManager st')) = Some None /\
  (volumeSync <$> getPairBySonosDevice "192.168.1.21:1400" (deviceManager deckPlugin))
    = Some (jbool false) /\
  (lastActivity <$> getPairByName "deck" (deviceManager quiet)) = Some None.
Proof. repeat split. simpl. right. now left. Qed.

(** No handler changes the registry. *)
Lemma handlers_keep_registry (st : Plugin.State) :
  (forall d s, fst (handlePlaybackStateChanged st d s) = st) /\
  (forall d v, fst (handleVolumeChanged st d v) = st) /\
  (forall d t, fst (handleTrackChanged st d t) = st) /\
  (forall d v, fst (handleFusionVolumeChanged st d v) = st) /\
  (forall n c, fst (handleNMEAVolumeControl st n c) = st).
Proof.
  repeat split; intros.
  - unfold handlePlaybackStateChanged.
    destruct (getPairBySonosDevice _ _); reflexivity.
  - unfold handleVolumeChanged.
    destruct (getPairBySonosDevice _ _) as [p|]; [destruct (truthy (volumeSync p))|]; reflexivity.
  - unfold handleTrackChanged.
    destruct (getPairBySonosDevice _ _); reflexivity.
  - unfold handleFusionVolumeChanged.
    destruct (getPairByFusionDevice _ _) as [p|]; [destruct (truthy (volumeSync p))|]; reflexivity.
  - unfold handleNMEAVolumeControl.
    destruct (getPairByName _ _); reflexivity.
Qed.

(** ** Volume conversion *)

Lemma fusionVolume_closed_form (v : Z) :
  FusionController.fusionVolume v = (4 * v + 5) / 10.
Proof.
  unfold FusionController.fusionVolume, Math_round, Qfloor. simpl.
  change (Z.pos (1 * 100 * 1 * 2)) with (10 * 20).
  change (Z.pos (1 * 100 * 1)) with 100.
  replace (v * 1 * 40 * 2 + 1 * 100) with ((4 * v + 5) * 20) by lia.
  apply Z.div_mul_cancel_r; lia.
Qed.

Lemma percentOfNative_closed_form (u : Z) :
  percentOfNative u = (5 * u + 1) / 2.
Proof.
  unfold percentOfNative, Math_round, Qfloor. simpl.
  change (Z.pos (1 * 40 * 1 * 2)) with (2 * 40).
  change (Z.pos (1 * 40 * 1)) with 40.
  replace (u * 1 * 100 * 2 + 1 * 40) with ((5 * u + 1) * 40) by lia.
  apply Z.div_mul_cancel_r; lia.
Qed.

Lemma seqZ_forallb (f : Z -> bool) (lo len v : Z) :
  forallb f (seqZ lo len) = true -> lo <= v < lo + len -> f v = true.
Proof.
  intros H Hv. rewrite forallb_forall in H. apply H.
  apply list_elem_of_In, elem_of_seqZ. lia.
Qed.

(** On the integers 0 to 100 the binary64 evaluation of
    [Math.round((volume / 100) * 40)] gives the exactly rounded value. *)
Lemma fusionVolume_binary64_exact (v : Z) :
  0 <= v <= 100 ->
  FusionController.fusionVolume_binary64 v = Some (FusionController.fusionVolume v).
Proof.
  intros Hv.
  pose (ok := fun v => match FusionController.fusionVolume_binary64 v with
                       | Some z => z =? FusionController.fusionVolume v
                       | None => false
                       end).
  assert (Hall : forallb ok (seqZ 0 101) = true) by (vm_compute; reflexivity).
  pose proof (seqZ_forallb ok 0 101 v Hall ltac:(lia)) as H. unfold ok in H.
  destruct (FusionController.fusionVolume_binary64 v) as [z|]; [|discriminate].
  apply Z.eqb_eq in H. now subst.
Qed.

(** The forward direction: a source volume change on a pair with volume
    sync on, whose amplifier is tracked, sends the amplifier one
    [setVolume] command carrying [round(v / 100 * 40)]. *)
Lemma source_volume_reaches_amp (st : Plugin.State) (device : string)
    (p : DevicePair) (amps : gmap string FusionController.Device)
    (amp : FusionController.Device) (v : Z) :
  getPairBySonosDevice device (deviceManager st) = Some p ->
  truthy (volumeSync p) = true ->
  amps !! fusionDevice p = Some amp ->
  ampCommands amps (snd (handleVolumeChanged st device v)) =
    [FusionController.sendCommand amp "setVolume"
       [("volume", FusionController.fusionVolume v)]].
Proof.
  intros Hp Hs Ha. unfold handleVolumeChanged. rewrite Hp, Hs. simpl.
  unfold FusionController.setVolume. rewrite Ha. simpl.
  unfold whenNmea. destruct (nmea2000Handler st); reflexivity.
Qed.

Lemma fusionVolume_range (v : Z) :
  0 <= v <= 100 -> 0 <= FusionController.fusionVolume v <= 40.
Proof.
  intros H. rewrite fusionVolume_closed_form.
  pose proof (Z.div_mod (4 * v + 5) 10 ltac:(lia)).
  pose proof (Z.mod_pos_bound (4 * v + 5) 10 ltac:(lia)).
  lia.
Qed.

(** The reverse direction: the amplifier's value is handed to the source
    as it is. *)
Lemma amp_volume_reaches_source (st : Plugin.State) (device : string)
    (p : DevicePair) (sources : gset string) (u : Z) :
  getPairByFusionDevice device (deviceManager st) = Some p ->
  truthy (volumeSync p) = true ->
  sonosDevice p ∈ sources ->
  sourceCommands sources (snd (handleFusionVolumeChanged st device u)) =
    [SonosController.SetVolume (sonosDevice p) u].
Proof.
  intros Hp Hs Hin. unfold handleFusionVolumeChanged. rewrite Hp, Hs. simpl.
  unfold SonosController.setVolume. rewrite decide_True by assumption. reflexivity.
Qed.

(** Had the reverse direction converted as the design document says, the
    two conversions would undo each other within one unit. *)
Lemma intended_round_trip (v : Z) :
  0 <= v <= 100 -> Z.abs (percentOfNative (FusionController.fusionVolume v) - v) <= 1.
Proof.
  intros H. rewrite percentOfNative_closed_form, fusionVolume_closed_form.
  pose proof (Z.div_mod (4 * v + 5) 10 ltac:(lia)).
  pose proof (Z.mod_pos_bound (4 * v + 5) 10 ltac:(lia)).
  set (n := (4 * v + 5) / 10) in *.
  pose proof (Z.div_mod (5 * n + 1) 2 ltac:(lia)).
  pose proof (Z.mod_pos_bound (5 * n + 1) 2 ltac:(lia)).
  lia.
Qed.

(** As the code stands, the value that comes back is the amplifier's own
    number: every source volume from 3 up returns more than one unit low,
    and no amplifier level above zero is its own percentage. *)
Lemma code_round_trip_off (st : Plugin.State) (amp : string)
    (p : DevicePair) (sources : gset string) (v : Z) :
  getPairByFusionDevice amp (deviceManager st) = Some p ->
  truthy (volumeSync p) = true ->
  sonosDevice p ∈ sources ->
  3 <= v <= 100 ->
  exists back,
    sourceCommands sources
      (snd (handleFusionVolumeChanged st amp (FusionController.fusionVolume v)))
      = [SonosController.SetVolume (sonosDevice p) back] /\
    v - back > 1.
Proof.
  intros Hp Hs Hin Hv. exists (FusionController.fusionVolume v).
  split; [now apply amp_volume_reaches_source|].
  rewrite fusionVolume_closed_form.
  pose proof (Z.div_mod (4 * v + 5) 10 ltac:(lia)).
  pose proof (Z.mod_pos_bound (4 * v + 5) 10 ltac:(lia)).
  lia.
Qed.

Lemma percentOfNative_not_identity (u : Z) :
  0 < u <= 40 -> percentOfNative u > u.
Proof.
  intros H. rewrite percentOfNative_closed_form.
  pose proof (Z.div_mod (5 * u + 1) 2 ltac:(lia)).
  pose proof (Z.mod_pos_bound (5 * u + 1) 2 ltac:(lia)).
  lia.
Qed.

(** C1, on the code: the forward direction sends the amplifier
    [round(50 / 100 * 40) = 20], but an amplifier volume change of 20
    sends the source the value 20, not [round(20 / 40 * 100) = 50]; a
    source volume of 50 taken through both directions comes back as 20,
    thirty units away. *)
Theorem volume_round_trip_on_sample :
  let forward := ampCommands trackedAmps
                   (snd (handleVolumeChanged salonPlugin "192.168.1.20:1400" 50)) in
  let back := sourceCommands trackedSources
                (snd (handleFusionVolumeChanged salonPlugin "192.168.1.30:80" 20)) in
  forward = [FusionController.sendCommand salonAmp "setVolume" [("volume", 20)]] /\
  FusionController.fusionVolume_binary64 50 = Some 20 /\
  back = [SonosController.SetVolume "192.168.1.20:1400" 20] /\
  percentOfNative 20 = 50 /\
  Z.abs (20 - 50) > 1.
Proof. repeat split. Qed.

(** ** Statistics *)

Section OrderByFacts.
Context {A : Type} (key : A -> Z).

Lemma insertDesc_Permutation (x : A) (l : list A) :
  Permutation (insertDesc key x l) (x :: l).
Proof.
  induction l as [|y r IH]; simpl; [reflexivity|].
  destruct (key y <=? key x); [reflexivity|].
  rewrite IH. apply perm_swap.
Qed.

Lemma orderByDesc_Permutation (l : list A) : Permutation (orderByDesc key l) l.
Proof.
  induction l as [|x r IH]; simpl; [reflexivity|].
  rewrite insertDesc_Permutation. now constructor.
Qed.

Lemma insertDesc_sorted (x : A) (l : list A) :
  StronglySorted (descending key) l -> StronglySorted (descending key) (insertDesc key x l).
Proof.
  induction l as [|y r IH]; simpl; intros H.
  - repeat constructor.
  - apply StronglySorted_cons in H. destruct H as [Hy Hr].
    destruct (Z.leb_spec (key y) (key x)) as [Hle|Hgt].
    + constructor; [constructor; assumption|].
      constructor; [exact Hle|].
      eapply List.Forall_impl; [|exact Hy]. unfold descending in *. intros z Hz. lia.
    + constructor; [auto|].
      rewrite (insertDesc_Permutation x r). constructor; [|assumption].
      unfold descending. lia.
Qed.

Lemma orderByDesc_sorted (l : list A) : StronglySorted (descending key) (orderByDesc key l).
Proof.
  induction l as [|x r IH]; simpl; [constructor|]. now apply insertDesc_sorted.
Qed.

(** Stability: the entries with a given key come out in the order they
    went in. *)
Lemma insertDesc_stable (t : Z) (x : A) (l : list A) :
  List.filter (fun e => key e =? t) (insertDesc key x l) =
  List.filter (fun e => key e =? t) (x :: l).
Proof.
  induction l as [|y r IH]; simpl; [reflexivity|].
  destruct (Z.leb_spec (key y) (key x)) as [Hle|Hgt]; [reflexivity|].
  simpl in *. rewrite IH.
  destruct (Z.eqb_spec (key x) t), (Z.eqb_spec (key y) t); try reflexivity. lia.
Qed.

Lemma orderByDesc_stable (t : Z) (l : list A) :
  List.filter (fun e => key e =? t) (orderByDesc key l) =
  List.filter (fun e => key e =? t) l.
Proof.
  induction l as [|x r IH]; [reflexivity|].
  cbn [orderByDesc]. rewrite insertDesc_stable. simpl. now rewrite IH.
Qed.

Lemma filter_take_prefix (f : A -> bool) (n : nat) (l : list A) :
  List.filter f (take n l) `prefix_of` List.filter f l.
Proof.
  exists (List.filter f (drop n l)).
  rewrite <- List.filter_app. now rewrite take_drop.
Qed.
End OrderByFacts.

Lemma statsStep_fold (now : Z) (l : list DevicePair) (stats : Statistics) :
  let stats' := fold_left (statsStep now) l stats in
  activePairs stats' =
    (activePairs stats + length (List.filter (recentlyActive now) l))%nat /\
  recentActivity stats' = app (recentActivity stats) (omap activityEntry l).
Proof.
  revert stats. induction l as [|p r IH]; intros stats; simpl.
  - split; [lia|]. now rewrite app_nil_r.
  - destruct (IH (statsStep now stats p)) as [Ha Hr]. rewrite Ha, Hr.
    unfold statsStep, recentlyActive, activityEntry. simpl.
    destruct (lastActivity p) as [a|]; simpl.
    + rewrite <- app_assoc. simpl.
      destruct (now - timestamp a <? 300000); simpl; split; auto; lia.
    + split; reflexivity.
Qed.

(** C9: whatever the registry and the clock reading, [recentActivity] has at
    most 10 entries; they are in descending order of time stamp, entries
    with the same time stamp in registry order; they are the first ten of
    the descending arrangement of the entries of the pairs that have a
    [lastActivity] (so every entry left out is no more recent than any entry
    kept, and each entry kept comes from a pair with a [lastActivity]); and
    [activePairs] is the number of pairs whose [lastActivity] time stamp is
    less than 300000 ms before the clock reading. *)
Theorem statistics_recent_activity (now : Z) (pairs : Registry) :
  let stats := getDeviceStatistics now pairs in
  let entries := omap activityEntry (Map_values pairs) in
  (length (recentActivity stats) <= 10)%nat /\
  length (recentActivity stats) = Nat.min 10 (length entries) /\
  StronglySorted (descending entryTimestamp) (recentActivity stats) /\
  (forall t,
     List.filter (fun e => entryTimestamp e =? t) (recentActivity stats)
       `prefix_of` List.filter (fun e => entryTimestamp e =? t) entries) /\
  (exists rest,
     Permutation (app (recentActivity stats) rest) entries /\
     forall kept left, In kept (recentActivity stats) -> In left rest ->
                       entryTimestamp left <= entryTimestamp kept) /\
  (forall e, In e (recentActivity stats) ->
     exists p a, In p (Map_values pairs) /\ lastActivity p = Some a /\
                 e = {| pairName := name p; entryTimestamp := timestamp a;
                        entryType := type a |}) /\
  activePairs stats =
    length (List.filter (recentlyActive now) (Map_values pairs)) /\
  (forall p, recentlyActive now p = true <->
             exists a, lastActivity p = Some a /\ now - timestamp a < 300000).
Proof.
  intros stats entries. subst stats. unfold getDeviceStatistics. cbn [recentActivity activePairs].
  match goal with
  | |- context [fold_left (statsStep now) ?l ?s] =>
      destruct (statsStep_fold now l s) as [Ha Hr]
  end.
  rewrite Ha, Hr. cbn [recentActivity activePairs app]. fold entries.
  set (sorted := orderByDesc entryTimestamp entries).
  assert (Hperm : Permutation sorted entries) by apply orderByDesc_Permutation.
  assert (Hsorted : StronglySorted (descending entryTimestamp) sorted)
    by apply orderByDesc_sorted.
  assert (Hsplit : sorted = app (take 10 sorted) (drop 10 sorted))
    by (symmetry; apply take_drop).
  rewrite Hsplit in Hsorted. apply StronglySorted_app in Hsorted.
  destruct Hsorted as (Hcross & Htake & _).
  repeat split.
  - rewrite length_take. lia.
  - rewrite length_take. now rewrite (Permutation_length Hperm).
  - exact Htake.
  - intros t. unfold sorted at 1.
    rewrite <- (orderByDesc_stable entryTimestamp t entries).
    apply filter_take_prefix.
  - exists (drop 10 sorted). split.
    + rewrite <- Hsplit. exact Hperm.
    + intros kept left Hk Hl. apply (Hcross kept left); now apply list_elem_of_In.
  - intros e He.
    assert (Hin : e ∈ entries).
    { rewrite <- Hperm. apply list_elem_of_In.
      rewrite Hsplit. apply in_or_app. now left. }
    apply list_elem_of_omap in Hin. destruct Hin as (p & Hp & Hpe).
    unfold activityEntry in Hpe. destruct (lastActivity p) as [a|] eqn:E; [|discriminate].
    exists p, a. split; [now apply list_elem_of_In|]. split; [exact E|congruence].
  - unfold recentlyActive. destruct (lastActivity p) as [a|]; [|discriminate].
    intros H. exists a. split; [reflexivity|]. now apply Z.ltb_lt.
  - intros (a & Ha' & Hlt). unfold recentlyActive. rewrite Ha'. now apply Z.ltb_lt.
Qed.

(** Three pairs with activity, two of them at the same instant, exactly
    300000 ms back: the tie keeps registry order, and an activity that is
    exactly 300000 ms old no longer counts as active. *)
Example statistics_sample :
  let mk n t := (n, {| name := n; sonosDevice := "s"; fusionDevice := "f";
                       fusionInput := "aux1"; volumeSync := jbool true; enabled := jbool true;
                       lastActivity := Some {| timestamp := t; type := "volume"; data := "" |};
                       status := "ready" |}) in
  let stats := getDeviceStatistics 1000000 [mk "a" 700000; mk "b" 900000; mk "c" 700000] in
  map pairName (recentActivity stats) = ["b"; "a"; "c"] /\
  activePairs stats = 1%nat.
Proof. split; reflexivity. Qed.

(** ** Export and import *)

Lemma bind_normal {A B} (m : M A) (f : A -> M B) (s s' : Registry) (a : A)
    (t : list Output) :
  m s = mkRun (Normal a) s' t ->
  bind m f s = mkRun (result (f a s')) (registry (f a s')) (app t (trace (f a s'))).
Proof. intros H. unfold bind. now rewrite H. Qed.

Lemma validInputs_lower_case (s : string) :
  includes validInputs s = true -> toLowerCase s = s.
Proof.
  unfold includes, validInputs. simpl. rewrite !orb_true_iff.
  intros H. repeat destruct H as [H|H]; try discriminate;
    apply String.eqb_eq in H; subst; reflexivity.
Qed.

Lemma storable_inv (p : DevicePair) :
  storable p = true ->
  String.eqb (name p) "" = false /\
  String.eqb (sonosDevice p) "" = false /\
  String.eqb (fusionDevice p) "" = false /\
  includes validInputs (fusionInput p) = true.
Proof.
  unfold storable. rewrite !andb_true_iff, !negb_true_iff. tauto.
Qed.

Lemma booleanFlags_inv (p : DevicePair) :
  booleanFlags p = true ->
  exists sync on, volumeSync p = jbool sync /\ enabled p = jbool on.
Proof.
  unfold booleanFlags, isBoolean.
  destruct (volumeSync p) as [|sync| | |], (enabled p) as [|on| | |];
    try discriminate. intros _. exists sync, on. split; reflexivity.
Qed.

Ltac isolate := cbn -[includes toLowerCase validInputs String.eqb].

Lemma validatePairConfig_exported (p : DevicePair) (s : Registry) :
  storable p = true ->
  validatePairConfig (asRawConfig (exportPair p)) s = mkRun (Normal true) s [].
Proof.
  intros H. apply storable_inv in H. destruct H as (Hn & Hs & Hf & Hi).
  unfold validatePairConfig, asRawConfig. isolate.
  rewrite Hn, Hs, Hf. isolate.
  pose proof (validInputs_lower_case _ Hi) as Hl.
  assert (Hne : String.eqb (fusionInput p) "" = false).
  { destruct (String.eqb_spec (fusionInput p) ""); [|reflexivity].
    rewrite e in Hi. discriminate. }
  rewrite Hne, Hl, Hi. reflexivity.
Qed.

Lemma newPair_exported (p : DevicePair) :
  storable p = true ->
  booleanFlags p = true ->
  (newPair <$> (fieldsOf (asRawConfig (exportPair p)) ≫= asPairConfig))
    = Some (reimported p).
Proof.
  intros H Hb. apply storable_inv in H. destruct H as (_ & _ & _ & Hi).
  apply booleanFlags_inv in Hb. destruct Hb as (sync & on & Hsync & Hon).
  cbn -[toLowerCase]. unfold newPair, reimported, withStatus, withLastActivity.
  cbn -[toLowerCase].
  rewrite (validInputs_lower_case _ Hi), Hsync, Hon.
  destruct sync, on; reflexivity.
Qed.

Lemma addIfValid_exported (complaint : string) (p : DevicePair) (s : Registry) :
  storable p = true ->
  booleanFlags p = true ->
  addIfValid complaint (asRawConfig (exportPair p)) s =
    mkRun (Normal tt) (Map_set (name p) (reimported p) s)
          (if truthy (enabled p) then [Emit (devicePairReady (reimported p))] else []).
Proof.
  intros H Hb. unfold addIfValid.
  rewrite (bind_normal _ _ _ _ _ _ (validatePairConfig_exported p s H)).
  pose proof (newPair_exported p H Hb) as Hn.
  destruct (fieldsOf (asRawConfig (exportPair p)) ≫= asPairConfig) as [c|] eqn:E;
    [|discriminate].
  assert (Hc : newPair c = reimported p) by (simpl in Hn; congruence).
  assert (Hk : cfg_name c = name p).
  { simpl in E. injection E as <-. reflexivity. }
  cbn match. rewrite addDevicePair_run, Hc, Hk. reflexivity.
Qed.

Lemma import_loop (complaint : string) (pairs acc : Registry) :
  NoDup (app (Map_keys acc) (Map_keys pairs)) ->
  keysMatch pairs ->
  Forall (fun p => storable p = true) (Map_values pairs) ->
  Forall (fun p => booleanFlags p = true) (Map_values pairs) ->
  let run := forEach (map asRawConfig (exportConfiguration pairs))
                     (addIfValid complaint) acc in
  result run = Normal tt /\
  errors (trace run) = [] /\
  registry run = app acc (map (fun kp => (fst kp, reimported (snd kp))) pairs).
Proof.
  revert acc. induction pairs as [|[k p] r IH]; intros acc Hnd HK Hst Hbf; simpl.
  - repeat split. now rewrite app_nil_r.
  - inversion HK as [|? ? Hk HK']; subst. simpl in Hk. subst k.
    apply Forall_cons in Hst. destruct Hst as [Hp Hst].
    apply Forall_cons in Hbf. destruct Hbf as [Hb Hbf].
    rewrite (bind_normal _ _ _ _ _ _ (addIfValid_exported complaint p acc Hp Hb)).
    assert (Habs : Map_get (name p) acc = None).
    { apply Map_get_None_keys. intros Hin.
      apply NoDup_app in Hnd. destruct Hnd as (_ & Hdis & _).
      apply (Hdis (name p)); [now apply list_elem_of_In|]. simpl. left. }
    rewrite (Map_set_absent _ _ _ Habs).
    specialize (IH (app acc [(name p, reimported p)])).
    destruct IH as (Hres & Herr & Hreg).
    + unfold Map_keys in *. rewrite map_app. simpl. rewrite <- app_assoc. exact Hnd.
    + exact HK'.
    + exact Hst.
    + exact Hbf.
    + cbn [result registry trace]. unfold exportConfiguration in *.
      split; [exact Hres|]. split.
      * unfold errors in *. rewrite omap_app, Herr.
        destruct (truthy (enabled p)); reflexivity.
      * rewrite Hreg. now rewrite <- app_assoc.
Qed.

(** C8, as amended: [exportConfiguration] gives one plain record per pair,
    in registry order, holding the six configuration fields and nothing of
    [lastActivity] or [status]. For a registry in which every pair is stored
    under its own name, would pass [validatePairConfig] as it stands
    (non-empty name and device refs, input selector one of the seven
    lower-case identifiers) and has [true] or [false] in each of its two
    flags, importing that output, into a fresh registry or over any other,
    returns normally, logs no error and yields the same entries in the same
    order with the same configuration fields, the run-time fields being
    reset; exporting again gives the same output. *)
Theorem export_import_round_trip (pairs start : Registry) :
  Map_wf pairs ->
  keysMatch pairs ->
  Forall (fun p => storable p = true) (Map_values pairs) ->
  Forall (fun p => booleanFlags p = true) (Map_values pairs) ->
  let exported := exportConfiguration pairs in
  let run := importConfiguration (Some (map asRawConfig exported)) start in
  length exported = Map_size pairs /\
  map exp_name exported = map name (Map_values pairs) /\
  (forall p a s, exportPair (withStatus (withLastActivity p a) s) = exportPair p) /\
  result run = Normal tt /\
  errors (trace run) = [] /\
  registry run = map (fun kp => (fst kp, reimported (snd kp))) pairs /\
  exportConfiguration (registry run) = exported.
Proof.
  intros Hwf HK Hst Hbf exported run.
  destruct (import_loop "Skipping invalid device pair: " pairs Map_empty)
    as (Hres & Herr & Hreg); auto.
  assert (Hrun : run = forEach (map asRawConfig exported)
                         (addIfValid "Skipping invalid device pair: ") Map_empty).
  { subst run. unfold importConfiguration, bind, setPairs. simpl.
    destruct (forEach _ _ _) as [res reg tr]. simpl. now destruct res. }
  subst exported. rewrite Hrun, Hres, Herr, Hreg. simpl.
  unfold exportConfiguration, Map_values, Map_size.
  repeat split.
  - now rewrite !length_map.
  - now rewrite !map_map.
  - rewrite !map_map. simpl. reflexivity.
Qed.

Lemma export_import_round_trip_witness :
  let exported := exportConfiguration salonRegistry in
  let run := importConfiguration (Some (map asRawConfig exported)) Map_empty in
  length exported = Map_size salonRegistry /\
  map exp_name exported = map name (Map_values salonRegistry) /\
  (forall p a s, exportPair (withStatus (withLastActivity p a) s) = exportPair p) /\
  result run = Normal tt /\
  errors (trace run) = [] /\
  registry run = map (fun kp => (fst kp, reimported (snd kp))) salonRegistry /\
  exportConfiguration (registry run) = exported.
Proof.
  apply (export_import_round_trip salonRegistry Map_empty).
  - repeat constructor. intros H. inversion H.
  - repeat constructor.
  - repeat constructor.
  - repeat constructor.
Defined.

(** C8 as stated fails: a pair whose input selector an update has set to a
    value outside the list is exported, and dropped by the import. *)
Lemma import_drops_unvalidated_pair :
  let hdmi := {| upd_name := None; upd_sonosDevice := None; upd_fusionDevice := None;
                 upd_fusionInput := Some "hdmi"; upd_volumeSync := None;
                 upd_enabled := None; upd_lastActivity := None; upd_status := None |} in
  let pairs := registry (updateDevicePair "salon" hdmi salonRegistry) in
  let exported := exportConfiguration pairs in
  let run := importConfiguration (Some (map asRawConfig exported)) Map_empty in
  map exp_fusionInput exported = ["hdmi"] /\
  result run = Normal tt /\
  registry run = [] /\
  exportConfiguration (registry run) <> exported.
Proof. repeat split. discriminate. Qed.

(** The condition on the flags is needed too: an update can store [null]
    in [enabled]; the pair is exported with it, still passes validation,
    and comes back from the import with [enabled: true]. *)
Example import_resets_null_flag :
  let off := {| upd_name := None; upd_sonosDevice := None; upd_fusionDevice := None;
                upd_fusionInput := None; upd_volumeSync := None;
                upd_enabled := Some jnull; upd_lastActivity := None;
                upd_status := None |} in
  let pairs := registry (updateDevicePair "salon" off salonRegistry) in
  let exported := exportConfiguration pairs in
  let run := importConfiguration (Some (map asRawConfig exported)) Map_empty in
  Forall (fun p => storable p = true) (Map_values pairs) /\
  keysMatch pairs /\
  events (trace (updateDevicePair "salon" off salonRegistry))
    = [devicePairRemoved (Object_assign (newPair salonConfig) off)] /\
  map exp_enabled exported = [jnull] /\
  result run = Normal tt /\
  map exp_enabled (exportConfiguration (registry run)) = [jbool true] /\
  exportConfiguration (registry run) <> exported.
Proof.
  repeat split; try (repeat constructor); discriminate.
Qed.

(** *** The registries that loading and importing build *)

Lemma validatePairConfig_registry (config : Config) (s : Registry) :
  registry (validatePairConfig config s) = s.
Proof.
  unfold validatePairConfig.
  destruct config as [| |raw]; [reflexivity|reflexivity|].
  destruct (firstMissing required raw); [reflexivity|].
  destruct (raw_fusionInput raw) as [[| | |i|]|]; try reflexivity.
  destruct (includes validInputs (toLowerCase i)); reflexivity.
Qed.

Lemma validatePairConfig_true (config : Config) (s : Registry) :
  result (validatePairConfig config s) = Normal true ->
  exists c, fieldsOf config ≫= asPairConfig = Some c /\
            storable (newPair c) = true /\ booleanFlags (newPair c) = true.
Proof.
  unfold validatePairConfig, asPairConfig, storable.
  destruct config as [| |raw]; [discriminate|discriminate|].
  destruct raw as [[n|] [sd|] [fd|] [[|b|z|i|]|] vs en]; isolate; try discriminate.
  all: destruct (String.eqb n "") eqn:En; isolate; try discriminate.
  all: destruct (String.eqb sd "") eqn:Es; isolate; try discriminate.
  all: destruct (String.eqb fd "") eqn:Ef; isolate; try discriminate.
  all: try (match goal with
            | |- context [if negb ?c then _ else _] => destruct c
            end; isolate; discriminate).
  destruct (String.eqb i "") eqn:Ei; isolate; [discriminate|].
  destruct (includes validInputs (toLowerCase i)) eqn:Hi; isolate; [|discriminate].
  intros _. eexists. split; [reflexivity|]. isolate.
  rewrite En, Es, Ef, Hi. split; reflexivity.
Qed.

Lemma roundTrips_set (pairs : Registry) (p : DevicePair) :
  storable p = true -> booleanFlags p = true ->
  roundTrips pairs -> roundTrips (Map_set (name p) p pairs).
Proof.
  intros Hp Hb (Hwf & HK & Hst & Hbf). split; [now apply Map_set_wf|].
  split; [now apply keysMatch_set|].
  clear Hwf HK. unfold Map_values in *. induction pairs as [|[k q] r IH]; simpl.
  - split; repeat constructor; assumption.
  - apply Forall_cons in Hst. destruct Hst as [Hq Hr].
    apply Forall_cons in Hbf. destruct Hbf as [Hbq Hbr].
    destruct (IH Hr Hbr) as [IH1 IH2].
    destruct (String.eqb (name p) k); simpl; split; constructor; auto.
Qed.

Lemma addIfValid_roundTrips (complaint : string) (config : Config) (s : Registry) :
  roundTrips s -> roundTrips (registry (addIfValid complaint config s)).
Proof.
  intros Hs. unfold addIfValid, bind.
  pose proof (validatePairConfig_registry config s) as Hreg.
  pose proof (validatePairConfig_true config s) as Htrue.
  destruct (validatePairConfig config s) as [res reg tr]. simpl in *. subst reg.
  destruct res as [[|]|msg]; simpl; try assumption.
  destruct (Htrue eq_refl) as (c & Hc & Hst & Hb). rewrite Hc.
  rewrite addDevicePair_run. simpl.
  change (cfg_name c) with (name (newPair c)). now apply roundTrips_set.
Qed.

Lemma forEach_addIfValid_roundTrips (complaint : string) (l : list Config)
    (s : Registry) :
  roundTrips s -> roundTrips (registry (forEach l (addIfValid complaint) s)).
Proof.
  revert s. induction l as [|raw r IH]; intros s Hs; simpl; [assumption|].
  unfold bind. pose proof (addIfValid_roundTrips complaint raw s Hs) as H1.
  destruct (addIfValid complaint raw s) as [res reg tr]. simpl in *.
  destruct res as [[]|msg]; simpl; auto.
Qed.

(** Whatever the records, an import leaves a registry that round-trips,
    also when it ends in an exception; so does loading the configured pairs
    into an empty registry. *)
Lemma import_and_load_roundTrips (records : list Config) :
  (forall start, roundTrips (registry (importConfiguration (Some records) start))) /\
  roundTrips (registry (loadDevicePairs records Map_empty)).
Proof.
  assert (He : roundTrips (@Map_empty DevicePair)).
  { repeat split; constructor. }
  split.
  - intros start. unfold importConfiguration, bind, setPairs. simpl.
    pose proof (forEach_addIfValid_roundTrips "Skipping invalid device pair: "
                  records Map_empty He) as H.
    destruct (forEach _ _ _) as [res reg tr]. simpl in *. now destruct res.
  - now apply forEach_addIfValid_roundTrips.
Qed.

(** An import that is not handed an array throws and leaves the registry
    alone; one invalid record among valid ones is skipped and reported; a
    [null] among the records ends the import with a [TypeError], the
    registry holding what was stored before it. *)
Example import_failure_modes :
  let bad := objectConfig
               {| raw_name := Some "deck"; raw_sonosDevice := Some "192.168.1.21:1400";
                  raw_fusionDevice := Some "192.168.1.31:80";
                  raw_fusionInput := Some (jstring "hdmi");
                  raw_volumeSync := None; raw_enabled := None |} in
  let good := asRawConfig (exportPair (newPair salonConfig)) in
  importConfiguration None salonRegistry
    = mkRun (Throw "Invalid configuration format") salonRegistry [] /\
  Map_keys (registry (importConfiguration (Some [bad; good]) Map_empty)) = ["salon"] /\
  errors (trace (importConfiguration (Some [bad; good]) Map_empty))
    = ["Invalid fusion input: hdmi"; "Skipping invalid device pair: deck"] /\
  result (importConfiguration (Some [good; nullConfig; bad]) salonRegistry)
    = Throw "Cannot read properties of null (reading 'name')" /\
  Map_keys (registry (importConfiguration (Some [good; nullConfig; bad]) Map_empty))
    = ["salon"].
Proof. repeat split. Qed.

(** * Further properties of the code *)

(** ** More on the ordered map *)

Section MapDeleteFacts.
Context {V : Type}.
Implicit Types (m : Map V) (k : string) (v : V).

Lemma Map_get_delete_ne k k' m :
  k <> k' -> Map_get k' (Map_delete k m) = Map_get k' m.
Proof.
  intros Hne. induction m as [|[k0 v0] r IH]; simpl; [reflexivity|].
  destruct (String.eqb_spec k k0) as [->|Hk]; simpl.
  - destruct (String.eqb_spec k' k0); congruence.
  - destruct (String.eqb_spec k' k0); auto.
Qed.

Lemma Map_get_delete_eq k m : Map_wf m -> Map_get k (Map_delete k m) = None.
Proof.
  unfold Map_wf. induction m as [|[k0 v0] r IH]; simpl; intros H; [reflexivity|].
  apply NoDup_cons in H. destruct H as [Hin Hnd].
  destruct (String.eqb_spec k k0) as [->|Hk]; simpl.
  - apply Map_get_None_keys. intros Hk. apply Hin. now apply list_elem_of_In.
  - destruct (String.eqb_spec k k0); [contradiction|]. auto.
Qed.

Lemma Map_delete_size k v m :
  Map_get k m = Some v -> S (Map_size (Map_delete k m)) = Map_size m.
Proof.
  unfold Map_size. induction m as [|[k0 v0] r IH]; simpl; [discriminate|].
  destruct (String.eqb k k0); simpl; [reflexivity|]. intros H. now rewrite IH.
Qed.

Lemma Map_delete_keys_incl k m x :
  In x (Map_keys (Map_delete k m)) -> In x (Map_keys m).
Proof.
  induction m as [|[k0 v0] r IH]; simpl; [tauto|].
  destruct (String.eqb k k0); simpl; tauto.
Qed.

Lemma Map_delete_wf k m : Map_wf m -> Map_wf (Map_delete k m).
Proof.
  unfold Map_wf. induction m as [|[k0 v0] r IH]; simpl; intros H; [constructor|].
  apply NoDup_cons in H. destruct H as [Hin Hnd].
  destruct (String.eqb k k0); simpl; [assumption|].
  apply NoDup_cons. split; [|auto].
  intros Hx. apply Hin. apply list_elem_of_In.
  apply (Map_delete_keys_incl k r). now apply list_elem_of_In.
Qed.

Lemma Map_delete_set_absent k v m :
  Map_get k m = None -> Map_delete k (Map_set k v m) = m.
Proof.
  induction m as [|[k0 v0] r IH]; simpl; intros H.
  - now rewrite String.eqb_refl.
  - destruct (String.eqb k k0) eqn:E; [discriminate|]. simpl. rewrite E.
    now rewrite IH.
Qed.
End MapDeleteFacts.

(** ** Validation of a pair configuration *)

Ltac keep_tests := cbn -[includes toLowerCase validInputs String.eqb].

Ltac settle_run :=
  eexists; split; [reflexivity|];
  repeat split; solve [reflexivity | discriminate | intros; reflexivity].

Lemma validatePairConfig_run (config : Config) (pairs : Registry) :
  if malformed config
  then exists message, validatePairConfig config pairs = mkRun (Throw message) pairs []
  else exists t,
    validatePairConfig config pairs = mkRun (Normal (accepted config)) pairs t /\
    events t = [] /\
    length (errors t) = (if accepted config then 0 else 1)%nat /\
    (accepted config = true -> t = []).
Proof.
  unfold validatePairConfig, malformed, accepted, accepts.
  destruct config as [| |raw]; [eexists; reflexivity|eexists; reflexivity|].
  destruct raw as [[n|] [sd|] [fd|] [[|b|z|i|]|] vs en]; keep_tests; try settle_run.
  all: destruct (String.eqb n ""); keep_tests; try settle_run.
  all: destruct (String.eqb sd ""); keep_tests; try settle_run.
  all: destruct (String.eqb fd ""); keep_tests; try settle_run.
  all: try (eexists; reflexivity).
  - destruct b; keep_tests; [eexists; reflexivity|settle_run].
  - destruct (z =? 0); keep_tests; [settle_run|eexists; reflexivity].
  - destruct (String.eqb i ""); keep_tests; try settle_run.
    destruct (includes validInputs (toLowerCase i)); keep_tests; settle_run.
Qed.

Lemma accepted_not_malformed (config : Config) :
  accepted config = true -> malformed config = false.
Proof.
  unfold accepted, accepts, malformed. destruct config as [| |raw]; try discriminate.
  destruct (raw_name raw), (raw_sonosDevice raw), (raw_fusionDevice raw),
    (raw_fusionInput raw) as [[| | |i|]|]; try discriminate.
  intros _. cbn [truthyNonString]. now rewrite andb_false_r.
Qed.

(** [validatePairConfig] leaves the registry alone and emits no event. It
    throws a [TypeError], logging nothing, exactly when the configuration
    is [null] or [undefined], or has a non-empty name and device refs and
    an input selector that is truthy but not a string. Otherwise it answers
    [true] exactly for a configuration whose four required fields are
    non-empty and whose input selector is, letter case apart, one of the
    seven identifiers; it writes one line to the error log when it answers
    [false], none when it answers [true]. *)
Theorem validatePairConfig_decides (config : Config) (pairs : Registry) :
  let run := validatePairConfig config pairs in
  registry run = pairs /\
  events (trace run) = [] /\
  (if malformed config
   then (exists message, result run = Throw message) /\ errors (trace run) = []
   else result run = Normal (accepted config) /\
        length (errors (trace run)) = (if accepted config then 0 else 1)%nat) /\
  (accepted config = true -> malformed config = false).
Proof.
  pose proof (validatePairConfig_run config pairs) as H.
  pose proof (accepted_not_malformed config) as Hx. cbv zeta.
  destruct (malformed config).
  - destruct H as (message & ->). cbn [registry trace result].
    split; [reflexivity|]. split; [reflexivity|]. split; [|exact Hx].
    split; [now exists message|reflexivity].
  - destruct H as (t & -> & He & Hl & _). cbn [registry trace result].
    split; [reflexivity|]. split; [exact He|]. split; [|exact Hx].
    split; [reflexivity|exact Hl].
Qed.

Lemma accepts_asPairConfig (raw : RawConfig) :
  accepts raw = true ->
  exists c, asPairConfig raw = Some c /\ validConfig (objectConfig raw) = Some c /\
            storable (newPair c) = true.
Proof.
  intros H. unfold validConfig. rewrite H. revert H. unfold accepts, asPairConfig, storable.
  destruct raw as [[n|] [sd|] [fd|] [[| | |i|]|] vs en]; keep_tests; try discriminate.
  rewrite !andb_true_iff. intros ((((Hn & Hs) & Hf) & Hi) & Hin).
  eexists. split; [reflexivity|]. split; [reflexivity|]. keep_tests.
  now rewrite Hn, Hs, Hf, Hin.
Qed.

Lemma validConfig_None (config : Config) :
  validConfig config = None -> accepted config = false.
Proof.
  unfold validConfig, accepted. destruct config as [| |raw]; try reflexivity.
  destruct (accepts raw) eqn:E; [|reflexivity].
  destruct (accepts_asPairConfig raw E) as (c & Hc & _). rewrite Hc. discriminate.
Qed.

Lemma validConfig_Some (config : Config) (c : PairConfig) :
  validConfig config = Some c ->
  accepted config = true /\ fieldsOf config ≫= asPairConfig = Some c.
Proof.
  unfold validConfig, accepted. destruct config as [| |raw]; try discriminate.
  destruct (accepts raw); [|discriminate]. intros H. split; [reflexivity|exact H].
Qed.

Lemma addIfValid_accepted (complaint : string) (config : Config) (c : PairConfig)
    (pairs : Registry) :
  validConfig config = Some c ->
  addIfValid complaint config pairs =
    mkRun (Normal tt) (Map_set (cfg_name c) (newPair c) pairs)
          (if truthy (enabled (newPair c)) then [Emit (devicePairReady (newPair c))] else []).
Proof.
  intros Hv. apply validConfig_Some in Hv. destruct Hv as [Ha Hc].
  pose proof (validatePairConfig_run config pairs) as Hrun.
  rewrite (accepted_not_malformed config Ha) in Hrun.
  destruct Hrun as (t & Hrun & _ & _ & Ht).
  rewrite Ha in Hrun. rewrite (Ht Ha) in Hrun.
  unfold addIfValid. rewrite (bind_normal _ _ _ _ _ _ Hrun). rewrite Hc.
  cbn match. rewrite addDevicePair_run. reflexivity.
Qed.

Lemma addIfValid_rejected (complaint : string) (config : Config) (pairs : Registry) :
  malformed config = false ->
  validConfig config = None ->
  exists reason,
    addIfValid complaint config pairs =
      mkRun (Normal tt) pairs
            [Error reason; Error (complaint ++ show (fieldsOf config ≫= raw_name))].
Proof.
  intros Hm Hv. apply validConfig_None in Hv.
  pose proof (validatePairConfig_run config pairs) as Hrun. rewrite Hm in Hrun.
  destruct Hrun as (t & Hrun & He & Hl & _).
  rewrite Hv in Hrun, Hl.
  unfold addIfValid. rewrite (bind_normal _ _ _ _ _ _ Hrun). cbn match.
  unfold app_error. simpl.
  assert (Ht : exists reason, t = [Error reason]).
  { destruct t as [|[e|m] [|o r]]; simpl in *; try discriminate.
    - now exists m.
    - destruct o; simpl in *; discriminate. }
  destruct Ht as (reason & ->). now exists reason.
Qed.

Lemma addIfValid_malformed (complaint : string) (config : Config) (pairs : Registry) :
  malformed config = true ->
  exists message, addIfValid complaint config pairs = mkRun (Throw message) pairs [].
Proof.
  intros Hm. pose proof (validatePairConfig_run config pairs) as Hrun.
  rewrite Hm in Hrun. destruct Hrun as (message & Hrun).
  exists message. unfold addIfValid, bind. rewrite Hrun. reflexivity.
Qed.

Lemma includes_In (l : list string) (s : string) :
  includes l s = true <-> In s l.
Proof.
  unfold includes. rewrite existsb_exists. split.
  - intros (x & Hx & He). apply String.eqb_eq in He. now subst.
  - intros H. exists s. split; [assumption|apply String.eqb_refl].
Qed.

(** A configuration that passes validation is stored as given, except that
    its input selector is kept in lower case (so it is one of the seven
    identifiers as written) and that each flag becomes a boolean, off only
    when the configuration says [false]; the new pair has no activity and
    status [ready], and a lookup by its name finds it. *)
Theorem accepted_configuration_is_stored (complaint : string) (raw : RawConfig)
    (pairs : Registry) :
  accepts raw = true ->
  exists c p,
    asPairConfig raw = Some c /\
    getPairByName (cfg_name c)
      (registry (addIfValid complaint (objectConfig raw) pairs)) = Some p /\
    name p = cfg_name c /\
    sonosDevice p = cfg_sonosDevice c /\
    fusionDevice p = cfg_fusionDevice c /\
    fusionInput p = toLowerCase (cfg_fusionInput c) /\
    In (fusionInput p) validInputs /\
    booleanFlags p = true /\
    (truthy (volumeSync p) = false <-> raw_volumeSync raw = Some (jbool false)) /\
    (truthy (enabled p) = false <-> raw_enabled raw = Some (jbool false)) /\
    lastActivity p = None /\
    status p = "ready".
Proof.
  intros Ha. destruct (accepts_asPairConfig raw Ha) as (c & Hc & Hv & Hst).
  exists c, (newPair c).
  rewrite (addIfValid_accepted complaint (objectConfig raw) c pairs Hv).
  cbn [registry]. unfold getPairByName. rewrite Map_get_set_eq.
  apply storable_inv in Hst. destruct Hst as (_ & _ & _ & Hin).
  apply includes_In in Hin.
  assert (Hvs : cfg_volumeSync c = raw_volumeSync raw /\ cfg_enabled c = raw_enabled raw).
  { unfold asPairConfig in Hc.
    destruct (raw_name raw), (raw_sonosDevice raw), (raw_fusionDevice raw),
      (raw_fusionInput raw) as [[| | |i|]|]; try discriminate.
    injection Hc as <-. split; reflexivity. }
  destruct Hvs as [Hvs Hen].
  repeat split; try reflexivity; try assumption; simpl; rewrite <- ?Hvs, <- ?Hen.
  - destruct (cfg_volumeSync c) as [[|[|]| | |]|]; simpl; congruence.
  - intros ->. reflexivity.
  - destruct (cfg_enabled c) as [[|[|]| | |]|]; simpl; congruence.
  - intros ->. reflexivity.
Qed.

Lemma accepted_configuration_is_stored_witness :
  exists c p,
    asPairConfig salonRecord = Some c /\
    getPairByName (cfg_name c)
      (registry (addIfValid "" (objectConfig salonRecord) Map_empty)) = Some p /\
    name p = cfg_name c /\
    sonosDevice p = cfg_sonosDevice c /\
    fusionDevice p = cfg_fusionDevice c /\
    fusionInput p = toLowerCase (cfg_fusionInput c) /\
    In (fusionInput p) validInputs /\
    booleanFlags p = true /\
    (truthy (volumeSync p) = false <-> Some jnull = Some (jbool false)) /\
    (truthy (enabled p) = false <-> Some (jbool false) = Some (jbool false)) /\
    lastActivity p = None /\
    status p = "ready".
Proof.
  apply (accepted_configuration_is_stored "" salonRecord Map_empty).
  reflexivity.
Defined.

(** ** Removing a stored pair *)

(** Removing a name that is stored returns normally, emits exactly one
    [devicePairRemoved] carrying the pair that was stored and writes
    nothing to the error log; afterwards the name is not found, every other
    name is found as before, and the registry is one entry smaller. *)
Theorem remove_stored_pair (pairs : Registry) (n : string) (p : DevicePair) :
  Map_wf pairs ->
  Map_get n pairs = Some p ->
  let run := removeDevicePair n pairs in
  result run = Normal tt /\
  trace run = [Emit (devicePairRemoved p)] /\
  getPairByName n (registry run) = None /\
  (forall k, k <> n -> getPairByName k (registry run) = getPairByName k pairs) /\
  S (Map_size (registry run)) = Map_size pairs /\
  Map_wf (registry run).
Proof.
  intros Hwf Hp. unfold removeDevicePair, bind, getPairs. simpl. rewrite Hp. simpl.
  unfold getPairByName. repeat split.
  - now apply Map_get_delete_eq.
  - intros k Hk. apply Map_get_delete_ne. congruence.
  - now apply (Map_delete_size n p).
  - now apply Map_delete_wf.
Qed.

Lemma remove_stored_pair_witness :
  let run := removeDevicePair "salon" salonRegistry in
  result run = Normal tt /\
  trace run = [Emit (devicePairRemoved (newPair salonConfig))] /\
  getPairByName "salon" (registry run) = None /\
  (forall k, k <> "salon" ->
     getPairByName k (registry run) = getPairByName k salonRegistry) /\
  S (Map_size (registry run)) = Map_size salonRegistry /\
  Map_wf (registry run).
Proof.
  apply (remove_stored_pair salonRegistry "salon" (newPair salonConfig)).
  - repeat constructor. intros H. inversion H.
  - reflexivity.
Defined.

(** Adding a pair under a name that is free and removing it again gives
    back the registry as it was, entry for entry; the two steps emit a
    [devicePairReady] (when the pair is enabled) and then a
    [devicePairRemoved] for that same pair. *)
Theorem add_then_remove_restores (pairs : Registry) (config : PairConfig) :
  Map_get (cfg_name config) pairs = None ->
  let added := addDevicePair config pairs in
  let removed := removeDevicePair (cfg_name config) (registry added) in
  registry removed = pairs /\
  events (app (trace added) (trace removed)) =
    app (if truthy (enabled (newPair config)) then [devicePairReady (newPair config)] else [])
        [devicePairRemoved (newPair config)].
Proof.
  intros Hfree. cbv zeta. rewrite addDevicePair_run. cbn [registry trace].
  unfold removeDevicePair, bind, getPairs. simpl. rewrite Map_get_set_eq. simpl.
  split; [now apply Map_delete_set_absent|].
  destruct (notFalse (cfg_enabled config)); reflexivity.
Qed.

Lemma add_then_remove_restores_witness :
  let added := addDevicePair salonConfig Map_empty in
  let removed := removeDevicePair "salon" (registry added) in
  registry removed = Map_empty /\
  events (app (trace added) (trace removed)) =
    app (if truthy (enabled (newPair salonConfig))
         then [devicePairReady (newPair salonConfig)] else [])
        [devicePairRemoved (newPair salonConfig)].
Proof. apply (add_then_remove_restores Map_empty salonConfig). reflexivity. Defined.

(** ** Loading and importing lists of configurations *)

Lemma events_app (t1 t2 : list Output) :
  events (app t1 t2) = app (events t1) (events t2).
Proof. unfold events. apply omap_app. Qed.

Lemma errors_app (t1 t2 : list Output) :
  errors (app t1 t2) = app (errors t1) (errors t2).
Proof. unfold errors. apply omap_app. Qed.

Lemma readable_all (records : list Config) :
  existsb malformed records = false -> readable records = records.
Proof.
  induction records as [|config r IH]; simpl; [reflexivity|].
  destruct (malformed config); [discriminate|]. intros H. now rewrite IH.
Qed.

Lemma forEach_addIfValid_run (complaint : string) (records : list Config)
    (pairs : Registry) :
  let run := forEach records (addIfValid complaint) pairs in
  let read := readable records in
  (if existsb malformed records
   then exists message, result run = Throw message
   else result run = Normal tt) /\
  registry run = storeAll (omap validConfig read) pairs /\
  events (trace run) = omap readyEvent (omap validConfig read) /\
  length (errors (trace run)) =
    (2 * length (List.filter (fun r => negb (accepted r)) read))%nat.
Proof.
  revert pairs. induction records as [|config r IH]; intros pairs.
  - repeat split.
  - cbn [forEach readable existsb]. cbv zeta.
    destruct (malformed config) eqn:Hm.
    { destruct (addIfValid_malformed complaint config pairs Hm) as (message & Hrun).
      unfold bind. rewrite Hrun. cbn [result registry trace orb].
      repeat split. now exists message. }
    cbn [orb].
    change (omap validConfig (config :: readable r))
      with (match validConfig config with
            | Some c => c :: omap validConfig (readable r)
            | None => omap validConfig (readable r)
            end).
    change (List.filter (fun r0 => negb (accepted r0)) (config :: readable r))
      with (if negb (accepted config)
            then config :: List.filter (fun r0 => negb (accepted r0)) (readable r)
            else List.filter (fun r0 => negb (accepted r0)) (readable r)).
    destruct (validConfig config) as [c|] eqn:Hv.
    + rewrite (bind_normal _ _ _ _ _ _ (addIfValid_accepted complaint config c pairs Hv)).
      destruct (IH (Map_set (cfg_name c) (newPair c) pairs)) as (H1 & H2 & H3 & H4).
      cbn [result registry trace]. rewrite events_app, errors_app, length_app, H3, H4.
      destruct (validConfig_Some config c Hv) as [Ha _].
      rewrite Ha. cbn [negb].
      change (omap readyEvent (c :: omap validConfig (readable r)))
        with (match readyEvent c with
              | Some e => e :: omap readyEvent (omap validConfig (readable r))
              | None => omap readyEvent (omap validConfig (readable r))
              end).
      split; [exact H1|]. split; [exact H2|]. split.
      * destruct (truthy (enabled (newPair c))) eqn:E; unfold readyEvent; rewrite E;
          reflexivity.
      * destruct (truthy (enabled (newPair c))); reflexivity.
    + destruct (addIfValid_rejected complaint config pairs Hm Hv) as (reason & Hrun).
      rewrite (bind_normal _ _ _ _ _ _ Hrun).
      destruct (IH pairs) as (H1 & H2 & H3 & H4).
      cbn [result registry trace]. rewrite events_app, errors_app, length_app, H3, H4.
      rewrite (validConfig_None config Hv). cbn [negb].
      split; [exact H1|]. split; [exact H2|]. split; [reflexivity|]. simpl. lia.
Qed.

(** An import of a list of records replaces whatever was stored. The
    records are taken in order up to the first one that validation cannot
    read ([null], [undefined], or an input selector that is truthy and not
    a string): the registry the import leaves is what storing the accepted
    ones among them one after the other in an empty registry gives (a later
    record taking the place of an earlier one of the same name), whatever
    the registry held before. With no such record the import returns
    normally; with one it ends in a [TypeError], and the registry stays as
    the records before it left it. The import emits one [devicePairReady]
    per accepted record whose pair is enabled, in order, and no
    [devicePairRemoved] for the pairs it drops; each rejected record costs
    two lines in the error log. *)
Theorem import_stores_accepted_records (records : list Config) (start : Registry) :
  let run := importConfiguration (Some records) start in
  let read := readable records in
  (if existsb malformed records
   then exists message, result run = Throw message
   else result run = Normal tt /\ read = records) /\
  registry run = storeAll (omap validConfig read) Map_empty /\
  events (trace run) = omap readyEvent (omap validConfig read) /\
  (forall p, ~ In (devicePairRemoved p) (events (trace run))) /\
  length (errors (trace run)) =
    (2 * length (List.filter (fun r => negb (accepted r)) read))%nat.
Proof.
  destruct (forEach_addIfValid_run "Skipping invalid device pair: " records Map_empty)
    as (H1 & H2 & H3 & H4).
  assert (Hrun : importConfiguration (Some records) start =
                 forEach records (addIfValid "Skipping invalid device pair: ") Map_empty).
  { unfold importConfiguration, bind, setPairs. simpl.
    destruct (forEach _ _ _) as [res reg tr]. simpl in *. destruct res; reflexivity. }
  cbv zeta. rewrite Hrun. split; [|split; [exact H2|split; [exact H3|split; [|exact H4]]]].
  - destruct (existsb malformed records) eqn:E; [exact H1|].
    split; [exact H1|now apply readable_all].
  - intros p Hin. rewrite H3 in Hin. apply list_elem_of_In, list_elem_of_omap in Hin.
    destruct Hin as (c & _ & Hc). unfold readyEvent in Hc.
    destruct (truthy (enabled (newPair c))); discriminate.
Qed.

(** An import that is not handed an array throws [Invalid configuration
    format] before touching anything; through the route this is answered
    with status 400 and that message, the registry being as it was. *)
Theorem import_rejects_non_array (pairs : Registry) :
  importConfiguration None pairs =
    mkRun (Throw "Invalid configuration format") pairs [] /\
  Routes.postImport None (Some pairs) =
    ({| Routes.statusCode := 400;
        Routes.body := Routes.Failure "Invalid configuration format" |},
     Some pairs, []).
Proof. split; reflexivity. Qed.

(** ** Starting and stopping *)

(** [start] on a started registry and [stop] on a stopped one do nothing.
    [stop] empties the registry without emitting anything. With plugin
    options that validation can read (the plugin's schema asks for strings
    and booleans), a start after a stop leaves exactly the accepted pairs
    of the options: whatever was added, updated or imported while running
    is gone. *)
Theorem stop_then_start_reloads_options (options : list Config) (pairs : Registry) :
  existsb malformed options = false ->
  Lifecycle.start options true pairs = mkRun (Normal true) pairs [] /\
  Lifecycle.stop false pairs = mkRun (Normal false) pairs [] /\
  Lifecycle.stop true pairs = mkRun (Normal false) Map_empty [] /\
  (let restarted := Lifecycle.start options false (registry (Lifecycle.stop true pairs)) in
   result restarted = Normal true /\
   registry restarted = storeAll (omap validConfig options) Map_empty /\
   events (trace restarted) = omap readyEvent (omap validConfig options)).
Proof.
  intros Hread.
  destruct (forEach_addIfValid_run "Invalid device pair configuration: "
              options Map_empty) as (H1 & H2 & H3 & _).
  rewrite Hread in H1. rewrite (readable_all options Hread) in H2, H3.
  split; [reflexivity|]. split; [reflexivity|]. split; [reflexivity|].
  unfold Lifecycle.start, Lifecycle.stop, loadDevicePairs, bind, setPairs; simpl.
  destruct (forEach _ _ _) as [res reg tr]; simpl in *; subst res; simpl.
  split; [reflexivity|]. split; [assumption|]. now rewrite app_nil_r.
Qed.

Lemma stop_then_start_reloads_options_witness :
  let options := [objectConfig salonRecord] in
  Lifecycle.start options true salonRegistry = mkRun (Normal true) salonRegistry [] /\
  Lifecycle.stop false salonRegistry = mkRun (Normal false) salonRegistry [] /\
  Lifecycle.stop true salonRegistry = mkRun (Normal false) Map_empty [] /\
  (let restarted :=
     Lifecycle.start options false (registry (Lifecycle.stop true salonRegistry)) in
   result restarted = Normal true /\
   registry restarted = storeAll (omap validConfig options) Map_empty /\
   events (trace restarted) = omap readyEvent (omap validConfig options)).
Proof.
  apply (stop_then_start_reloads_options [objectConfig salonRecord] salonRegistry).
  reflexivity.
Defined.

(** ** Activity and status touches *)

Lemma Map_set_values_map {V W : Type} (f : V -> W) (k : string) (v v' : V)
    (m : Map V) :
  Map_get k m = Some v -> f v' = f v ->
  map f (Map_values (Map_set k v' m)) = map f (Map_values m).
Proof.
  intros Hget Hf. unfold Map_values. induction m as [|[k0 v0] r IH]; simpl in *.
  - discriminate.
  - destruct (String.eqb k k0); simpl.
    + injection Hget as ->. now rewrite Hf.
    + f_equal. auto.
Qed.

(** Recording an activity or setting a status never throws, emits nothing
    and logs nothing, whatever the name; it leaves the keys of the registry
    and the exported configuration as they were. On a name that is not
    stored it changes nothing at all; on a stored name the pair afterwards
    carries the new activity (time stamp, type, data), respectively the new
    status. *)
Theorem touches_keep_configuration (pairs : Registry) (now : Z)
    (n activityType activityData newStatus : string) :
  let touched := updatePairActivity now n activityType activityData pairs in
  let labelled := updatePairStatus n newStatus pairs in
  result touched = Normal tt /\ trace touched = [] /\
  result labelled = Normal tt /\ trace labelled = [] /\
  Map_keys (registry touched) = Map_keys pairs /\
  Map_keys (registry labelled) = Map_keys pairs /\
  exportConfiguration (registry touched) = exportConfiguration pairs /\
  exportConfiguration (registry labelled) = exportConfiguration pairs /\
  match Map_get n pairs with
  | None => registry touched = pairs /\ registry labelled = pairs
  | Some p =>
      (lastActivity <$> Map_get n (registry touched)) =
        Some (Some {| timestamp := now; type := activityType; data := activityData |}) /\
      (status <$> Map_get n (registry labelled)) = Some newStatus
  end.
Proof.
  unfold updatePairActivity, updatePairStatus, bind, getPairs, exportConfiguration.
  simpl. destruct (Map_get n pairs) as [p|] eqn:E; simpl.
  - repeat split.
    + apply Map_set_keys_present. rewrite E. eauto.
    + apply Map_set_keys_present. rewrite E. eauto.
    + now apply (Map_set_values_map exportPair n p).
    + now apply (Map_set_values_map exportPair n p).
    + now rewrite Map_get_set_eq.
    + now rewrite Map_get_set_eq.
  - repeat split.
Qed.

Lemma omap_length_le {X Y : Type} (f : X -> option Y) (l : list X) :
  (length (omap f l) <= length l)%nat.
Proof.
  induction l as [|x r IH]; [reflexivity|].
  change (omap f (x :: r))
    with (match f x with Some y => y :: omap f r | None => omap f r end).
  destruct (f x); simpl; lia.
Qed.

Lemma getDeviceStatistics_fields (now : Z) (pairs : Registry) :
  totalPairs (getDeviceStatistics now pairs) = Map_size pairs /\
  enabledPairs (getDeviceStatistics now pairs) = length (getEnabledPairs pairs) /\
  activePairs (getDeviceStatistics now pairs) =
    length (List.filter (recentlyActive now) (Map_values pairs)) /\
  recentActivity (getDeviceStatistics now pairs) =
    take 10 (orderByDesc entryTimestamp (omap activityEntry (Map_values pairs))).
Proof.
  unfold getDeviceStatistics. cbn [totalPairs enabledPairs activePairs recentActivity].
  match goal with
  | |- context [fold_left (statsStep now) ?l ?s] =>
      destruct (statsStep_fold now l s) as [Ha Hr];
      assert (Ht : totalPairs (fold_left (statsStep now) l s) = totalPairs s
                   /\ enabledPairs (fold_left (statsStep now) l s) = enabledPairs s)
  end.
  { generalize (Map_values pairs). intros l.
    match goal with |- context [fold_left _ l ?s] => generalize s end.
    induction l as [|p r IH]; intros s; simpl; [split; reflexivity|].
    destruct (IH (statsStep now s p)) as [H1 H2]. rewrite H1, H2. split; reflexivity. }
  destruct Ht as [Ht He]. rewrite Ht, He, Ha, Hr. repeat split.
Qed.

(** A stored pair whose activity is recorded at time [t] is counted among
    the active pairs by any statistics taken less than 300000 ms after [t],
    and, as long as the registry has at most ten pairs, its entry (pair
    name, [t], activity type) is in [recentActivity]; the touch leaves
    [totalPairs] and [enabledPairs] as they were. *)
Theorem touched_pair_shows_in_statistics (pairs : Registry) (t now : Z)
    (n activityType activityData : string) (p : DevicePair) :
  Map_get n pairs = Some p ->
  now - t < 300000 ->
  let pairs' := registry (updatePairActivity t n activityType activityData pairs) in
  let stats := getDeviceStatistics now pairs' in
  (1 <= activePairs stats)%nat /\
  totalPairs stats = Map_size pairs /\
  enabledPairs stats = enabledPairs (getDeviceStatistics now pairs) /\
  ((Map_size pairs <= 10)%nat ->
     In {| pairName := name p; entryTimestamp := t; entryType := activityType |}
        (recentActivity stats)).
Proof.
  intros Hget Hnow pairs' stats. subst stats.
  destruct (getDeviceStatistics_fields now pairs') as (Ht & He & Ha & Hr).
  destruct (getDeviceStatistics_fields now pairs) as (_ & He0 & _ & _).
  rewrite Ht, He, Ha, Hr, He0.
  set (p' := withLastActivity p
               (Some {| timestamp := t; type := activityType; data := activityData |})).
  assert (Hreg : pairs' = Map_set n p' pairs).
  { subst pairs'. unfold updatePairActivity, bind, getPairs. simpl. now rewrite Hget. }
  assert (Hin : In p' (Map_values pairs')).
  { rewrite Hreg. unfold Map_values. apply (in_map snd _ (n, p')).
    apply Map_get_In. apply Map_get_set_eq. }
  assert (Hsize : Map_size pairs' = Map_size pairs).
  { rewrite Hreg. apply Map_set_size_present. rewrite Hget. eauto. }
  repeat split.
  - assert (Hf : In p' (List.filter (recentlyActive now) (Map_values pairs'))).
    { apply filter_In. split; [assumption|]. unfold recentlyActive, p'. simpl.
      now apply Z.ltb_lt. }
    destruct (List.filter (recentlyActive now) (Map_values pairs')); [destruct Hf|].
    simpl. lia.
  - exact Hsize.
  - unfold getEnabledPairs. rewrite Hreg.
    rewrite <- (length_map enabled), <- (length_map enabled (List.filter _ (Map_values pairs))).
    f_equal. clear -Hget. unfold Map_values.
    induction pairs as [|[k q] r IH]; simpl in *; [discriminate|].
    destruct (String.eqb n k); simpl.
    + injection Hget as ->. unfold p'. simpl. destruct (truthy (enabled p)); reflexivity.
    + destruct (truthy (enabled q)); simpl; rewrite IH; auto.
  - intros Hten.
    set (entries := omap activityEntry (Map_values pairs')).
    assert (Hlen : (length entries <= 10)%nat).
    { subst entries. etransitivity; [apply omap_length_le|].
      unfold Map_values. rewrite length_map. fold (Map_size pairs'). lia. }
    rewrite take_ge.
    2:{ rewrite (Permutation_length (orderByDesc_Permutation entryTimestamp entries)).
        exact Hlen. }
    apply list_elem_of_In. rewrite (orderByDesc_Permutation entryTimestamp entries).
    subst entries. apply list_elem_of_omap. exists p'. split; [now apply list_elem_of_In|].
    reflexivity.
Qed.

Lemma touched_pair_shows_in_statistics_witness :
  let pairs' := registry (updatePairActivity 1000 "salon" "volume" "" salonRegistry) in
  let stats := getDeviceStatistics 2000 pairs' in
  (1 <= activePairs stats)%nat /\
  totalPairs stats = Map_size salonRegistry /\
  enabledPairs stats = enabledPairs (getDeviceStatistics 2000 salonRegistry) /\
  ((Map_size salonRegistry <= 10)%nat ->
     In {| pairName := name (newPair salonConfig); entryTimestamp := 1000;
           entryType := "volume" |}
        (recentActivity stats)).
Proof.
  apply (touched_pair_shows_in_statistics salonRegistry 1000 2000 "salon" "volume" ""
           (newPair salonConfig)).
  - reflexivity.
  - lia.
Defined.

(** The counts of the statistics are consistent: there are no more enabled
    pairs, active pairs or activity entries than there are pairs, and no
    more active pairs than pairs with an activity. *)
Theorem statistics_counts_bounded (now : Z) (pairs : Registry) :
  let stats := getDeviceStatistics now pairs in
  totalPairs stats = Map_size pairs /\
  (enabledPairs stats <= totalPairs stats)%nat /\
  (activePairs stats <= length (omap activityEntry (Map_values pairs)))%nat /\
  (length (omap activityEntry (Map_values pairs)) <= totalPairs stats)%nat /\
  (length (recentActivity stats) <= totalPairs stats)%nat.
Proof.
  destruct (getDeviceStatistics_fields now pairs) as (Ht & He & Ha & Hr).
  cbv zeta. rewrite Ht, He, Ha, Hr.
  assert (Hent : (length (omap activityEntry (Map_values pairs)) <= Map_size pairs)%nat).
  { etransitivity; [apply omap_length_le|]. unfold Map_values, Map_size.
    now rewrite length_map. }
  repeat split.
  - unfold getEnabledPairs. etransitivity; [apply List.filter_length_le|].
    unfold Map_values, Map_size. now rewrite length_map.
  - generalize (Map_values pairs). intros l.
    induction l as [|p r IH]; [reflexivity|].
    change (omap activityEntry (p :: r))
      with (match activityEntry p with
            | Some e => e :: omap activityEntry r
            | None => omap activityEntry r
            end).
    cbn [List.filter]. unfold recentlyActive at 1, activityEntry at 1.
    destruct (lastActivity p) as [a|]; [|exact IH].
    destruct (now - timestamp a <? 300000); simpl; lia.
  - exact Hent.
  - rewrite length_take.
    rewrite (Permutation_length (orderByDesc_Permutation entryTimestamp _)). lia.
Qed.

(** ** Lookups by device *)

Lemma find_first {X : Type} (f : X -> bool) (l : list X) :
  match List.find f l with
  | Some x => exists before after,
                l = app before (x :: after) /\ f x = true /\
                Forall (fun y => f y = false) before
  | None => Forall (fun y => f y = false) l
  end.
Proof.
  induction l as [|y r IH]; simpl; [constructor|].
  destruct (f y) eqn:E.
  - exists [], r. repeat split; [assumption|constructor].
  - destruct (List.find f r) as [x|].
    + destruct IH as (before & after & -> & Hx & Hb).
      exists (y :: before), after. repeat split; [assumption|now constructor].
    + now constructor.
Qed.

(** A lookup by source (or by amplifier) answers with the first pair, in
    registry order, that is enabled and references the device; it answers
    nothing exactly when no enabled pair references it. Disabled pairs are
    passed over. *)
Theorem lookup_by_device_first_enabled (pairs : Registry) (deviceId : string) :
  match getPairBySonosDevice deviceId pairs with
  | Some p => exists before after,
      Map_values pairs = app before (p :: after) /\
      sonosDevice p = deviceId /\ truthy (enabled p) = true /\
      Forall (fun q => sonosDevice q = deviceId -> truthy (enabled q) = false) before
  | None => Forall (fun q => sonosDevice q = deviceId -> truthy (enabled q) = false)
                   (Map_values pairs)
  end /\
  match getPairByFusionDevice deviceId pairs with
  | Some p => exists before after,
      Map_values pairs = app before (p :: after) /\
      fusionDevice p = deviceId /\ truthy (enabled p) = true /\
      Forall (fun q => fusionDevice q = deviceId -> truthy (enabled q) = false) before
  | None => Forall (fun q => fusionDevice q = deviceId -> truthy (enabled q) = false)
                   (Map_values pairs)
  end.
Proof.
  assert (Hpass : forall (g : DevicePair -> string) (l : list DevicePair),
            Forall (fun y => String.eqb (g y) deviceId && truthy (enabled y) = false) l ->
            Forall (fun q => g q = deviceId -> truthy (enabled q) = false) l).
  { intros g l H. eapply List.Forall_impl; [|exact H]. simpl. intros q Hq Hg.
    apply String.eqb_eq in Hg. rewrite Hg in Hq. exact Hq. }
  unfold getPairBySonosDevice, getPairByFusionDevice. split.
  - pose proof (find_first (fun pair => String.eqb (sonosDevice pair) deviceId && truthy (enabled pair))
                           (Map_values pairs)) as H.
    destruct (List.find _ _) as [p|].
    + destruct H as (before & after & Hl & Hp & Hb).
      apply andb_true_iff in Hp. destruct Hp as [Hd He]. apply String.eqb_eq in Hd.
      exists before, after. repeat split; try assumption.
      now apply (Hpass sonosDevice).
    + now apply (Hpass sonosDevice).
  - pose proof (find_first (fun pair => String.eqb (fusionDevice pair) deviceId && truthy (enabled pair))
                           (Map_values pairs)) as H.
    destruct (List.find _ _) as [p|].
    + destruct H as (before & after & Hl & Hp & Hb).
      apply andb_true_iff in Hp. destruct Hp as [Hd He]. apply String.eqb_eq in Hd.
      exists before, after. repeat split; try assumption.
      now apply (Hpass fusionDevice).
    + now apply (Hpass fusionDevice).
Qed.

Lemma NoDup_map_injective {X Y : Type} (f : X -> Y) (l : list X) (x y : X) :
  NoDup (map f l) -> In x l -> In y l -> f x = f y -> x = y.
Proof.
  induction l as [|z r IH]; simpl; intros Hnd Hx Hy Hf; [destruct Hx|].
  apply NoDup_cons in Hnd. destruct Hnd as [Hz Hr].
  destruct Hx as [->|Hx], Hy as [->|Hy]; auto.
  - exfalso. apply Hz. rewrite Hf. apply list_elem_of_In. now apply in_map.
  - exfalso. apply Hz. rewrite <- Hf. apply list_elem_of_In. now apply in_map.
Qed.

(** While no device is referenced by two enabled pairs, the lookups are
    unambiguous: for every stored pair that is enabled, the lookup by its
    source and the lookup by its amplifier both answer with that pair. *)
Theorem exclusive_lookup_finds_the_pair (pairs : Registry) (p : DevicePair) :
  exclusive pairs ->
  In p (Map_values pairs) ->
  truthy (enabled p) = true ->
  getPairBySonosDevice (sonosDevice p) pairs = Some p /\
  getPairByFusionDevice (fusionDevice p) pairs = Some p.
Proof.
  intros [Hs Hf] Hin He.
  assert (Hpe : In p (getEnabledPairs pairs)).
  { unfold getEnabledPairs. apply filter_In. now split. }
  unfold getPairBySonosDevice, getPairByFusionDevice. split.
  - destruct (List.find _ _) as [q|] eqn:E.
    + apply List.find_some in E. destruct E as [Hq Hh].
      apply andb_true_iff in Hh. destruct Hh as [Hd Hqe]. apply String.eqb_eq in Hd.
      f_equal. apply (NoDup_map_injective sonosDevice (getEnabledPairs pairs)); auto.
      unfold getEnabledPairs. apply filter_In. now split.
    + pose proof (List.find_none _ _ E p Hin) as Hn. simpl in Hn.
      rewrite String.eqb_refl, He in Hn. discriminate.
  - destruct (List.find _ _) as [q|] eqn:E.
    + apply List.find_some in E. destruct E as [Hq Hh].
      apply andb_true_iff in Hh. destruct Hh as [Hd Hqe]. apply String.eqb_eq in Hd.
      f_equal. apply (NoDup_map_injective fusionDevice (getEnabledPairs pairs)); auto.
      unfold getEnabledPairs. apply filter_In. now split.
    + pose proof (List.find_none _ _ E p Hin) as Hn. simpl in Hn.
      rewrite String.eqb_refl, He in Hn. discriminate.
Qed.

Lemma exclusive_lookup_finds_the_pair_witness :
  getPairBySonosDevice (sonosDevice (newPair salonConfig)) salonRegistry
    = Some (newPair salonConfig) /\
  getPairByFusionDevice (fusionDevice (newPair salonConfig)) salonRegistry
    = Some (newPair salonConfig).
Proof.
  apply (exclusive_lookup_finds_the_pair salonRegistry (newPair salonConfig)).
  - split; repeat constructor; intros H; inversion H.
  - simpl. now left.
  - reflexivity.
Defined.

(** ** The REST routes *)

Lemma Map_set_values_In {V : Type} (k : string) (v q : V) (m : Map V) :
  In q (Map_values (Map_set k v m)) -> q = v \/ In q (Map_values m).
Proof.
  unfold Map_values. induction m as [|[k0 v0] r IH]; simpl.
  - intros [<-|[]]. now left.
  - destruct (String.eqb k k0); simpl.
    + intros [<-|H]; [now left|right; now right].
    + intros [<-|H]; [right; now left|]. destruct (IH H); [now left|right; now right].
Qed.

Lemma NoDup_enabled_set (g : DevicePair -> string) (pairs : Registry)
    (k : string) (v : DevicePair) :
  NoDup (map g (List.filter (fun pair => truthy (enabled pair)) (Map_values pairs))) ->
  (forall q, In q (Map_values pairs) -> truthy (enabled q) = true -> g q <> g v) ->
  NoDup (map g (List.filter (fun pair => truthy (enabled pair)) (Map_values (Map_set k v pairs)))).
Proof.
  unfold Map_values. induction pairs as [|[k0 v0] r IH]; simpl; intros Hnd Hfree.
  - destruct (truthy (enabled v)); simpl; repeat constructor. intros H. inversion H.
  - assert (Hr : NoDup (map g (List.filter (fun pair => truthy (enabled pair)) (map snd r)))).
    { destruct (truthy (enabled v0)); simpl in Hnd; [|assumption].
      now apply NoDup_cons in Hnd. }
    destruct (String.eqb k k0); simpl.
    + destruct (truthy (enabled v)) eqn:Ev; simpl; [|assumption].
      apply NoDup_cons. split; [|assumption].
      intros Hin. apply list_elem_of_In, in_map_iff in Hin.
      destruct Hin as (q & Hq & Hqin). apply filter_In in Hqin.
      destruct Hqin as [Hqin Hqe]. apply (Hfree q); auto.
    + destruct (truthy (enabled v0)) eqn:E0; simpl.
      * simpl in Hnd. apply NoDup_cons in Hnd. destruct Hnd as [Hv0 _].
        apply NoDup_cons. split; [|apply IH; auto].
        intros Hin. apply list_elem_of_In, in_map_iff in Hin.
        destruct Hin as (q & Hq & Hqin). apply filter_In in Hqin.
        destruct Hqin as [Hqin Hqe].
        destruct (Map_set_values_In k v q r Hqin) as [->|Hold].
        -- apply (Hfree v0); auto.
        -- apply Hv0. rewrite <- Hq. apply list_elem_of_In, in_map.
           apply filter_In. now split.
      * apply IH; auto.
Qed.

Lemma validation_valid (s f : string) (pairs : Registry) :
  valid (validateDeviceAssociation s f pairs) = true <->
  getPairBySonosDevice s pairs = None /\ getPairByFusionDevice f pairs = None.
Proof.
  unfold validateDeviceAssociation.
  destruct (getPairBySonosDevice s pairs), (getPairByFusionDevice f pairs); simpl;
    split; try discriminate; try tauto; intros [? ?]; discriminate.
Qed.

Lemma createPair_run (config : Config) (pairs : Registry) :
  if malformed config
  then exists message, Routes.createPair config pairs = mkRun (Throw message) pairs []
  else
    match validConfig config with
    | None =>
        exists t,
          Routes.createPair config pairs =
            mkRun (Normal {| Routes.statusCode := 400;
                             Routes.body := Routes.Failure "Invalid pair configuration" |})
                  pairs t /\
          events t = []
    | Some c =>
        let validation :=
          validateDeviceAssociation (cfg_sonosDevice c) (cfg_fusionDevice c) pairs in
        Routes.createPair config pairs =
          if valid validation then
            mkRun (Normal {| Routes.statusCode := 201;
                             Routes.body := Routes.Message "Device pair created successfully" |})
                  (Map_set (cfg_name c) (newPair c) pairs)
                  (if truthy (enabled (newPair c))
                   then [Emit (devicePairReady (newPair c))] else [])
          else
            mkRun (Normal {| Routes.statusCode := 409;
                             Routes.body := Routes.Conflict "Device association conflict"
                                              (conflicts validation) |})
                  pairs []
    end.
Proof.
  pose proof (validatePairConfig_run config pairs) as Hrun.
  destruct (malformed config) eqn:Hm.
  { destruct Hrun as (message & Hrun). exists message.
    unfold Routes.createPair, bind. rewrite Hrun. reflexivity. }
  destruct Hrun as (t & Hrun & He & _ & Ht).
  unfold Routes.createPair. rewrite (bind_normal _ _ _ _ _ _ Hrun). cbv beta.
  destruct (validConfig config) as [c|] eqn:Hv.
  - destruct (validConfig_Some config c Hv) as [Ha Hc].
    rewrite (Ht Ha). rewrite Ha, Hc.
    cbn [negb app]. cbv zeta.
    rewrite (bind_normal getPairs _ pairs pairs pairs [] eq_refl). cbv beta.
    destruct (valid (validateDeviceAssociation _ _ pairs)); cbn [negb].
    + rewrite (bind_normal (addDevicePair c) _ pairs _ tt _ (addDevicePair_run pairs c)).
      unfold ret. cbn [result registry trace app]. now rewrite app_nil_r.
    + reflexivity.
  - rewrite (validConfig_None config Hv). cbn [negb]. exists t. split; [|assumption].
    unfold ret. cbn [result registry trace]. now rewrite app_nil_r.
Qed.

(** [POST /pairs] answers 500, 400, 409 or 201. It answers 500 exactly for
    a body that validation cannot read (no body, [null], or an input
    selector that is truthy and not a string), 400 exactly for a body that
    validation reads and rejects, and 201 exactly for an accepted
    configuration whose source and amplifier are referenced by no enabled
    pair. Unless it answers 201 the registry is unchanged and no event is
    emitted. And it keeps the devices exclusive: if no device was
    referenced by two enabled pairs before, none is afterwards. *)
Theorem create_route_keeps_devices_exclusive (config : Config) (pairs : Registry) :
  exists response after out,
    Routes.postPairs config (Some pairs) = (response, Some after, out) /\
    In (Routes.statusCode response) [500; 400; 409; 201] /\
    (Routes.statusCode response = 500 <-> malformed config = true) /\
    (Routes.statusCode response = 400 <->
       malformed config = false /\ accepted config = false) /\
    (Routes.statusCode response = 201 <->
       exists c, validConfig config = Some c /\
                 getPairBySonosDevice (cfg_sonosDevice c) pairs = None /\
                 getPairByFusionDevice (cfg_fusionDevice c) pairs = None) /\
    (Routes.statusCode response <> 201 -> after = pairs /\ events out = []) /\
    (exclusive pairs -> exclusive after).
Proof.
  pose proof (createPair_run config pairs) as H.
  unfold Routes.postPairs, Routes.serve. cbv zeta.
  destruct (malformed config) eqn:Hm.
  { destruct H as (message & ->). cbn [result registry trace].
    eexists _, _, _. split; [reflexivity|]. cbn [Routes.statusCode].
    split; [now left|].
    split; [split; reflexivity|].
    split; [split; [discriminate|intros [Hd _]; discriminate Hd]|].
    split.
    { split; [discriminate|]. intros (c & Hc & _).
      destruct (validConfig_Some config c Hc) as [Ha _].
      rewrite (accepted_not_malformed config Ha) in Hm. discriminate Hm. }
    split; [intros _; split; reflexivity|]. intros Hx. exact Hx. }
  destruct (validConfig config) as [c|] eqn:Hv.
  - cbv zeta in H.
    pose proof (validation_valid (cfg_sonosDevice c) (cfg_fusionDevice c) pairs)
      as Hvalid.
    destruct (validConfig_Some config c Hv) as [Ha _].
    destruct (valid _) eqn:Ev; rewrite H; cbn [result registry trace];
      eexists _, _, _; (split; [reflexivity|]); cbn [Routes.statusCode].
    + destruct Hvalid as [Hvalid _]. destruct (Hvalid eq_refl) as [Hs Hf].
      split; [right; right; right; now left|].
      split; [split; discriminate|].
      split; [split; [discriminate|intros [_ Hd]; congruence]|].
      split; [split; [intros _; exists c; auto|reflexivity]|].
      split; [intros Hne; exfalso; now apply Hne|].
      intros [Hxs Hxf]. split.
      * apply NoDup_enabled_set; [exact Hxs|].
        intros q Hq He Heq. unfold getPairBySonosDevice in Hs.
        pose proof (List.find_none _ _ Hs q Hq) as Hn. simpl in Hn.
        rewrite Heq, He in Hn. simpl in Hn. rewrite String.eqb_refl in Hn. discriminate.
      * apply NoDup_enabled_set; [exact Hxf|].
        intros q Hq He Heq. unfold getPairByFusionDevice in Hf.
        pose proof (List.find_none _ _ Hf q Hq) as Hn. simpl in Hn.
        rewrite Heq, He in Hn. simpl in Hn. rewrite String.eqb_refl in Hn. discriminate.
    + split; [right; right; now left|].
      split; [split; discriminate|].
      split; [split; [discriminate|intros [_ Hd]; congruence]|].
      split.
      { split; [discriminate|]. intros (c' & Hc' & Hs & Hf). exfalso.
        injection Hc' as <-. destruct Hvalid as [_ Hvalid].
        specialize (Hvalid (conj Hs Hf)). discriminate Hvalid. }
      split; [intros _; split; reflexivity|].
      intros Hx. exact Hx.
  - destruct H as (t & Hrun & He). rewrite Hrun. cbn [result registry trace].
    eexists _, _, _. split; [reflexivity|]. cbn [Routes.statusCode].
    pose proof (validConfig_None config Hv) as Ha.
    split; [right; now left|].
    split; [split; discriminate|].
    split; [split; [intros _; split; [reflexivity|exact Ha]|reflexivity]|].
    split; [split; [discriminate|intros (c & Hc & _); discriminate]|].
    split; [intros _; split; [reflexivity|exact He]|].
    intros Hx. exact Hx.
Qed.

(** A route on a pair name answers 404 [Device pair not found] for a name
    that is not stored, changing nothing and logging nothing. For a stored
    name [PATCH] answers 200 after the update and [DELETE] answers 200
    after removing the pair, with the one [devicePairRemoved] of the
    removal. While the plugin is not started every route answers 503. *)
Theorem routes_on_pair_names (pairs : Registry) (n : string) (u : PairUpdates) :
  match getPairByName n pairs with
  | None =>
      Routes.patchPairs n u (Some pairs) =
        ({| Routes.statusCode := 404;
            Routes.body := Routes.Failure "Device pair not found" |}, Some pairs, []) /\
      Routes.deletePairs n (Some pairs) =
        ({| Routes.statusCode := 404;
            Routes.body := Routes.Failure "Device pair not found" |}, Some pairs, [])
  | Some p =>
      Routes.patchPairs n u (Some pairs) =
        ({| Routes.statusCode := 200;
            Routes.body := Routes.Message "Device pair updated successfully" |},
         Some (Map_set n (Object_assign p u) pairs),
         trace (updateDevicePair n u pairs)) /\
      Routes.deletePairs n (Some pairs) =
        ({| Routes.statusCode := 200;
            Routes.body := Routes.Message "Device pair deleted successfully" |},
         Some (Map_delete n pairs), [Emit (devicePairRemoved p)])
  end /\
  (forall response raw records,
     In response [ Routes.patchPairs n u None; Routes.deletePairs n None;
                   Routes.postPairs raw None; Routes.getExport None;
                   Routes.postImport records None ] ->
     response = ({| Routes.statusCode := 503;
                    Routes.body := Routes.Failure "Plugin not started" |}, None, [])).
Proof.
  split.
  - unfold Routes.patchPairs, Routes.deletePairs, Routes.serve, Routes.patchPair,
      Routes.deletePair, bind, getPairs, getPairByName. cbn [result registry trace].
    destruct (Map_get n pairs) as [p|] eqn:E; cbn [result registry trace ret].
    + split.
      * rewrite (updateDevicePair_returns pairs n u). cbn [result registry trace].
        rewrite (updateDevicePair_registry pairs n u p E).
        now rewrite app_nil_r.
      * unfold removeDevicePair, bind, getPairs. cbn [result registry trace].
        rewrite E. reflexivity.
    + split; reflexivity.
  - intros response raw records Hin. simpl in Hin.
    repeat destruct Hin as [<-|Hin]; try reflexivity. destruct Hin.
Qed.

(** ** The amplifier table *)

Lemma addDevice_unchanged (now : Z) (deviceId : string)
    (devices : Map FusionDevices.Tracked) :
  FusionDevices.addDevice now deviceId devices = devices.
Proof.
  unfold FusionDevices.addDevice, FusionDevices.has, FusionDevices.findDeviceById.
  destruct (Map_get deviceId devices); reflexivity.
Qed.

Lemma commandTable_lookup (devices : Map FusionDevices.Tracked) (k : string) :
  FusionDevices.commandTable devices !! k =
  FusionDevices.endpoint <$> Map_get k devices.
Proof.
  unfold FusionDevices.commandTable.
  induction devices as [|[k0 d0] r IH]; simpl; [apply lookup_empty|].
  destruct (String.eqb_spec k k0) as [->|Hk].
  - apply lookup_insert_eq.
  - rewrite lookup_insert_ne by congruence. exact IH.
Qed.

(** [addDevice] never puts anything into the amplifier table: it returns at
    once for a device that is tracked, and looks an untracked device up in
    that same table, where it is not. So after [addDevice] an amplifier
    that was not tracked still is not, while [handleDeviceDiscovered] for
    its service does track it. *)
Theorem addDevice_never_tracks (now : Z) (deviceId : string)
    (devices : Map FusionDevices.Tracked) (service : FusionDevices.Service) :
  FusionDevices.addDevice now deviceId devices = devices /\
  (FusionDevices.has (FusionDevices.getDeviceId service)
     (FusionDevices.addDevice now (FusionDevices.getDeviceId service) Map_empty) = false) /\
  (FusionDevices.has (FusionDevices.getDeviceId service)
     (FusionDevices.handleDeviceDiscovered now service Map_empty) = true).
Proof.
  split; [apply addDevice_unchanged|]. split; [reflexivity|].
  unfold FusionDevices.handleDeviceDiscovered, FusionDevices.has. simpl.
  now rewrite String.eqb_refl.
Qed.

(** Once a pair is removed (or disabled) its amplifier is dropped from the
    table, and enabling the pair again does not bring it back: after the
    calls of [devicePairRemoved] and then [devicePairReady] for a pair, its
    amplifier is not tracked, a volume command for it sends nothing and so
    does an input switch. *)
Theorem reenabled_pair_has_no_amplifier (st : Plugin.State) (p : DevicePair)
    (devices : Map FusionDevices.Tracked) (now : Z) :
  Map_wf devices ->
  let calls := app (Wiring.dispatch st (devicePairRemoved p))
                   (Wiring.dispatch st (devicePairReady p)) in
  let devices' := Wiring.onAmplifierTable now calls devices in
  Map_get (fusionDevice p) devices' = None /\
  (forall volume,
     FusionController.setVolume (FusionDevices.commandTable devices')
       (fusionDevice p) volume = []) /\
  (forall inputSource,
     FusionDevices.switchInput devices' (fusionDevice p) inputSource
       = FusionDevices.NotTracked).
Proof.
  intros Hwf calls devices'.
  assert (Hnone : Map_get (fusionDevice p) devices' = None).
  { subst devices' calls. unfold Wiring.onAmplifierTable. simpl.
    rewrite addDevice_unchanged. unfold FusionDevices.removeDevice, FusionDevices.has.
    destruct (Map_get (fusionDevice p) devices) eqn:E; [|exact E].
    now apply Map_get_delete_eq. }
  split; [exact Hnone|]. split.
  - intros volume. unfold FusionController.setVolume.
    now rewrite commandTable_lookup, Hnone.
  - intros inputSource. unfold FusionDevices.switchInput. now rewrite Hnone.
Qed.

Lemma reenabled_pair_has_no_amplifier_witness :
  let calls := app (Wiring.dispatch salonPlugin (devicePairRemoved (newPair salonConfig)))
                   (Wiring.dispatch salonPlugin (devicePairReady (newPair salonConfig))) in
  let devices' := Wiring.onAmplifierTable 5 calls discoveredAmps in
  Map_get (fusionDevice (newPair salonConfig)) devices' = None /\
  (forall volume,
     FusionController.setVolume (FusionDevices.commandTable devices')
       (fusionDevice (newPair salonConfig)) volume = []) /\
  (forall inputSource,
     FusionDevices.switchInput devices' (fusionDevice (newPair salonConfig)) inputSource
       = FusionDevices.NotTracked).
Proof.
  apply (reenabled_pair_has_no_amplifier salonPlugin (newPair salonConfig)
           discoveredAmps 5).
  repeat constructor. intros H. inversion H.
Defined.

(** Discovery never overwrites an amplifier that is tracked: its entry,
    with the volume and input last seen, stays as it is, so announcing a
    service again changes nothing. An amplifier that is not tracked is
    appended with [null] for its input and volume; other entries are
    untouched, and the service going away removes the entry again, giving
    back the table as it was. *)
Theorem discovery_adds_once (now later : Z) (service : FusionDevices.Service)
    (devices : Map FusionDevices.Tracked) :
  Map_wf devices ->
  let deviceId := FusionDevices.getDeviceId service in
  let found := FusionDevices.handleDeviceDiscovered now service devices in
  (forall entry, Map_get deviceId devices = Some entry -> found = devices) /\
  (Map_get deviceId devices = None ->
     found = app devices
               [(deviceId,
                 {| FusionDevices.id := deviceId;
                    FusionDevices.name := FusionDevices.svc_name service;
                    FusionDevices.host := FusionDevices.svc_host service;
                    FusionDevices.port := FusionDevices.svc_port service;
                    FusionDevices.lastSeen := now;
                    FusionDevices.currentInput := JSLib.null;
                    FusionDevices.currentVolume := JSLib.null |})] /\
     FusionDevices.handleDeviceUnavailable service found = devices) /\
  FusionDevices.handleDeviceDiscovered later service found = found /\
  (forall k, k <> deviceId -> Map_get k found = Map_get k devices) /\
  Map_get deviceId (FusionDevices.handleDeviceUnavailable service found) = None /\
  Map_wf found.
Proof.
  intros Hwf. cbv zeta.
  unfold FusionDevices.handleDeviceDiscovered, FusionDevices.handleDeviceUnavailable,
    FusionDevices.has. cbv zeta.
  generalize (FusionDevices.getDeviceId service). intros deviceId.
  destruct (Map_get deviceId devices) as [entry|] eqn:E; cbn [negb];
    rewrite ?E, ?Map_get_set_eq; cbn [negb]; rewrite ?E, ?Map_get_set_eq.
  - split; [reflexivity|]. split; [discriminate|]. split; [reflexivity|].
    split; [reflexivity|]. split; [now apply Map_get_delete_eq|assumption].
  - split; [discriminate|]. split.
    { intros _. split; [now apply Map_set_absent|now apply Map_delete_set_absent]. }
    split; [reflexivity|]. split.
    { intros k Hk. apply Map_get_set_ne. congruence. }
    split; [apply Map_get_delete_eq|]; now apply Map_set_wf.
Qed.

Lemma discovery_adds_once_witness :
  let none : Map FusionDevices.Tracked := Map_empty in
  let deviceId := FusionDevices.getDeviceId salonService in
  let found := FusionDevices.handleDeviceDiscovered 0 salonService none in
  (forall entry, Map_get deviceId none = Some entry -> found = none) /\
  (Map_get deviceId none = None ->
     found = app none
               [(deviceId,
                 {| FusionDevices.id := deviceId;
                    FusionDevices.name := FusionDevices.svc_name salonService;
                    FusionDevices.host := FusionDevices.svc_host salonService;
                    FusionDevices.port := FusionDevices.svc_port salonService;
                    FusionDevices.lastSeen := 0;
                    FusionDevices.currentInput := JSLib.null;
                    FusionDevices.currentVolume := JSLib.null |})] /\
     FusionDevices.handleDeviceUnavailable salonService found = none) /\
  FusionDevices.handleDeviceDiscovered 7 salonService found = found /\
  (forall k, k <> deviceId -> Map_get k found = Map_get k none) /\
  Map_get deviceId (FusionDevices.handleDeviceUnavailable salonService found) = None /\
  Map_wf found.
Proof.
  apply (discovery_adds_once 0 7 salonService Map_empty). constructor.
Defined.

(** The sample amplifier is tracked under [host:port]. *)
Example discoveredAmps_keys : Map_keys discoveredAmps = ["192.168.1.30:80"].
Proof. vm_compute. reflexivity. Qed.

(** ** Input switching *)

Ltac selector_cases l :=
  destruct (String.eqb_spec l "aux1") as [->|?];
  [|destruct (String.eqb_spec l "aux2") as [->|?];
  [|destruct (String.eqb_spec l "aux3") as [->|?];
  [|destruct (String.eqb_spec l "usb") as [->|?];
  [|destruct (String.eqb_spec l "bluetooth") as [->|?];
  [|destruct (String.eqb_spec l "am") as [->|?];
  [|destruct (String.eqb_spec l "fm") as [->|?]]]]]]].

(** On a tracked amplifier, [switchInput] sends a [setInput] command with an
    input number exactly when the selector is, letter case apart, one of
    the seven valid inputs; the number is then the position (from 1) of the
    selector in the list of valid inputs that validation uses, so the two
    tables agree and distinct inputs get distinct numbers. A selector that
    lower-cases to [constructor] or [__proto__] gets a request too, with the
    value every object inherits under that name in the place of a number;
    for any other selector nothing is sent and [Invalid input source] is
    logged. On an amplifier that is not tracked nothing is sent. *)
Theorem switchInput_numbers_valid_inputs (devices : Map FusionDevices.Tracked)
    (deviceId inputSource : string) (device : FusionDevices.Tracked) :
  Map_get deviceId devices = Some device ->
  (includes validInputs (toLowerCase inputSource) = true <->
     exists n, FusionDevices.switchInput devices deviceId inputSource =
                 FusionDevices.Sent
                   (FusionController.sendCommand (FusionDevices.endpoint device)
                      "setInput" [("input", n)])) /\
  (forall command,
     FusionDevices.switchInput devices deviceId inputSource = FusionDevices.Sent command ->
     exists n,
       command = FusionController.sendCommand (FusionDevices.endpoint device)
                   "setInput" [("input", n)] /\
       1 <= n <= 7 /\
       nth_error validInputs (Z.to_nat (n - 1)) = Some (toLowerCase inputSource)) /\
  (inheritedName (toLowerCase inputSource) = true <->
     FusionDevices.switchInput devices deviceId inputSource =
       FusionDevices.SentNonNumeric (FusionDevices.endpoint device)
                                    (toLowerCase inputSource)) /\
  (includes validInputs (toLowerCase inputSource) = false ->
   inheritedName (toLowerCase inputSource) = false ->
   FusionDevices.switchInput devices deviceId inputSource =
     FusionDevices.InvalidInput ("Invalid input source: " ++ inputSource)) /\
  (forall other,
     Map_get other devices = None ->
     FusionDevices.switchInput devices other inputSource = FusionDevices.NotTracked).
Proof.
  intros Hd. unfold FusionDevices.switchInput. rewrite Hd.
  unfold FusionDevices.inputMapLookup, FusionDevices.inputMap, includes, validInputs,
    inheritedName.
  generalize (toLowerCase inputSource). intros l.
  split; [|split; [|split; [|split]]].
  - selector_cases l; simpl;
      try (split; [intros _; eexists; reflexivity|reflexivity]).
    repeat match goal with
           | H : l <> _ |- _ => apply String.eqb_neq in H; rewrite H; clear H
           end.
    simpl. split; [discriminate|].
    intros (n & Hn). destruct (String.eqb l "constructor" || String.eqb l "__proto__");
      discriminate.
  - intros command. selector_cases l; simpl;
      try (intros [= <-]; eexists; split; [reflexivity|split; [lia|reflexivity]]).
    repeat match goal with
           | H : l <> _ |- _ => apply String.eqb_neq in H; rewrite H; clear H
           end.
    simpl. destruct (String.eqb l "constructor" || String.eqb l "__proto__");
      discriminate.
  - selector_cases l; simpl; try (split; discriminate).
    repeat match goal with
           | H : l <> _ |- _ => apply String.eqb_neq in H; rewrite H; clear H
           end.
    simpl. destruct (String.eqb l "constructor" || String.eqb l "__proto__");
      split; try reflexivity; discriminate.
  - selector_cases l; simpl; try discriminate.
    repeat match goal with
           | H : l <> _ |- _ => apply String.eqb_neq in H; rewrite H; clear H
           end.
    simpl. intros _ ->. reflexivity.
  - intros other Ho. now rewrite Ho.
Qed.

(** A selector that lower-cases to an inherited name is not a valid input,
    yet a request goes out for it. *)
Example switchInput_inherited_name :
  includes validInputs (toLowerCase "Constructor") = false /\
  FusionDevices.switchInput discoveredAmps "192.168.1.30:80" "Constructor"
    = FusionDevices.SentNonNumeric salonAmp "constructor" /\
  FusionDevices.switchInput discoveredAmps "192.168.1.30:80" "hdmi"
    = FusionDevices.InvalidInput "Invalid input source: hdmi".
Proof. repeat split. Qed.

Lemma switchInput_numbers_valid_inputs_witness :
  (includes validInputs (toLowerCase "USB") = true <->
     exists n, FusionDevices.switchInput discoveredAmps "192.168.1.30:80" "USB" =
                 FusionDevices.Sent
                   (FusionController.sendCommand salonAmp "setInput" [("input", n)])) /\
  (forall command,
     FusionDevices.switchInput discoveredAmps "192.168.1.30:80" "USB"
       = FusionDevices.Sent command ->
     exists n,
       command = FusionController.sendCommand salonAmp "setInput" [("input", n)] /\
       1 <= n <= 7 /\
       nth_error validInputs (Z.to_nat (n - 1)) = Some (toLowerCase "USB")) /\
  (inheritedName (toLowerCase "USB") = true <->
     FusionDevices.switchInput discoveredAmps "192.168.1.30:80" "USB" =
       FusionDevices.SentNonNumeric salonAmp (toLowerCase "USB")) /\
  (includes validInputs (toLowerCase "USB") = false ->
   inheritedName (toLowerCase "USB") = false ->
   FusionDevices.switchInput discoveredAmps "192.168.1.30:80" "USB" =
     FusionDevices.InvalidInput ("Invalid input source: " ++ "USB")) /\
  (forall other,
     Map_get other discoveredAmps = None ->
     FusionDevices.switchInput discoveredAmps other "USB" = FusionDevices.NotTracked).
Proof.
  apply (switchInput_numbers_valid_inputs discoveredAmps "192.168.1.30:80" "USB"
           {| FusionDevices.id := "192.168.1.30:80";
              FusionDevices.name := Some "Fusion MS-RA770";
              FusionDevices.host := "192.168.1.30"; FusionDevices.port := 80;
              FusionDevices.lastSeen := 0; FusionDevices.currentInput := JSLib.null;
              FusionDevices.currentVolume := JSLib.null |}).
  vm_compute. reflexivity.
Defined.

(** ** Polling the amplifier *)

Lemma strictEq_refl (v : JSLib.Value) : JSLib.strictEq v v = true.
Proof.
  destruct v; simpl; auto using Z.eqb_refl, String.eqb_refl.
Qed.

Lemma strictEq_eq (a b : JSLib.Value) : JSLib.strictEq a b = true <-> a = b.
Proof.
  destruct a, b; simpl; split; try discriminate; try reflexivity; intros H.
  - apply Z.eqb_eq in H. now subst.
  - injection H as ->. apply Z.eqb_refl.
  - apply String.eqb_eq in H. now subst.
  - injection H as ->. apply String.eqb_refl.
Qed.

(** A poll reports a change of volume exactly when the reported volume
    differs from the one last recorded for the device, and likewise for the
    input; it records what it reports, so a second poll that gets the same
    status reports nothing. A poll without a status changes nothing and
    reports nothing. *)
Theorem poll_reports_each_change_once (deviceId : string)
    (device : FusionDevices.Tracked) (status : FusionDevices.Status) :
  let polled := FusionDevices.pollDevice deviceId device (Some status) in
  FusionDevices.pollDevice deviceId (fst polled) (Some status) = (fst polled, []) /\
  FusionDevices.currentVolume (fst polled) = FusionDevices.volume status /\
  FusionDevices.currentInput (fst polled) = FusionDevices.input status /\
  (In (FusionDevices.volumeChanged deviceId (FusionDevices.volume status)) (snd polled)
     <-> FusionDevices.volume status <> FusionDevices.currentVolume device) /\
  (In (FusionDevices.inputChanged deviceId (FusionDevices.input status)) (snd polled)
     <-> FusionDevices.input status <> FusionDevices.currentInput device) /\
  (length (snd polled) <= 2)%nat /\
  FusionDevices.pollDevice deviceId device None = (device, []).
Proof.
  cbv zeta. unfold FusionDevices.pollDevice; cbn [fst snd].
  cbn [FusionDevices.currentVolume FusionDevices.currentInput FusionDevices.id
       FusionDevices.name FusionDevices.host FusionDevices.port FusionDevices.lastSeen].
  destruct (JSLib.strictEq (FusionDevices.volume status)
              (FusionDevices.currentVolume device)) eqn:Ev;
  destruct (JSLib.strictEq (FusionDevices.input status)
              (FusionDevices.currentInput device)) eqn:Ei;
  cbn [negb]; rewrite ?Ev, ?Ei, ?strictEq_refl; cbn [negb app].
  all: first [apply strictEq_eq in Ev
             | apply not_true_iff_false in Ev; rewrite strictEq_eq in Ev].
  all: first [apply strictEq_eq in Ei
             | apply not_true_iff_false in Ei; rewrite strictEq_eq in Ei].
  all: repeat split; simpl; try lia; intuition congruence.
Qed.

(** After a confirmed [setVolume(v)] the table holds the percentage [v] as
    the amplifier's volume, while the amplifier reports its own level
    [round(v / 100 * 40)]: for every [v] from 1 to 100 the next poll takes
    that level for a change and reports it. *)
Theorem confirmed_volume_is_reported_back (deviceId : string)
    (device : FusionDevices.Tracked) (v : Z) (status : FusionDevices.Status) :
  1 <= v <= 100 ->
  FusionDevices.volume status = JSLib.number (FusionController.fusionVolume v) ->
  In (FusionDevices.volumeChanged deviceId
        (JSLib.number (FusionController.fusionVolume v)))
     (snd (FusionDevices.pollDevice deviceId (FusionDevices.volumeSet device v)
             (Some status))).
Proof.
  intros Hv Hs. unfold FusionDevices.pollDevice, FusionDevices.volumeSet.
  cbn [snd FusionDevices.currentVolume]. rewrite Hs. cbn [JSLib.strictEq].
  assert (Hne : (FusionController.fusionVolume v =? v) = false).
  { apply Z.eqb_neq. rewrite fusionVolume_closed_form.
    pose proof (Z.div_mod (4 * v + 5) 10 ltac:(lia)).
    pose proof (Z.mod_pos_bound (4 * v + 5) 10 ltac:(lia)). lia. }
  rewrite Hne. cbn [negb]. apply in_or_app. left. now left.
Qed.

Lemma confirmed_volume_is_reported_back_witness :
  In (FusionDevices.volumeChanged "192.168.1.30:80"
        (JSLib.number (FusionController.fusionVolume 50)))
     (snd (FusionDevices.pollDevice "192.168.1.30:80"
             (FusionDevices.volumeSet
                {| FusionDevices.id := "192.168.1.30:80";
                   FusionDevices.name := None;
                   FusionDevices.host := "192.168.1.30"; FusionDevices.port := 80;
                   FusionDevices.lastSeen := 0;
                   FusionDevices.currentInput := JSLib.null;
                   FusionDevices.currentVolume := JSLib.null |} 50)
             (Some {| FusionDevices.input := JSLib.null;
                      FusionDevices.volume := JSLib.number 20 |}))).
Proof.
  apply (confirmed_volume_is_reported_back "192.168.1.30:80" _ 50
           {| FusionDevices.input := JSLib.null;
              FusionDevices.volume := JSLib.number 20 |}).
  - lia.
  - reflexivity.
Defined.

(** ** The source controller *)

(** [adjustVolume] on a tracked source sends exactly one [SetVolume], with a
    volume between 0 and 100 whatever the current volume and the change:
    the sum when it lies in that range, 0 below it, 100 above. It sends
    nothing for a source that is not tracked or whose volume cannot be
    read. *)
Theorem adjustVolume_stays_in_range (devices : gset string) (deviceId : string)
    (volumeChange current : Z) :
  deviceId ∈ devices ->
  exists newVolume,
    SonosDevices.adjustVolume devices deviceId volumeChange (Some current)
      = [SonosController.SetVolume deviceId newVolume] /\
    0 <= newVolume <= 100 /\
    (0 <= current + volumeChange <= 100 -> newVolume = current + volumeChange) /\
    (current + volumeChange < 0 -> newVolume = 0) /\
    (100 < current + volumeChange -> newVolume = 100) /\
    SonosDevices.adjustVolume devices deviceId volumeChange None = [] /\
    (forall other, other ∉ devices ->
       SonosDevices.adjustVolume devices other volumeChange (Some current) = []).
Proof.
  intros Hin. exists (Z.max 0 (Z.min 100 (current + volumeChange))).
  unfold SonosDevices.adjustVolume.
  destruct (decide (deviceId ∈ devices)) as [_|Hn]; [|contradiction].
  split; [reflexivity|]. split; [lia|]. split; [lia|]. split; [lia|].
  split; [lia|]. split; [reflexivity|].
  intros other Ho. now rewrite decide_False.
Qed.

Lemma adjustVolume_stays_in_range_witness :
  exists newVolume,
    SonosDevices.adjustVolume trackedSources "192.168.1.20:1400" 30 (Some 85)
      = [SonosController.SetVolume "192.168.1.20:1400" newVolume] /\
    0 <= newVolume <= 100 /\
    (0 <= 85 + 30 <= 100 -> newVolume = 85 + 30) /\
    (85 + 30 < 0 -> newVolume = 0) /\
    (100 < 85 + 30 -> newVolume = 100) /\
    SonosDevices.adjustVolume trackedSources "192.168.1.20:1400" 30 None = [] /\
    (forall other, other ∉ trackedSources ->
       SonosDevices.adjustVolume trackedSources other 30 (Some 85) = []).
Proof.
  apply (adjustVolume_stays_in_range trackedSources "192.168.1.20:1400" 30 85).
  unfold trackedSources. set_solver.
Defined.

Lemma toLowerCase_idempotent (s : string) : toLowerCase (toLowerCase s) = toLowerCase s.
Proof.
  induction s as [|c r IH]; simpl; [reflexivity|]. rewrite IH. f_equal.
  unfold lowerChar at 1.
  destruct (Nat.leb 65 (nat_of_ascii (lowerChar c)) &&
            Nat.leb (nat_of_ascii (lowerChar c)) 90)%bool eqn:E; [|reflexivity].
  exfalso. unfold lowerChar in E.
  destruct (Nat.leb 65 (nat_of_ascii c) && Nat.leb (nat_of_ascii c) 90)%bool eqn:E'.
  - apply andb_true_iff in E'. destruct E' as [H1 H2].
    apply Nat.leb_le in H1, H2.
    rewrite nat_ascii_embedding in E by lia.
    apply andb_true_iff in E. destruct E as [_ E]. apply Nat.leb_le in E. lia.
  - congruence.
Qed.

(** [normalizePlaybackState] only ever answers one of its five states, and
    normalizing its own answer gives that answer again; the state it had
    before lower-casing does not matter. *)
Theorem normalizePlaybackState_range (state : option string) :
  In (SonosController.normalizePlaybackState state)
     ["playing"; "paused"; "stopped"; "transitioning"; "unknown"] /\
  SonosController.normalizePlaybackState
    (Some (SonosController.normalizePlaybackState state))
    = SonosController.normalizePlaybackState state /\
  SonosController.normalizePlaybackState (toLowerCase <$> state)
    = SonosController.normalizePlaybackState state.
Proof.
  destruct state as [s|]; [|simpl; tauto].
  split; [|split].
  - unfold SonosController.normalizePlaybackState.
    generalize (toLowerCase s). intros l. branches; simpl; tauto.
  - unfold SonosController.normalizePlaybackState.
    generalize (toLowerCase s). intros l.
    destruct (String.eqb l "playing"); [reflexivity|].
    destruct (String.eqb l "paused_playback"); [reflexivity|].
    destruct (String.eqb l "paused"); [reflexivity|].
    destruct (String.eqb l "stopped"); [reflexivity|].
    destruct (String.eqb l "transitioning"); reflexivity.
  - simpl. now rewrite toLowerCase_idempotent.
Qed.

(** ** Durations *)

Lemma isDigit_differs (c k : ascii) :
  isDigit c = true -> isDigit k = false -> Ascii.eqb c k = false.
Proof.
  intros Hc Hk. destruct (Ascii.eqb_spec c k) as [->|]; [congruence|reflexivity].
Qed.

Lemma isDigit_not_white (c : ascii) : isDigit c = true -> JSLib.isWhiteSpace c = false.
Proof.
  unfold isDigit, JSLib.isWhiteSpace. intros H.
  apply andb_true_iff in H. destruct H as [H1 H2]. apply Nat.leb_le in H1, H2.
  apply orb_false_iff. split.
  - apply Nat.eqb_neq. lia.
  - apply andb_false_iff. right. apply Nat.leb_gt. lia.
Qed.

Lemma digitValue_decimal (c : ascii) :
  isDigit c = true ->
  JSLib.digitValue 10 c = Some (Z.of_nat (nat_of_ascii c) - 48).
Proof.
  unfold isDigit, JSLib.digitValue. intros H.
  apply andb_true_iff in H. destruct H as [H1 H2]. apply Nat.leb_le in H1, H2.
  assert (Ha : (48 <=? Z.of_nat (nat_of_ascii c)) = true) by (apply Z.leb_le; lia).
  assert (Hb : (Z.of_nat (nat_of_ascii c) <=? 57) = true) by (apply Z.leb_le; lia).
  rewrite Ha, Hb. cbn [andb].
  assert (Hd : (Z.of_nat (nat_of_ascii c) - 48 <? 10) = true) by (apply Z.ltb_lt; lia).
  now rewrite Hd.
Qed.

Lemma digitsPrefix_numeral (s : string) (acc : option Z) :
  allDigits s = true ->
  JSLib.digitsPrefix 10 s acc =
    match s with
    | EmptyString => acc
    | _ => Some (decimalFrom (default 0 acc) s)
    end.
Proof.
  revert acc. induction s as [|c r IH]; intros acc H; [reflexivity|].
  simpl in H. apply andb_true_iff in H. destruct H as [Hc Hr].
  cbn [JSLib.digitsPrefix]. rewrite (digitValue_decimal c Hc), (IH _ Hr).
  destruct r; reflexivity.
Qed.

Lemma isNumeral_inv (s : string) :
  isNumeral s = true ->
  exists c r, s = String c r /\ isDigit c = true /\ allDigits r = true.
Proof.
  unfold isNumeral. destruct s as [|c r]; [discriminate|]. simpl.
  intros H. apply andb_true_iff in H. exists c, r. tauto.
Qed.

Lemma parseInt_numeral (s : string) :
  isNumeral s = true -> JSLib.parseInt s = Some (decimal s).
Proof.
  intros H. destruct (isNumeral_inv s H) as (c & r & -> & Hc & Hr).
  unfold JSLib.parseInt. cbn [JSLib.trimStart]. rewrite (isDigit_not_white c Hc).
  rewrite (isDigit_differs c "-" Hc eq_refl), (isDigit_differs c "+" Hc eq_refl).
  cbn [fst snd].
  assert (Hall : allDigits (String c r) = true) by (simpl; now rewrite Hc, Hr).
  destruct r as [|x rest].
  - cbn [fst snd]. rewrite digitsPrefix_numeral by assumption.
    unfold decimal. cbn [default]. f_equal. lia.
  - simpl in Hr. apply andb_true_iff in Hr. destruct Hr as [Hx Hrest].
    rewrite (isDigit_differs x "x" Hx eq_refl), (isDigit_differs x "X" Hx eq_refl).
    rewrite andb_false_r. cbn [fst snd].
    rewrite digitsPrefix_numeral by assumption.
    unfold decimal. cbn [default]. f_equal. lia.
Qed.

Lemma split_nonempty (sep : ascii) (s : string) : JSLib.split sep s <> [].
Proof.
  induction s as [|c r IH]; simpl; [discriminate|].
  destruct (Ascii.eqb c sep); [discriminate|].
  destruct (JSLib.split sep r); [contradiction|discriminate].
Qed.

Lemma split_app_sep (sep : ascii) (a b : string) :
  JSLib.split sep (a ++ String sep b) = app (JSLib.split sep a) (JSLib.split sep b).
Proof.
  induction a as [|c r IH]; simpl.
  - now rewrite Ascii.eqb_refl.
  - rewrite IH. destruct (Ascii.eqb c sep); [reflexivity|].
    pose proof (split_nonempty sep r) as Hne.
    destruct (JSLib.split sep r); [contradiction|reflexivity].
Qed.

Lemma split_numeral (s : string) :
  allDigits s = true -> JSLib.split ":" s = [s].
Proof.
  induction s as [|c r IH]; simpl; [reflexivity|]. intros H.
  apply andb_true_iff in H. destruct H as [Hc Hr].
  rewrite (isDigit_differs c ":" Hc eq_refl), (IH Hr). reflexivity.
Qed.

Lemma decimalFrom_bound (s : string) (acc : Z) :
  allDigits s = true -> 0 <= acc ->
  0 <= decimalFrom acc s < (acc + 1) * 10 ^ Z.of_nat (String.length s).
Proof.
  revert acc. induction s as [|c r IH]; intros acc H Hacc.
  - simpl. lia.
  - simpl in H. apply andb_true_iff in H. destruct H as [Hc Hr].
    unfold isDigit in Hc. apply andb_true_iff in Hc. destruct Hc as [H1 H2].
    apply Nat.leb_le in H1, H2.
    cbn [decimalFrom String.length].
    specialize (IH (acc * 10 + (Z.of_nat (nat_of_ascii c) - 48)) Hr ltac:(lia)).
    rewrite Nat2Z.inj_succ, Z.pow_succ_r by lia.
    assert (Hp : 0 < 10 ^ Z.of_nat (String.length r)) by (apply Z.pow_pos_nonneg; lia).
    nia.
Qed.

Lemma decimal_below (s : string) :
  isNumeral s = true -> (String.length s <= 10)%nat -> 0 <= decimal s < 10 ^ 10.
Proof.
  intros H Hl. unfold isNumeral in H. apply andb_true_iff in H. destruct H as [_ H].
  pose proof (decimalFrom_bound s 0 H ltac:(lia)) as Hb. unfold decimal.
  assert (Hm : 10 ^ Z.of_nat (String.length s) <= 10 ^ 10)
    by (apply Z.pow_le_mono_r; lia).
  lia.
Qed.

Lemma parseDuration_nonempty (d : string) :
  d <> "" ->
  SonosDevices.parseDuration (Some d) =
    match JSLib.split ":" d with
    | [h; m; s] => JSLib.parseIntOr0 h * 3600 + JSLib.parseIntOr0 m * 60
                   + JSLib.parseIntOr0 s
    | [m; s] => JSLib.parseIntOr0 m * 60 + JSLib.parseIntOr0 s
    | _ => JSLib.parseIntOr0 d
    end.
Proof. destruct d; [contradiction|reflexivity]. Qed.

(** [parseDuration] reads a duration written as numerals joined by colons:
    hours, minutes and seconds for three fields, minutes and seconds for
    two, seconds for one. With fields of at most ten digits the result is a
    non-negative integer below [2^53], so the arithmetic is exact. *)
Theorem parseDuration_reads_clock_times (h m s : string) :
  isNumeral h = true -> isNumeral m = true -> isNumeral s = true ->
  (String.length h <= 10)%nat -> (String.length m <= 10)%nat ->
  (String.length s <= 10)%nat ->
  SonosDevices.parseDuration (Some (h ++ ":" ++ m ++ ":" ++ s))
    = decimal h * 3600 + decimal m * 60 + decimal s /\
  SonosDevices.parseDuration (Some (m ++ ":" ++ s)) = decimal m * 60 + decimal s /\
  SonosDevices.parseDuration (Some s) = decimal s /\
  0 <= decimal h * 3600 + decimal m * 60 + decimal s < 2 ^ 53.
Proof.
  intros Hh Hm Hs Lh Lm Ls.
  pose proof (decimal_below h Hh Lh). pose proof (decimal_below m Hm Lm).
  pose proof (decimal_below s Hs Ls).
  assert (Ah : allDigits h = true)
    by (unfold isNumeral in Hh; apply andb_true_iff in Hh; tauto).
  assert (Am : allDigits m = true)
    by (unfold isNumeral in Hm; apply andb_true_iff in Hm; tauto).
  assert (As : allDigits s = true)
    by (unfold isNumeral in Hs; apply andb_true_iff in Hs; tauto).
  destruct (isNumeral_inv h Hh) as (ch & rh & Eh & _).
  destruct (isNumeral_inv m Hm) as (cm & rm & Em & _).
  destruct (isNumeral_inv s Hs) as (cs & rs & Es & _).
  assert (Hsplit3 : JSLib.split ":" (h ++ ":" ++ m ++ ":" ++ s) = [h; m; s]).
  { change (h ++ ":" ++ m ++ ":" ++ s) with (h ++ String ":" (m ++ String ":" s)).
    rewrite !split_app_sep, !split_numeral by assumption. reflexivity. }
  assert (Hsplit2 : JSLib.split ":" (m ++ ":" ++ s) = [m; s]).
  { change (m ++ ":" ++ s) with (m ++ String ":" s).
    rewrite !split_app_sep, !split_numeral by assumption. reflexivity. }
  rewrite !parseDuration_nonempty
    by (rewrite ?Eh, ?Em, ?Es; discriminate).
  rewrite Hsplit3, Hsplit2, (split_numeral s As).
  unfold JSLib.parseIntOr0. rewrite !parseInt_numeral by assumption. cbn [default].
  change (2 ^ 53) with 9007199254740992. change (10 ^ 10) with 10000000000 in *.
  repeat split; lia.
Qed.

Lemma parseDuration_reads_clock_times_witness :
  SonosDevices.parseDuration (Some ("1" ++ ":" ++ "02" ++ ":" ++ "03"))
    = decimal "1" * 3600 + decimal "02" * 60 + decimal "03" /\
  SonosDevices.parseDuration (Some ("02" ++ ":" ++ "03")) = decimal "02" * 60 + decimal "03" /\
  SonosDevices.parseDuration (Some "03") = decimal "03" /\
  0 <= decimal "1" * 3600 + decimal "02" * 60 + decimal "03" < 2 ^ 53.
Proof.
  apply (parseDuration_reads_clock_times "1" "02" "03"); try reflexivity; simpl; lia.
Defined.

(** What is not a duration counts as nothing: a missing value, an empty
    string, fields that do not start with a numeral; and a string of four
    or more fields is read as a whole, that is up to its first colon. *)
Example parseDuration_edge_cases :
  SonosDevices.parseDuration None = 0 /\
  SonosDevices.parseDuration (Some "") = 0 /\
  SonosDevices.parseDuration (Some "NOT_IMPLEMENTED") = 0 /\
  SonosDevices.parseDuration (Some "0:03:25") = 205 /\
  SonosDevices.parseDuration (Some "1:2:3:4") = 1 /\
  SonosDevices.parseDuration (Some " 7x:30") = 450.
Proof. repeat split. Qed.

(** ** From a poll of the source to the amplifier *)

Lemma normalize_playing (state : option string) :
  SonosController.normalizePlaybackState state = "playing" <->
  exists s, state = Some s /\ toLowerCase s = "playing".
Proof.
  destruct state as [s|]; simpl.
  - split.
    + intros H. exists s. split; [reflexivity|]. revert H.
      generalize (toLowerCase s). intros l.
      destruct (String.eqb_spec l "playing"); [auto|].
      branches; discriminate.
    + intros (s' & [= <-] & ->). reflexivity.
  - split; [discriminate|]. intros (s' & H & _). discriminate.
Qed.

(** A poll of a source that answers with a transport state and a volume,
    and with no position information, emits the normalized state and the
    volume and nothing else, every time (it keeps no record of what it
    emitted before). For the source of an enabled pair the
    calls that follow switch the amplifier to the pair's input exactly when
    the transport state is [playing] in any letter case; the state is
    published in either case. A poll whose state or volume request fails
    emits nothing. *)
Theorem poll_switches_input_when_playing (st : Plugin.State) (device : string)
    (p : DevicePair) (upstream : option string) (volume : Z) :
  getPairBySonosDevice device (Plugin.deviceManager st) = Some p ->
  let events := SonosDevices.pollDeviceState device (Some upstream) (Some volume) None in
  let calls := flat_map (Wiring.onSourceEvent st) events in
  events = [ SonosDevices.playbackStateChanged device
               (SonosController.normalizePlaybackState upstream);
             SonosDevices.volumeChanged device volume ] /\
  (In (Plugin.fusion_switchInput (fusionDevice p) (fusionInput p)) calls <->
     exists s, upstream = Some s /\ toLowerCase s = "playing") /\
  In (Plugin.app_handleMessage (Plugin.statusPath (name p) "playbackState")
        (Plugin.Text (SonosController.normalizePlaybackState upstream))) calls /\
  (forall info, SonosDevices.pollDeviceState device None (Some volume) info = []) /\
  (forall info, SonosDevices.pollDeviceState device (Some upstream) None info = []).
Proof.
  intros Hp events calls. subst calls events.
  split; [reflexivity|]. split; [|split; [|split; reflexivity]].
  - rewrite <- normalize_playing.
    simpl. unfold Plugin.handlePlaybackStateChanged, Plugin.handleVolumeChanged.
    rewrite Hp. cbn [snd]. rewrite app_nil_r.
    set (state := SonosController.normalizePlaybackState upstream).
    split.
    + intros Hin. apply in_app_or in Hin. destruct Hin as [Hin|Hin].
      * apply in_app_or in Hin. destruct Hin as [Hin|Hin].
        -- destruct (String.eqb_spec state "playing"); [assumption|destruct Hin].
        -- destruct Hin as [Hin|Hin]; [discriminate|].
           unfold Plugin.whenNmea in Hin.
           destruct (Plugin.nmea2000Handler st); simpl in Hin; intuition discriminate.
      * destruct (negb (truthy (volumeSync p))); cbn [snd] in Hin; [destruct Hin|].
        destruct Hin as [Hin|[Hin|Hin]]; try discriminate.
        unfold Plugin.whenNmea in Hin.
        destruct (Plugin.nmea2000Handler st); simpl in Hin; intuition discriminate.
    + intros ->. apply in_or_app. left. apply in_or_app. left. simpl. now left.
  - simpl. unfold Plugin.handlePlaybackStateChanged. rewrite Hp. cbn [snd].
    apply in_or_app. left. apply in_or_app. right. now left.
Qed.

Lemma poll_switches_input_when_playing_witness :
  let events := SonosDevices.pollDeviceState "192.168.1.20:1400"
                  (Some (Some "PLAYING")) (Some 30) None in
  let calls := flat_map (Wiring.onSourceEvent salonPlugin) events in
  events = [ SonosDevices.playbackStateChanged "192.168.1.20:1400"
               (SonosController.normalizePlaybackState (Some "PLAYING"));
             SonosDevices.volumeChanged "192.168.1.20:1400" 30 ] /\
  (In (Plugin.fusion_switchInput (fusionDevice (newPair salonConfig))
         (fusionInput (newPair salonConfig))) calls <->
     exists s, Some "PLAYING" = Some s /\ toLowerCase s = "playing") /\
  In (Plugin.app_handleMessage
        (Plugin.statusPath (name (newPair salonConfig)) "playbackState")
        (Plugin.Text (SonosController.normalizePlaybackState (Some "PLAYING")))) calls /\
  (forall info,
     SonosDevices.pollDeviceState "192.168.1.20:1400" None (Some 30) info = []) /\
  (forall info,
     SonosDevices.pollDeviceState "192.168.1.20:1400" (Some (Some "PLAYING")) None info
       = []).
Proof.
  apply (poll_switches_input_when_playing salonPlugin "192.168.1.20:1400"
           (newPair salonConfig) (Some "PLAYING") 30).
  reflexivity.
Defined.

(** ** The bus handler *)

(** A bus handler publishes only while it is started, and never when its
    options disable it: freshly created, stopped, or created with
    [enabled: false] and then started, its three update methods and its
    heartbeat publish nothing and keep nothing. *)
Theorem bus_handler_silent_unless_started (h : NMEA2000Handler.Handler)
    (now : Z) (pairName state : string) (volume : Z) (track : Plugin.Track) :
  NMEA2000Handler.enabled h = false \/ NMEA2000Handler.isStarted h = false ->
  NMEA2000Handler.updatePlaybackState now pairName state h = (h, []) /\
  NMEA2000Handler.updateVolume now pairName volume h = (h, []) /\
  NMEA2000Handler.updateTrack now pairName track h = (h, []) /\
  NMEA2000Handler.heartbeat now h = [] /\
  (forall optionsEnabled optionsInstance,
     NMEA2000Handler.isStarted
       (NMEA2000Handler.create optionsEnabled optionsInstance) = false) /\
  (forall optionsInstance,
     NMEA2000Handler.isStarted
       (NMEA2000Handler.start (NMEA2000Handler.create (Some false) optionsInstance))
       = false) /\
  (forall any : NMEA2000Handler.Handler,
     NMEA2000Handler.isStarted (NMEA2000Handler.stop any) = false /\
     (NMEA2000Handler.isStarted any = true ->
        NMEA2000Handler.pairStates (NMEA2000Handler.stop any) = Map_empty)).
Proof.
  intros Hoff.
  assert (Hgate : negb (NMEA2000Handler.enabled h) || negb (NMEA2000Handler.isStarted h)
                  = true).
  { destruct Hoff as [-> | ->]; [reflexivity|apply orb_true_r]. }
  unfold NMEA2000Handler.updatePlaybackState, NMEA2000Handler.updateVolume,
    NMEA2000Handler.updateTrack, NMEA2000Handler.heartbeat. rewrite Hgate.
  repeat split.
  - unfold NMEA2000Handler.stop. destruct (NMEA2000Handler.isStarted any) eqn:E;
      simpl; [reflexivity|exact E].
  - intros E. unfold NMEA2000Handler.stop. rewrite E. reflexivity.
Qed.

Lemma bus_handler_silent_unless_started_witness :
  let h := NMEA2000Handler.create None None in
  NMEA2000Handler.updatePlaybackState 5 "salon" "playing" h = (h, []) /\
  NMEA2000Handler.updateVolume 5 "salon" 30 h = (h, []) /\
  NMEA2000Handler.updateTrack 5 "salon"
    {| Plugin.title := "t"; Plugin.artist := "a"; Plugin.album := "b";
       Plugin.duration := 205 |} h = (h, []) /\
  NMEA2000Handler.heartbeat 5 h = [] /\
  (forall optionsEnabled optionsInstance,
     NMEA2000Handler.isStarted
       (NMEA2000Handler.create optionsEnabled optionsInstance) = false) /\
  (forall optionsInstance,
     NMEA2000Handler.isStarted
       (NMEA2000Handler.start (NMEA2000Handler.create (Some false) optionsInstance))
       = false) /\
  (forall any : NMEA2000Handler.Handler,
     NMEA2000Handler.isStarted (NMEA2000Handler.stop any) = false /\
     (NMEA2000Handler.isStarted any = true ->
        NMEA2000Handler.pairStates (NMEA2000Handler.stop any) = Map_empty)).
Proof.
  apply (bus_handler_silent_unless_started (NMEA2000Handler.create None None)
           5 "salon" "playing" 30).
  right. reflexivity.
Defined.

(** On a running handler the status message of a pair always carries both
    its playback state and its volume as last given: a volume update
    repeats the state known so far ([stopped] for a pair not seen before),
    and the playback update that follows carries the new state with that
    volume. Track information goes out with a playback update only once a
    track has been given for the pair. The states of other pairs are not
    touched. *)
Theorem bus_status_carries_latest_state (h : NMEA2000Handler.Handler)
    (t1 t2 : Z) (pairName state : string) (volume : Z) :
  NMEA2000Handler.enabled h = true ->
  NMEA2000Handler.isStarted h = true ->
  let before := match Map_get pairName (NMEA2000Handler.pairStates h) with
                | Some known => known
                | None => NMEA2000Handler.defaultState t1
                end in
  let first := NMEA2000Handler.updateVolume t1 pairName volume h in
  let second := NMEA2000Handler.updatePlaybackState t2 pairName state (fst first) in
  snd first =
    [{| NMEA2000Handler.source := NMEA2000Handler.sourceName h;
        NMEA2000Handler.values :=
          [ (NMEA2000Handler.path pairName "playbackState",
             NMEA2000Handler.busText (NMEA2000Handler.playbackState before));
            (NMEA2000Handler.path pairName "volume",
             NMEA2000Handler.busNumber volume 100) ] |}] /\
  head (snd second) =
    Some {| NMEA2000Handler.source := NMEA2000Handler.sourceName h;
            NMEA2000Handler.values :=
              [ (NMEA2000Handler.path pairName "playbackState",
                 NMEA2000Handler.busText state);
                (NMEA2000Handler.path pairName "volume",
                 NMEA2000Handler.busNumber volume 100) ] |} /\
  (length (snd second) = 2%nat <-> NMEA2000Handler.currentTrack before <> None) /\
  (length (snd second) = 1%nat <-> NMEA2000Handler.currentTrack before = None) /\
  (forall other, other <> pairName ->
     Map_get other (NMEA2000Handler.pairStates (fst second)) =
     Map_get other (NMEA2000Handler.pairStates h)).
Proof.
  intros He Hs. cbv zeta.
  unfold NMEA2000Handler.updateVolume, NMEA2000Handler.updatePlaybackState,
    NMEA2000Handler.getPairState, NMEA2000Handler.withStates.
  rewrite He, Hs. cbn [negb orb].
  destruct (Map_get pairName (NMEA2000Handler.pairStates h)) as [known|] eqn:E;
    cbn [fst snd NMEA2000Handler.enabled NMEA2000Handler.isStarted
         NMEA2000Handler.pairStates];
    rewrite ?He, ?Hs; cbn [negb orb];
    rewrite ?Map_get_set_eq;
    cbn [fst snd NMEA2000Handler.pairStates NMEA2000Handler.playbackState
         NMEA2000Handler.volume NMEA2000Handler.currentTrack
         NMEA2000Handler.defaultState].
  - split; [reflexivity|]. split; [reflexivity|].
    unfold NMEA2000Handler.sendPGN129041. cbn [NMEA2000Handler.currentTrack].
    destruct (NMEA2000Handler.currentTrack known); simpl.
    + split; [split; [intros _ Hd; discriminate Hd|reflexivity]|].
      split; [split; intros Hd; discriminate Hd|].
      intros other Ho. rewrite !Map_get_set_ne by congruence. reflexivity.
    + split; [split; [discriminate|intros Hn; exfalso; apply Hn; reflexivity]|].
      split; [split; reflexivity|].
      intros other Ho. rewrite !Map_get_set_ne by congruence. reflexivity.
  - split; [reflexivity|]. split; [reflexivity|]. simpl.
    split; [split; [discriminate|intros Hn; exfalso; apply Hn; reflexivity]|].
    split; [split; reflexivity|].
    intros other Ho. rewrite !Map_get_set_ne by congruence. reflexivity.
Qed.

Lemma bus_status_carries_latest_state_witness :
  let before := match Map_get "salon" (NMEA2000Handler.pairStates runningBus) with
                | Some known => known
                | None => NMEA2000Handler.defaultState 10
                end in
  let first := NMEA2000Handler.updateVolume 10 "salon" 30 runningBus in
  let second := NMEA2000Handler.updatePlaybackState 20 "salon" "playing" (fst first) in
  snd first =
    [{| NMEA2000Handler.source := NMEA2000Handler.sourceName runningBus;
        NMEA2000Handler.values :=
          [ (NMEA2000Handler.path "salon" "playbackState",
             NMEA2000Handler.busText (NMEA2000Handler.playbackState before));
            (NMEA2000Handler.path "salon" "volume",
             NMEA2000Handler.busNumber 30 100) ] |}] /\
  head (snd second) =
    Some {| NMEA2000Handler.source := NMEA2000Handler.sourceName runningBus;
            NMEA2000Handler.values :=
              [ (NMEA2000Handler.path "salon" "playbackState",
                 NMEA2000Handler.busText "playing");
                (NMEA2000Handler.path "salon" "volume",
                 NMEA2000Handler.busNumber 30 100) ] |} /\
  (length (snd second) = 2%nat <-> NMEA2000Handler.currentTrack before <> None) /\
  (length (snd second) = 1%nat <-> NMEA2000Handler.currentTrack before = None) /\
  (forall other, other <> "salon" ->
     Map_get other (NMEA2000Handler.pairStates (fst second)) =
     Map_get other (NMEA2000Handler.pairStates runningBus)).
Proof.
  apply (bus_status_carries_latest_state runningBus 10 20 "salon" "playing" 30);
    reflexivity.
Defined.

Lemma split_free (sep : ascii) (s : string) :
  freeOf sep s = true -> JSLib.split sep s = [s].
Proof.
  induction s as [|c r IH]; simpl; [reflexivity|]. intros H.
  apply andb_true_iff in H. destruct H as [Hc Hr].
  apply negb_true_iff in Hc. rewrite Hc, (IH Hr). reflexivity.
Qed.

Lemma split_control_path (pairName control : string) :
  JSLib.split "." (NMEA2000Handler.path pairName ("controls." ++ control)) =
  "entertainment" :: "audio" ::
    app (JSLib.split "." pairName) ("controls" :: JSLib.split "." control).
Proof.
  unfold NMEA2000Handler.path.
  change ("entertainment.audio." ++ pairName ++ "." ++ "controls." ++ control)
    with ("entertainment" ++
          String "." ("audio" ++
          String "." (pairName ++ String "." ("controls" ++ String "." control)))).
  rewrite !split_app_sep. reflexivity.
Qed.

Lemma nth_error_last_of_app (l : list string) (x : string) :
  nth_error (app l [x]) (length l) = Some x.
Proof. induction l as [|y r IH]; simpl; [reflexivity|exact IH]. Qed.

Lemma handleNMEAControl_volume_path (pairName : string)
    (value : NMEA2000Handler.ControlData) :
  NMEA2000Handler.handleNMEAControl
    (NMEA2000Handler.path pairName "controls.volume") value =
  NMEA2000Handler.handleNMEAVolumeControl (hd "" (JSLib.split "." pairName)) value.
Proof.
  revert value.
  intros value. unfold NMEA2000Handler.handleNMEAControl.
    change (NMEA2000Handler.path pairName "controls.volume")
      with (NMEA2000Handler.path pairName ("controls." ++ "volume")).
    rewrite (split_control_path pairName "volume").
    pose proof (split_nonempty "." pairName) as Hne.
    destruct (JSLib.split "." pairName) as [|first rest]; [contradiction|].
    change (JSLib.split "." "volume") with ["volume"].
    change (JSLib.indexOf "audio"
              ("entertainment" :: "audio" :: app (first :: rest) ["controls"; "volume"]))
      with 1.
    set (parts := "entertainment" :: "audio" :: app (first :: rest) ["controls"; "volume"]).
    assert (Hlen : length parts = S (length ("entertainment" :: "audio" ::
                      app (first :: rest) ["controls"]))).
    { unfold parts. simpl. rewrite !length_app. simpl. lia. }
    assert (Hlast : JSLib.at_ parts (Z.of_nat (length parts) - 1) = Some "volume").
    { unfold JSLib.at_. rewrite Hlen.
      destruct (Z.of_nat (S _) - 1 <? 0) eqn:Hneg; [apply Z.ltb_lt in Hneg; lia|].
      replace (Z.to_nat (Z.of_nat (S (length ("entertainment" :: "audio" ::
                 app (first :: rest) ["controls"]))) - 1))
        with (length ("entertainment" :: "audio" :: app (first :: rest) ["controls"]))
        by lia.
      replace parts with (app ("entertainment" :: "audio" ::
                                 app (first :: rest) ["controls"]) ["volume"]).
      - apply nth_error_last_of_app.
      - unfold parts. simpl. rewrite <- app_assoc. reflexivity. }
    rewrite Hlast.
    destruct (Z.of_nat (length parts) <=? 1 + 1) eqn:Hshort.
    { apply Z.leb_le in Hshort. rewrite Hlen in Hshort. simpl in Hshort.
      rewrite length_app in Hshort. simpl in Hshort. lia. }
    reflexivity.
Qed.

(** A control path [entertainment.audio.<pair>.controls.volume] is taken
    apart again into the pair and the kind of control: an object with a
    [change] gives [volumeControl] and a number gives [volumeSet] for the
    pair, while [null] makes the handler throw. The pair is the path
    segment after [audio], so of a pair name with a dot only the part
    before the first dot arrives; a name without a dot arrives whole. *)
Theorem control_path_names_the_pair (pairName : string) (change : JSLib.Value)
    (level : Z) :
  let controlPath := NMEA2000Handler.path pairName "controls.volume" in
  let addressed := hd "" (JSLib.split "." pairName) in
  (change <> JSLib.undefined ->
   NMEA2000Handler.handleNMEAControl controlPath (NMEA2000Handler.dataObject change)
     = NMEA2000Handler.Emitted [NMEA2000Handler.volumeControl addressed change]) /\
  NMEA2000Handler.handleNMEAControl controlPath (NMEA2000Handler.dataNumber level)
    = NMEA2000Handler.Emitted [NMEA2000Handler.volumeSet addressed level] /\
  NMEA2000Handler.handleNMEAControl controlPath NMEA2000Handler.dataNull
    = NMEA2000Handler.TypeError /\
  (freeOf "." pairName = true -> addressed = pairName) /\
  (forall front back, pairName = front ++ String "." back ->
     freeOf "." front = true -> addressed = front).
Proof.
  cbv zeta.
  pose proof (handleNMEAControl_volume_path pairName) as Hrun.
  split; [|split; [|split; [|split]]].
  - intros Hc. rewrite Hrun. simpl.
    destruct change; try reflexivity. contradiction.
  - rewrite Hrun. reflexivity.
  - rewrite Hrun. reflexivity.
  - intros Hf. rewrite (split_free _ _ Hf). reflexivity.
  - intros front back -> Hf. rewrite split_app_sep, (split_free _ _ Hf). reflexivity.
Qed.

Lemma control_path_names_the_pair_witness :
  NMEA2000Handler.handleNMEAControl
    (NMEA2000Handler.path "aft.deck" "controls.volume")
    (NMEA2000Handler.dataObject (JSLib.number 5))
  = NMEA2000Handler.Emitted [NMEA2000Handler.volumeControl "aft" (JSLib.number 5)].
Proof.
  apply (control_path_names_the_pair "aft.deck" (JSLib.number 5) 0). discriminate.
Defined.

(** A volume change that arrives on the bus for a stored pair reaches the
    pair's source as exactly one volume command, at the source's current
    volume plus the change cut off at 0 and at 100. Neither the pair's
    [enabled] flag nor its [volumeSync] flag is looked at on this way. *)
Theorem bus_volume_change_reaches_source (st : Plugin.State) (pairName : string)
    (p : DeviceManager.DevicePair) (sources : gset string) (current change : Z) :
  freeOf "." pairName = true ->
  DeviceManager.getPairByName pairName (Plugin.deviceManager st) = Some p ->
  DeviceManager.sonosDevice p ∈ sources ->
  exists event calls level,
    NMEA2000Handler.handleNMEAControl
      (NMEA2000Handler.path pairName "controls.volume")
      (NMEA2000Handler.dataObject (JSLib.number change))
      = NMEA2000Handler.Emitted [event] /\
    Wiring.onControlEvent st event = Some calls /\
    Wiring.adjustCommands sources (Some current) calls
      = [SonosController.SetVolume (DeviceManager.sonosDevice p) level] /\
    0 <= level <= 100 /\
    (0 <= current + change <= 100 -> level = current + change).
Proof.
  intros Hf Hp Hin.
  exists (NMEA2000Handler.volumeControl pairName (JSLib.number change)).
  exists [Plugin.sonos_adjustVolume (DeviceManager.sonosDevice p) change].
  exists (Z.max 0 (Z.min 100 (current + change))).
  split; [|split; [|split; [|split]]].
  - rewrite handleNMEAControl_volume_path, (split_free _ _ Hf). reflexivity.
  - unfold Wiring.onControlEvent, Plugin.handleNMEAVolumeControl. rewrite Hp.
    reflexivity.
  - unfold Wiring.adjustCommands. cbn [flat_map]. unfold SonosDevices.adjustVolume.
    destruct (decide (DeviceManager.sonosDevice p ∈ sources)); [|contradiction].
    reflexivity.
  - lia.
  - intros Hr. lia.
Qed.

Lemma bus_volume_change_reaches_source_witness :
  exists event calls level,
    NMEA2000Handler.handleNMEAControl
      (NMEA2000Handler.path "salon" "controls.volume")
      (NMEA2000Handler.dataObject (JSLib.number 7))
      = NMEA2000Handler.Emitted [event] /\
    Wiring.onControlEvent salonPlugin event = Some calls /\
    Wiring.adjustCommands trackedSources (Some 96) calls
      = [SonosController.SetVolume (DeviceManager.sonosDevice
                                      (DeviceManager.newPair salonConfig)) level] /\
    0 <= level <= 100 /\
    (0 <= 96 + 7 <= 100 -> level = 96 + 7).
Proof.
  apply (bus_volume_change_reaches_source salonPlugin "salon"
           (DeviceManager.newPair salonConfig) trackedSources 96 7).
  - reflexivity.
  - reflexivity.
  - vm_compute. reflexivity.
Defined.

Lemma flat_map_length_le {A B : Type} (f : A -> list B) (l : list A) :
  (forall x, length (f x) <= 1)%nat -> (length (flat_map f l) <= length l)%nat.
Proof.
  intros Hf. induction l as [|x r IH]; simpl; [lia|].
  rewrite length_app. specialize (Hf x). lia.
Qed.

(** The heartbeat of a running handler speaks for the pairs it has heard
    of lately: a pair updated less than thirty seconds before the tick gets
    its [online] message, there are never more messages than pairs, pairs
    all silent for thirty seconds or more get none, and after [stop] there
    is none. *)
Theorem heartbeat_follows_updates (h : NMEA2000Handler.Handler)
    (t now : Z) (pairName : string) (volume : Z) :
  NMEA2000Handler.enabled h = true ->
  NMEA2000Handler.isStarted h = true ->
  let updated := fst (NMEA2000Handler.updateVolume t pairName volume h) in
  (now - t < 30000 ->
   In (NMEA2000Handler.sendHeartbeat now updated pairName)
      (NMEA2000Handler.heartbeat now updated)) /\
  (length (NMEA2000Handler.heartbeat now updated)
     <= Map_size (NMEA2000Handler.pairStates updated))%nat /\
  ((forall entry, In entry (NMEA2000Handler.pairStates updated) ->
      30000 <= now - NMEA2000Handler.lastUpdate (snd entry)) ->
   NMEA2000Handler.heartbeat now updated = []) /\
  NMEA2000Handler.heartbeat now (NMEA2000Handler.stop updated) = [].
Proof.
  intros He Hs. cbv zeta.
  unfold NMEA2000Handler.updateVolume. rewrite He, Hs. cbn [negb orb].
  destruct (NMEA2000Handler.getPairState t pairName (NMEA2000Handler.pairStates h))
    as [states pairState]. cbn [fst].
  set (entry := {| NMEA2000Handler.playbackState :=
                     NMEA2000Handler.playbackState pairState;
                   NMEA2000Handler.volume := volume;
                   NMEA2000Handler.currentTrack :=
                     NMEA2000Handler.currentTrack pairState;
                   NMEA2000Handler.lastUpdate := t |}).
  unfold NMEA2000Handler.heartbeat, NMEA2000Handler.stop, NMEA2000Handler.withStates.
  cbn [NMEA2000Handler.enabled NMEA2000Handler.isStarted NMEA2000Handler.pairStates].
  rewrite ?He, ?Hs. cbn [negb orb NMEA2000Handler.enabled NMEA2000Handler.isStarted].
  rewrite ?He. cbn [negb orb].
  split; [|split; [|split; [|reflexivity]]].
  - intros Hrecent. apply in_flat_map. exists (pairName, entry). split.
    + apply Map_get_In, Map_get_set_eq.
    + cbn [fst snd]. unfold entry. cbn [NMEA2000Handler.lastUpdate].
      destruct (now - t <? 30000) eqn:E; [cbn [In]; left; reflexivity|].
      apply Z.ltb_ge in E. lia.
  - apply flat_map_length_le. intros x.
    destruct (now - NMEA2000Handler.lastUpdate (snd x) <? 30000); simpl; lia.
  - intros Hstale.
    induction (Map_set pairName entry states) as [|x r IH]; [reflexivity|].
    cbn [flat_map].
    destruct (now - NMEA2000Handler.lastUpdate (snd x) <? 30000) eqn:E.
    + apply Z.ltb_lt in E. specialize (Hstale x (or_introl eq_refl)). lia.
    + apply IH. intros y Hy. apply Hstale. right. exact Hy.
Qed.

Lemma heartbeat_follows_updates_witness :
  let updated := fst (NMEA2000Handler.updateVolume 1000 "salon" 30 runningBus) in
  (20000 - 1000 < 30000 ->
   In (NMEA2000Handler.sendHeartbeat 20000 updated "salon")
      (NMEA2000Handler.heartbeat 20000 updated)) /\
  (length (NMEA2000Handler.heartbeat 20000 updated)
     <= Map_size (NMEA2000Handler.pairStates updated))%nat /\
  ((forall entry, In entry (NMEA2000Handler.pairStates updated) ->
      30000 <= 20000 - NMEA2000Handler.lastUpdate (snd entry)) ->
   NMEA2000Handler.heartbeat 20000 updated = []) /\
  NMEA2000Handler.heartbeat 20000 (NMEA2000Handler.stop updated) = [].
Proof.
  apply (heartbeat_follows_updates runningBus 1000 20000 "salon" 30); reflexivity.
Defined.
